(** * PlayPackFactory: the quota-constrained allocation engine of [pack.py]

    A shallow embedding of [collect_wav_files], [convert_audio] and
    [create_sample_pack] (src/PlayPackFactory/pack.py), followed by the
    properties of the pool builder, the category selector, the quota
    allocator and the materializer. [build_sample_map],
    [generate_unique_two_word_names] and [delete_hidden_files] of the same
    file, and the kind pruning and the allocation loop of the earlier
    script (src/PlayPackFactory/main.py), are embedded after them.

    Conventions of the embedding:
    - Python [int] is [Z] (unbounded); [//] on ints is floor division, which
      is [Z.div]; [len] is [Z.of_nat (length _)].
    - A [pathlib.Path] is the string it prints as; [/] joins with a slash.
    - A Python [dict] keeps insertion order, so it is an association list;
      a real dict has pairwise distinct keys, which theorems that depend on
      it assume as [NoDup (dict_keys d)].
    - Exceptions are the [Raise] branch of [result]; the [while] loop runs on
      fuel and reports [OutOfFuel] separately, so that termination is a
      theorem and not an artefact of the model.
    - [random.sample] draws from a stream of raw random numbers that is
      threaded through the state; every choice of distinct positions is
      produced by some stream. *)

From stdpp Require Import base list strings pretty gmap.
From Stdlib Require Import ZArith Lia Ascii.

Open Scope Z_scope.

(** ** Python values and exceptions *)

Definition Path := string.

Inductive exn :=
| ZeroDivisionError
| ValueError
| KeyError (key : string)
| FileNotFoundError (path : Path)
| CouldntDecodeError
| OtherException.

Inductive result (A : Type) :=
| Ok (a : A)
| Raise (e : exn).
Arguments Ok {A} a.
Arguments Raise {A} e.

#[global] Instance result_ret : MRet result := λ A a, Ok a.
#[global] Instance result_bind : MBind result := λ A B f r,
  match r with
  | Ok a => f a
  | Raise e => Raise e
  end.

(** What running a loop on fuel can end in. *)
Inductive outcome (A : Type) :=
| Done (a : A)
| Raised (e : exn)
| OutOfFuel.
Arguments Done {A} a.
Arguments Raised {A} e.
Arguments OutOfFuel {A}.

Definition len {A} (l : list A) : Z := Z.of_nat (length l).

(** [a // b] on Python ints. *)
Definition floordiv (a b : Z) : result Z :=
  if decide (b = 0) then Raise ZeroDivisionError else Ok (a / b).

(** [for x in xs: body], the body threading the state and possibly raising. *)
Fixpoint for_each {S A : Type} (body : S → A → result S) (xs : list A) (s : S)
  : result S :=
  match xs with
  | [] => Ok s
  | x :: xs' => s' ← body s x; for_each body xs' s'
  end.

(** ** Dictionaries in insertion order *)

Abbreviation dict V := (list (string * V)).

Definition dict_keys {V} (d : dict V) : list string := d.*1.
Definition dict_values {V} (d : dict V) : list V := d.*2.

(** [d.get(k)], [None] when the key is absent. *)
Fixpoint dict_get {V} (d : dict V) (k : string) : option V :=
  match d with
  | [] => None
  | (k', v) :: d' => if decide (k' = k) then Some v else dict_get d' k
  end.

(** [d[k]] as an expression. *)
Definition dict_getitem {V} (d : dict V) (k : string) : result V :=
  match dict_get d k with
  | Some v => Ok v
  | None => Raise (KeyError k)
  end.

(** [d[k] = v]: an existing key keeps its position, a new one goes last. *)
Fixpoint dict_set {V} (d : dict V) (k : string) (v : V) : dict V :=
  match d with
  | [] => [(k, v)]
  | (k', v') :: d' =>
      if decide (k' = k) then (k, v) :: d' else (k', v') :: dict_set d' k v
  end.

(** ** The random source and [random.sample] *)

Definition rng_state := list nat.

(** A uniform index below [n]; a drained stream keeps answering 0. *)
Definition randbelow (n : nat) (g : rng_state) : nat * rng_state :=
  match g with
  | [] => (0%nat, [])
  | r :: g' => ((r `mod` n)%nat, g')
  end.

(** [k] elements taken at pairwise distinct positions, in selection order. *)
Fixpoint sample_positions {A} (k : nat) (pool : list A) (g : rng_state)
  : list A * rng_state :=
  match k with
  | O => ([], g)
  | S k' =>
      let '(j, g1) := randbelow (length pool) g in
      match pool !! j with
      | None => ([], g1)
      | Some x =>
          let '(xs, g2) := sample_positions k' (delete j pool) g1 in
          (x :: xs, g2)
      end
  end.

(** [random.sample(population, k)]; it raises [ValueError] when the sample is
    larger than the population or negative. *)
Definition random_sample {A} (population : list A) (k : Z) (g : rng_state)
  : result (list A * rng_state) :=
  if decide (0 ≤ k ≤ len population)
  then Ok (sample_positions (Z.to_nat k) population g)
  else Raise ValueError.

(** ** Limits of the target device (pack.py, lines 835-837) *)

Definition MAX_FOLDERS_PER_PACK : nat := 20.
Definition MAX_FILES_PER_PACK : Z := 255.
Definition MAX_FILE_SIZE_KB : Z := 400.

(** ** [create_sample_pack]: the category selector (lines 1033-1045) *)

Definition FILL_KEYS : list string := ["Kick"; "Snare"; "HiHat"; "Synth"; "Bass"].

Definition available_subfolders (sample_map : dict (list Path)) : list string :=
  dict_keys (filter (λ kv, 0 < len kv.2) sample_map).

Definition prioritized_subfolders (sample_map : dict (list Path)) : list string :=
  filter (λ k, k ∈ available_subfolders sample_map) FILL_KEYS.

Definition remaining_subfolders (sample_map : dict (list Path)) : list string :=
  filter (λ k, k ∉ prioritized_subfolders sample_map)
         (available_subfolders sample_map).

Definition selected_subfolders (sample_map : dict (list Path)) : list string :=
  if decide (MAX_FOLDERS_PER_PACK < length (available_subfolders sample_map))%nat
  then
    let selected := take MAX_FOLDERS_PER_PACK (prioritized_subfolders sample_map) in
    if decide (length selected < MAX_FOLDERS_PER_PACK)%nat
    then selected ++ take (MAX_FOLDERS_PER_PACK - length selected)
                          (remaining_subfolders sample_map)
    else selected
  else available_subfolders sample_map.

(** ** [create_sample_pack]: the quota allocator (lines 1050-1085)

    The file budget is the module constant [MAX_FILES_PER_PACK]; the
    allocator is written over an arbitrary [budget] and instantiated with the
    constant in [build_plan]. *)

Record alloc_state := AllocState {
  files_left : Z;
  files_inserted : Z;
  round_index : Z;                        (* the loop variable [i] *)
  not_empty : bool;
  remaining_samples : dict (list Path);
  selected_files : dict (list Path);
  rng : rng_state
}.

Definition clear_not_empty (st : alloc_state) : alloc_state :=
  AllocState (files_left st) (files_inserted st) (round_index st) false
             (remaining_samples st) (selected_files st) (rng st).

Definition next_round (st : alloc_state) : alloc_state :=
  AllocState (files_left st) (files_inserted st) (round_index st + 1)
             (not_empty st) (remaining_samples st) (selected_files st) (rng st).

(** Lines 1064-1066: the quota of round [i]. *)
Definition files_per_kind (budget : Z) (all_kinds : list string) (i : Z)
  : result Z :=
  q ← floordiv budget (len all_kinds);
  if decide (0 < i) then floordiv q i else Ok q.

(** Lines 1070-1084: the body of [for kind_key in all_kinds]. *)
Definition draw_kind (quota : Z) (st : alloc_state) (kind_key : string)
  : result alloc_state :=
  let kind_val := default [] (dict_get (remaining_samples st) kind_key) in
  if decide (kind_val = []) then Ok st
  else
    let sample_num := Z.min quota (len kind_val) in
    if decide (0 < sample_num) then
      let overdrawn := files_left st - sample_num in
      let sample_num' :=
        if decide (overdrawn < 0) then sample_num + overdrawn else sample_num in
      let files_left' := if decide (overdrawn < 0) then 0 else overdrawn in
      if decide (0 < sample_num') then
        '(random_subset, g) ← random_sample kind_val sample_num' (rng st);
        chosen ← dict_getitem (selected_files st) kind_key;
        Ok (AllocState files_left' (files_inserted st + sample_num')
              (round_index st) true
              (dict_set (remaining_samples st) kind_key
                        (list_difference kind_val random_subset))
              (dict_set (selected_files st) kind_key (chosen ++ random_subset))
              g)
      else
        Ok (AllocState files_left' (files_inserted st) (round_index st) true
              (remaining_samples st) (selected_files st) (rng st))
    else Ok st.

(** Lines 1064-1085: one round, entered with a non-empty [all_kinds]. *)
Definition round_body (budget : Z) (all_kinds : list string) (st : alloc_state)
  : result alloc_state :=
  quota ← files_per_kind budget all_kinds (round_index st);
  st' ← for_each (draw_kind quota) all_kinds (clear_not_empty st);
  Ok (next_round st').

Definition loop_condition (st : alloc_state) : bool :=
  bool_decide (0 < files_left st) && not_empty st.

(** Lines 1061-1085: [while files_left > 0 and not_empty]. *)
Fixpoint while_loop (fuel : nat) (budget : Z) (all_kinds : list string)
    (st : alloc_state) : outcome alloc_state :=
  if loop_condition st then
    match fuel with
    | O => OutOfFuel
    | S fuel' =>
        if decide (len all_kinds = 0) then Done st
        else
          match round_body budget all_kinds st with
          | Raise e => Raised e
          | Ok st' => while_loop fuel' budget all_kinds st'
          end
    end
  else Done st.

(** Line 1059: the copy of the admitted pools that the loop consumes. *)
Definition admitted_pools (sample_map : dict (list Path)) (all_kinds : list string)
  : dict (list Path) :=
  filter (λ kv, kv.1 ∈ all_kinds) sample_map.

(** Lines 1030 and 1053-1059: the state the loop starts from. *)
Definition initial_state (budget : Z) (sample_map : dict (list Path))
    (all_kinds : list string) (g : rng_state) : alloc_state :=
  AllocState budget 0 1 true
    (admitted_pools sample_map all_kinds)
    (prod_map id (λ _, []) <$> sample_map)
    g.

(** Fuel for the loop: more rounds than any run takes ([while_loop_rule]),
    and more of it changes nothing ([while_loop_more_fuel]). *)
Definition loop_fuel (budget : Z) : nat := Z.to_nat budget + 2.

Definition allocate (budget : Z) (sample_map : dict (list Path))
    (all_kinds : list string) (g : rng_state) : outcome alloc_state :=
  while_loop (loop_fuel budget) budget all_kinds
             (initial_state budget sample_map all_kinds g).

(** Lines 1027-1085 of [create_sample_pack]: selection, then allocation. *)
Definition build_plan (sample_map : dict (list Path)) (g : rng_state)
  : outcome alloc_state :=
  allocate MAX_FILES_PER_PACK sample_map (selected_subfolders sample_map) g.

(** The number of files in a plan: [sum(len(v) for v in plan.values())]. *)
Definition plan_total (plan : dict (list Path)) : Z :=
  foldr (λ files acc, len files + acc) 0 (dict_values plan).

(** Every file reference of a plan, category after category. *)
Definition plan_files (plan : dict (list Path)) : list Path :=
  concat (dict_values plan).

(** ** Paths and strings *)

(** [a / b] on paths and [os.path.join]: source roots carry no trailing
    slash. *)
Definition path_join (a b : string) : Path := a +:+ "/" +:+ b.

Fixpoint has_slash (p : string) : bool :=
  match p with
  | EmptyString => false
  | String c p' => bool_decide (c = "/"%char) || has_slash p'
  end.

(** [Path.name]: the final component. *)
Fixpoint path_name (p : Path) : string :=
  match p with
  | EmptyString => EmptyString
  | String c p' => if has_slash p' then path_name p'
                   else if decide (c = "/"%char) then p' else p
  end.

(** [str.lower] on the ASCII range; other bytes are left alone. *)
Definition ascii_lower (c : ascii) : ascii :=
  let n := nat_of_ascii c in
  if bool_decide (65 ≤ n)%nat && bool_decide (n ≤ 90)%nat
  then ascii_of_nat (n + 32) else c.

Fixpoint str_lower (s : string) : string :=
  match s with
  | EmptyString => EmptyString
  | String c s' => String (ascii_lower c) (str_lower s')
  end.

(** [needle in hay] on strings. *)
Fixpoint str_in (needle hay : string) : bool :=
  String.prefix needle hay ||
  match hay with
  | EmptyString => false
  | String _ hay' => str_in needle hay'
  end.

(** [s.endswith(suffix)]. *)
Definition str_endswith (s suffix : string) : bool :=
  String.prefix (String.rev suffix) (String.rev s).

(** ** The candidate pool builder: [collect_wav_files] (lines 944-992) *)

(** A directory as [os.walk] sees it: its subdirectories by name and its
    files, each with the size [stat] reports, or [None] when the file is
    gone by the time it is looked at. *)
#[local] Set Warnings "-register-all".
Inductive dir_tree :=
| Dir (subdirs : list (string * dir_tree)) (files : list (string * option Z)).

Definition walk_entry : Type := string * list string * list (string * option Z).

(** [os.walk(top)], top-down: the directory itself, then every subdirectory
    in turn. Nothing prunes [dirnames], so every directory is reported. *)
Fixpoint os_walk (dirpath : string) (t : dir_tree) : list walk_entry :=
  match t with
  | Dir subdirs files =>
      (dirpath, subdirs.*1, files) ::
      (fix walk_all (ds : list (string * dir_tree)) : list walk_entry :=
         match ds with
         | [] => []
         | (name, sub) :: ds' => os_walk (path_join dirpath name) sub ++ walk_all ds'
         end) subdirs
  end.

(** What is mounted where: [None] for a source directory that does not
    exist, on which [os.walk] yields nothing. *)
Definition file_system := Path → option dir_tree.

Definition walk_source (fs : file_system) (source_dir : Path) : list walk_entry :=
  match fs source_dir with
  | Some t => os_walk source_dir t
  | None => []
  end.

(** Lines 968-970 and 973-975, on the lower-cased directory path. *)
Definition include_rejects (include_dirs : list string) (dirpath : string) : bool :=
  bool_decide (include_dirs ≠ []) &&
  negb (existsb (λ incl, str_in (str_lower incl) (str_lower dirpath)) include_dirs).

Definition exclude_rejects (exclude_dirs : list string) (dirpath : string) : bool :=
  bool_decide (exclude_dirs ≠ []) &&
  existsb (λ excl, str_in (str_lower excl) (str_lower dirpath)) exclude_dirs.

(** Lines 978-991: one file name of a surviving directory. The size test
    [st_size / 1024 <= MAX_FILE_SIZE_KB] divides by a power of two, so it is
    the integer test [st_size <= MAX_FILE_SIZE_KB * 1024]. The compiled
    pattern is its [search] predicate. A size of [None] is a [stat] that
    raises [FileNotFoundError], the one error line 982 catches; a [stat]
    that raises anything else ends the whole collection, which
    [collect_wav_files_run] below accounts for. *)
Definition visit_file (pattern : option (string → bool)) (dirpath : string)
    (file : string * option Z) : list Path :=
  let '(filename, st_size) := file in
  if str_endswith (str_lower filename) ".wav" then
    match st_size with
    | None => []
    | Some size =>
        if decide (size ≤ MAX_FILE_SIZE_KB * 1024) then
          match pattern with
          | Some search => if search filename then [path_join dirpath filename] else []
          | None => [path_join dirpath filename]
          end
        else []
    end
  else [].

(** Lines 964-991: the body of the [os.walk] loop for one directory. *)
Definition visit_directory (pattern : option (string → bool))
    (include_dirs exclude_dirs : list string) (entry : walk_entry) : list Path :=
  let '(dirpath, _, filenames) := entry in
  if include_rejects include_dirs dirpath then []
  else if exclude_rejects exclude_dirs dirpath then []
  else flat_map (visit_file pattern dirpath) filenames.

Definition collect_wav_files (fs : file_system) (source_dirs : list Path)
    (pattern : option (string → bool)) (include_dirs exclude_dirs : list string)
  : list Path :=
  flat_map (λ source_dir,
              flat_map (visit_directory pattern include_dirs exclude_dirs)
                       (walk_source fs source_dir))
           source_dirs.

(** Every directory of a tree with its path, and every file path below a
    directory, as the claims about whole subtrees speak of them. *)
Fixpoint directories_under (dirpath : string) (t : dir_tree)
  : list (string * dir_tree) :=
  match t with
  | Dir subdirs files =>
      (dirpath, t) ::
      (fix under_all (ds : list (string * dir_tree)) : list (string * dir_tree) :=
         match ds with
         | [] => []
         | (name, sub) :: ds' =>
             directories_under (path_join dirpath name) sub ++ under_all ds'
         end) subdirs
  end.

Definition files_under (dirpath : string) (t : dir_tree) : list Path :=
  flat_map (λ e : walk_entry, (λ f : string * option Z, path_join e.1.1 f.1) <$> e.2)
           (os_walk dirpath t).

(** ** The materializer: [convert_audio] (lines 914-941) and the copy loop
       of [create_sample_pack] (lines 1089-1109) *)

(** A file of the destination tree: where its bytes come from, whether the
    copy ran to its end, and the channel count it was normalized to, if it
    was. *)
Record stored := Stored {
  origin : Path;
  complete : bool;
  normalized : option Z
}.

#[global] Instance stored_eq_dec : EqDecision stored.
Proof. solve_decision. Defined.

(** The part of the world the materializer changes: the files and folders
    of the destination tree and what was printed. *)
Record world := World {
  disk : gmap Path stored;
  folders : gset Path;
  printed : list string
}.

Inductive copy_outcome := CopyOk | CopyFailsBefore | CopyFailsMidway.
Inductive audio_outcome := AudioOk | AudioUndecodable | AudioExportFails.

(** How the collaborators behave: what copying and decoding each source
    file ends in, where the system lets a directory be made, and where it
    lets a file be removed. *)
Record environment := Environment {
  copy_of : Path → copy_outcome;
  audio_of : Path → audio_outcome;
  mkdir_of : Path → bool;
  unlink_of : Path → bool
}.

Definition print (line : string) (w : world) : world :=
  World (disk w) (folders w) (printed w ++ [line]).

Definition mkdir (d : Path) (w : world) : world :=
  World (disk w) ({[d]} ∪ folders w) (printed w).

Definition write_file (p : Path) (f : stored) (w : world) : world :=
  World (<[p := f]> (disk w)) (folders w) (printed w).

Definition unlink (p : Path) (w : world) : world :=
  World (delete p (disk w)) (folders w) (printed w).

Definition path_exists (p : Path) (w : world) : bool :=
  bool_decide (is_Some (disk w !! p)).

(** [Path.mkdir(parents=True, exist_ok=True)] (lines 1025 and 1093, outside
    every [try]): an existing directory is fine; a file in the way
    ([FileExistsError]) and a refusal of the system ([OSError]) raise. *)
Definition path_mkdir (env : environment) (d : Path) (w : world) : result world :=
  if path_exists d w then Raise OtherException
  else if mkdir_of env d then Ok (mkdir d w)
  else Raise OtherException.

(** [shutil.copy2(src, dst)] for a destination that is not a directory: an
    existing file is overwritten. *)
Definition shutil_copy2 (env : environment) (src dst : Path) (w : world)
  : result unit * world :=
  match copy_of env src with
  | CopyOk => (Ok (), write_file dst (Stored src true None) w)
  | CopyFailsBefore => (Raise (FileNotFoundError src), w)
  | CopyFailsMidway => (Raise OtherException, write_file dst (Stored src false None) w)
  end.

(** Lines 924-937, the [try] block of [convert_audio]. *)
Definition convert_audio_try (env : environment) (wav_file_path : Path)
    (channels : Z) (w : world) : result unit * world :=
  match disk w !! wav_file_path with
  | None => (Raise (FileNotFoundError wav_file_path), w)
  | Some f =>
      match audio_of env (origin f) with
      | AudioOk =>
          (Ok (), write_file wav_file_path (Stored (origin f) (complete f) (Some channels)) w)
      | AudioUndecodable => (Raise CouldntDecodeError, w)
      | AudioExportFails => (Raise OtherException, w)
      end
  end.

(** [convert_audio]: both handlers print and return, so no exception leaves
    the function. *)
Definition convert_audio (env : environment) (wav_file_path : Path)
    (channels : Z) (w : world) : result unit * world :=
  match convert_audio_try env wav_file_path channels w with
  | (Ok u, w') => (Ok u, w')
  | (Raise CouldntDecodeError, w') =>
      (Ok (), print ("Could not decode audio file: " +:+ wav_file_path) w')
  | (Raise _, w') =>
      (Ok (), print ("Error processing file " +:+ wav_file_path) w')
  end.

(** Line 1097. *)
Definition dest_file_path (pack_dir : Path) (subfolder : string) (file_path : Path)
  : Path :=
  path_join (path_join pack_dir subfolder) (path_name file_path).

(** Lines 1097-1109: the body of [for file_path in files]. *)
Definition process_file (env : environment) (pack_dir : Path) (subfolder : string)
    (channels : Z) (w : world) (file_path : Path) : world :=
  let dest := dest_file_path pack_dir subfolder file_path in
  let '(r, w1) :=
    match shutil_copy2 env file_path dest w with
    | (Ok _, w1) => convert_audio env dest channels w1
    | (Raise e, w1) => (Raise e, w1)
    end in
  match r with
  | Ok _ => w1
  | Raise _ =>
      let w2 := print ("Failed to process " +:+ file_path) w1 in
      (* lines 1104-1109: the inner [try], whose handler only prints *)
      if path_exists dest w2 then
        if unlink_of env dest
        then print ("Deleted incomplete file: " +:+ dest) (unlink dest w2)
        else print ("Failed to delete " +:+ dest) w2
      else w2
  end.

(** The [channels] entries of [SUBFOLDER_CONFIG] (lines 717-831). *)
Definition SUBFOLDER_CONFIG : dict (option Z) :=
  [("Kick", Some 1); ("Snare", Some 1); ("HiHat", Some 1); ("Synth", Some 2);
   ("Bass", Some 1); ("Percussion", Some 1); ("Tom", Some 1); ("Cymbal", Some 1);
   ("Vocal", Some 2); ("Chord", Some 2); ("Third", Some 2); ("Fourth", Some 2);
   ("Fifth", Some 2); ("XDrum", Some 1); ("Misc", Some 1); ("Random", Some 1)].

(** Lines 1089-1109: the body of [for subfolder, files in selected_files.items()]. *)
Definition materialize_subfolder (env : environment) (pack_dir : Path) (w : world)
    (entry : string * list Path) : result world :=
  let '(subfolder, files) := entry in
  if decide (files = []) then Ok w
  else
    w1 ← path_mkdir env (path_join pack_dir subfolder) w;
    config ← dict_getitem SUBFOLDER_CONFIG subfolder;
    let channels := default 2 config in
    Ok (foldl (process_file env pack_dir subfolder channels) w1 files).

Definition materialize (env : environment) (pack_dir : Path)
    (plan : dict (list Path)) (w : world) : result world :=
  for_each (materialize_subfolder env pack_dir) plan w.

(** [create_sample_pack] (lines 1015-1111). *)
Definition create_sample_pack (env : environment) (pack_name : string)
    (sample_map : dict (list Path)) (output_dir : string) (g : rng_state)
    (w : world) : outcome world :=
  let pack_dir := path_join output_dir pack_name in
  match path_mkdir env pack_dir w with
  | Raise e => Raised e
  | Ok w0 =>
      match build_plan sample_map g with
      | Done st =>
          let w1 := print ("Creating sample pack " +:+ pack_name) w0 in
          match materialize env pack_dir (selected_files st) w1 with
          | Ok w2 => Done (print ("Sample pack created at " +:+ pack_dir) w2)
          | Raise e => Raised e
          end
      | Raised e => Raised e
      | OutOfFuel => OutOfFuel
      end
  end.

Definition empty_world : world := World ∅ ∅ [].

(** ** Quantities the properties are stated with *)

(** The loop variable starts at 1 and grows by one per round. *)
Definition rounds_executed (st : alloc_state) : Z := round_index st - 1.

(** The states met at the head of the [while] loop, with the number of
    rounds completed so far. *)
Inductive loop_head (budget : Z) (all_kinds : list string) (st0 : alloc_state)
  : nat → alloc_state → Prop :=
| head_first : loop_head budget all_kinds st0 0 st0
| head_next r st st' :
    loop_head budget all_kinds st0 r st →
    loop_condition st = true →
    len all_kinds ≠ 0 →
    round_body budget all_kinds st = Ok st' →
    loop_head budget all_kinds st0 (S r) st'.

(** How many candidates the pools the allocator draws from hold. *)
Definition total_supply (sample_map : dict (list Path)) (all_kinds : list string) : Z :=
  plan_total (admitted_pools sample_map all_kinds).

(** The categories that still have candidates. *)
Definition nonempty_kinds (remaining : dict (list Path)) (all_kinds : list string)
  : list string :=
  filter (λ k, default [] (dict_get remaining k) ≠ []) all_kinds.

(** The quota as the specification words it: the budget still remaining,
    over the categories with a non-empty remaining pool, over the round. *)
Definition spec_round_quota (st : alloc_state) (all_kinds : list string) : Z :=
  (files_left st / len (nonempty_kinds (remaining_samples st) all_kinds))
  / round_index st.

(** The round bound as the specification words it. *)
Definition spec_round_bound (budget : Z) (all_kinds : list string) : Z :=
  Z.log2_up budget + len all_kinds.

(** ** Concrete inputs *)

Definition mk_files (prefix : string) (n : nat) : list Path :=
  (λ k, prefix +:+ pretty k +:+ ".wav") <$> seq 0 n.

Definition seed : rng_state := [3; 1; 4; 1; 5; 9; 2; 6; 5; 3; 5; 8]%nat.

(** Nine categories with one candidate each and one with 246: the supply is
    exactly the 255 files of the budget. *)
Definition long_tail_map : dict (list Path) :=
  [("Kick", mk_files "/lib/kick/" 1); ("Snare", mk_files "/lib/snare/" 1);
   ("HiHat", mk_files "/lib/hihat/" 1); ("Synth", mk_files "/lib/synth/" 1);
   ("Bass", mk_files "/lib/bass/" 1); ("Tom", mk_files "/lib/tom/" 1);
   ("Cymbal", mk_files "/lib/cymbal/" 1); ("Vocal", mk_files "/lib/vocal/" 1);
   ("Chord", mk_files "/lib/chord/" 1); ("Percussion", mk_files "/lib/perc/" 246)].

(** Two categories with 128 candidates each. *)
Definition two_deep_map : dict (list Path) :=
  [("Kick", mk_files "/lib/kick/" 128); ("Snare", mk_files "/lib/snare/" 128)].

(** The shipped configuration lists a kick directory together with one of
    its own subdirectories ([KICK_DIRS], lines 36-37), so the files of the
    subdirectory are collected twice, and it feeds the snare directories to
    both [Snare] and [XDrum]. *)
Definition arkicks_tree : dir_tree := Dir [] [("k.wav", Some 1000)].

Definition overlapping_fs : file_system :=
  λ p, if decide (p = "/lib/DMD3 Kicks") then Some (Dir [("arkicks", arkicks_tree)] [])
       else if decide (p = "/lib/DMD3 Kicks/arkicks") then Some arkicks_tree
       else if decide (p = "/lib/snares") then Some (Dir [] [("s.wav", Some 2000)])
       else None.

Definition shared_map : dict (list Path) :=
  [("Kick", collect_wav_files overlapping_fs
              ["/lib/DMD3 Kicks"; "/lib/DMD3 Kicks/arkicks"] None [] []);
   ("Snare", collect_wav_files overlapping_fs ["/lib/snares"] None [] []);
   ("XDrum", collect_wav_files overlapping_fs ["/lib/snares"] None [] [])].

Definition scarce_map : dict (list Path) :=
  [("Kick", mk_files "/lib/kick/" 2); ("Snare", mk_files "/lib/snare/" 3)].

Definition three_tens_map : dict (list Path) :=
  [("Kick", mk_files "/lib/kick/" 10); ("Snare", mk_files "/lib/snare/" 10);
   ("HiHat", mk_files "/lib/hihat/" 10)].

(** Twenty-two categories with candidates, four of them priority ones. *)
Definition crowded_map : dict (list Path) :=
  ((λ k : nat, ("Extra" +:+ pretty k, ["/lib/x.wav"])) <$> seq 0 9) ++
  [("Bass", ["/lib/b.wav"]); ("Empty", []); ("Kick", ["/lib/k.wav"])] ++
  ((λ k : nat, ("More" +:+ pretty k, ["/lib/m.wav"])) <$> seq 0 9) ++
  [("Synth", ["/lib/s.wav"]); ("Snare", ["/lib/sn.wav"])].

(** A library whose top directory does not match the include filter while a
    directory below it does. *)
Definition nested_tree : dir_tree :=
  Dir [("Kicks", Dir [("Deep", Dir [] [("d.wav", Some 300)])]
                     [("k1.wav", Some 1000); ("big.wav", Some 500000);
                      ("gone.wav", None); ("notes.txt", Some 10)])]
      [("top.wav", Some 20)].

Definition nested_fs : file_system :=
  λ p, if decide (p = "/lib") then Some nested_tree else None.

(** Copies always succeed; one source cannot be decoded. *)
Definition flaky_env : environment :=
  Environment (λ _, CopyOk)
              (λ p, if decide (p = "/lib/a/bad.wav") then AudioUndecodable else AudioOk)
              (λ _, true) (λ _, true).

Definition flaky_plan : dict (list Path) :=
  [("Kick", ["/lib/a/k1.wav"; "/lib/a/bad.wav"; "/lib/a/k2.wav"])].

(** Two different sources with the same file name, in one category. *)
Definition clash_plan : dict (list Path) :=
  [("Kick", ["/lib/a/k.wav"; "/lib/b/k.wav"])].

(** ** What one pass over a category does, as a relation

    [draw_step quota k st st'] lists the three ways the loop body can leave
    the state: the category is skipped, the budget is already spent, or [n]
    files move from the remaining pool of [k] to its slot in the plan. *)
Inductive draw_step (quota : Z) (k : string) (st : alloc_state)
  : alloc_state → Prop :=
| draw_skip :
    default [] (dict_get (remaining_samples st) k) = [] ∨ quota ≤ 0 →
    draw_step quota k st st
| draw_spent kind_val :
    dict_get (remaining_samples st) k = Some kind_val →
    kind_val ≠ [] → 0 < quota → files_left st = 0 →
    draw_step quota k st
      (AllocState 0 (files_inserted st) (round_index st) true
                  (remaining_samples st) (selected_files st) (rng st))
| draw_take kind_val chosen random_subset g n :
    dict_get (remaining_samples st) k = Some kind_val →
    dict_get (selected_files st) k = Some chosen →
    kind_val ≠ [] → 0 < quota →
    n = Z.min (Z.min quota (len kind_val)) (files_left st) → 0 < n →
    sample_positions (Z.to_nat n) kind_val (rng st) = (random_subset, g) →
    draw_step quota k st
      (AllocState (files_left st - n) (files_inserted st + n) (round_index st) true
                  (dict_set (remaining_samples st) k
                            (list_difference kind_val random_subset))
                  (dict_set (selected_files st) k (chosen ++ random_subset))
                  g).

(** A whole pass of the [for] loop. *)
Inductive draw_steps (quota : Z) : list string → alloc_state → alloc_state → Prop :=
| draws_nil st : draw_steps quota [] st st
| draws_cons k ks st st1 st2 :
    draw_step quota k st st1 → draw_steps quota ks st1 st2 →
    draw_steps quota (k :: ks) st st2.

(** The bookkeeping the loop maintains, for a budget and an initial supply. *)
Record alloc_inv (budget supply : Z) (st : alloc_state) : Prop := AllocInv {
  inv_left : 0 ≤ files_left st;
  inv_budget : files_inserted st + files_left st = budget;
  inv_total : plan_total (selected_files st) = files_inserted st;
  inv_supply :
    plan_total (selected_files st) + plan_total (remaining_samples st) ≤ supply;
  inv_keys : ∀ k, is_Some (dict_get (remaining_samples st) k) →
                  is_Some (dict_get (selected_files st) k)
}.

(** The state a round leaves, for following a run round by round. *)
Definition after_round (sample_map : dict (list Path)) (st : alloc_state)
  : alloc_state :=
  match round_body MAX_FILES_PER_PACK (selected_subfolders sample_map) st with
  | Ok st' => st'
  | Raise _ => st
  end.

(** The loop on [two_deep_map]: its start and the head of its second round. *)
Definition two_deep_start : alloc_state :=
  initial_state MAX_FILES_PER_PACK two_deep_map (selected_subfolders two_deep_map) seed.

Definition two_deep_second : alloc_state := after_round two_deep_map two_deep_start.

(** The loop on [scarce_map]: the first round drains both pools, the second
    finds nothing to draw. *)
Definition scarce_start : alloc_state :=
  initial_state MAX_FILES_PER_PACK scarce_map (selected_subfolders scarce_map) seed.

Definition scarce_second : alloc_state := after_round scarce_map scarce_start.

Definition scarce_third : alloc_state := after_round scarce_map scarce_second.

(** What a category has in the plan so far, and what is left in its pool. *)
Definition chosen_of (st : alloc_state) (k : string) : list Path :=
  default [] (dict_get (selected_files st) k).

Definition remaining_of (st : alloc_state) (k : string) : list Path :=
  default [] (dict_get (remaining_samples st) k).

(** The plan and the remaining pools never hold more copies of a file than
    the pools the loop started from; the slots of the plan stay in place. *)
Definition within_pools (sample_map : dict (list Path)) (all_kinds : list string)
    (st : alloc_state) : Prop :=
  dict_keys (selected_files st) = dict_keys sample_map ∧
  ∀ k, chosen_of st k ++ remaining_of st k
       ⊆+ default [] (dict_get (admitted_pools sample_map all_kinds) k).

(** What a pass with a given quota asks of the budget: the quota, or the
    whole remaining pool where that is smaller, summed over the categories. *)
Definition pass_demand (quota : Z) (st : alloc_state) (ks : list string) : Z :=
  foldr (λ k acc, Z.min quota (len (remaining_of st k)) + acc) 0 ks.

(** Structural induction on directory trees, through the list of
    subdirectories. *)
Fixpoint dir_tree_rect' (P : dir_tree → Prop)
    (step : ∀ subdirs files, Forall (λ d, P d.2) subdirs → P (Dir subdirs files))
    (t : dir_tree) : P t :=
  match t with
  | Dir subdirs files =>
      step subdirs files
        ((fix all (ds : list (string * dir_tree)) : Forall (λ d, P d.2) ds :=
            match ds with
            | [] => Forall_nil_2 _
            | d :: ds' => Forall_cons_2 _ d ds' (dir_tree_rect' P step d.2) (all ds')
            end) subdirs)
  end.

(** What the rounds [1 .. r] offer one category when the budget does not
    run out: [q // 1 + q // 2 + ... + q // r]. *)
Fixpoint offered (q : Z) (r : nat) : Z :=
  match r with
  | O => 0
  | S r' => offered q r' + q / Z.of_nat (S r')
  end.

(** What the categories [ks] hold after [r] rounds that the budget covers:
    each one its whole pool, or what the rounds offered if that is less. *)
Definition share_after (q : Z) (r : nat) (pools : string → list Path)
    (ks : list string) : Z :=
  foldr (λ k acc, Z.min (len (pools k)) (offered q r) + acc) 0 ks.

(** What the allocator can hand out at most: the quota of round [i] is
    [q // i] with [q = budget // len(all_kinds)], which is 0 from round
    [q + 1] on, so no category ever gets more than
    [q // 1 + ... + q // q] files, nor more than its pool. *)
Definition capacity (budget : Z) (sample_map : dict (list Path))
    (all_kinds : list string) : Z :=
  let q := budget / len all_kinds in
  share_after q (Z.to_nat q) (λ k, default [] (dict_get sample_map k)) all_kinds.

Definition plan_capacity (sample_map : dict (list Path)) : Z :=
  capacity MAX_FILES_PER_PACK sample_map (selected_subfolders sample_map).

(** What holds at the head of the loop after [r] rounds, for pools without
    repeated files: either the budget is spent, and the rounds so far
    offered at least the budget, or every category holds what the rounds
    offered it; and a lowered flag tells why the last round drew nothing. *)
Definition rounds_inv (budget : Z) (pools : string → list Path)
    (ks : list string) (r : nat) (st : alloc_state) : Prop :=
  let q := budget / len ks in
  ((files_left st = 0 ∧ budget ≤ share_after q r pools ks) ∨
   ((∀ k, k ∈ ks →
          NoDup (remaining_of st k) ∧
          len (remaining_of st k)
          = len (pools k) - Z.min (len (pools k)) (offered q r)) ∧
    files_left st = budget - share_after q r pools ks)) ∧
  (not_empty st = false →
   q / Z.of_nat r ≤ 0 ∨ ∀ k, k ∈ ks → remaining_of st k = []).

(** Three categories of which one can absorb what the others leave. *)
Definition absorbing_map : dict (list Path) :=
  [("Kick", mk_files "/lib/kick/" 200); ("Snare", mk_files "/lib/snare/" 54);
   ("HiHat", mk_files "/lib/hihat/" 1)].

(** A pool that lists one file 300 times. *)
Definition repeating_map : dict (list Path) :=
  [("Kick", replicate 300 "/lib/kick/k.wav"); ("Snare", ["/lib/snare/s.wav"])].

(** What the first round hands out when the budget covers it: the quota
    [MAX_FILES_PER_PACK // len(all_kinds)], or the whole pool where that is
    smaller, summed over the admitted categories. *)
Definition first_round_share (sample_map : dict (list Path)) : Z :=
  let all_kinds := selected_subfolders sample_map in
  foldr (λ k acc, Z.min (MAX_FILES_PER_PACK / len all_kinds)
                        (len (default [] (dict_get sample_map k))) + acc)
        0 all_kinds.

(** ** [build_sample_map] (lines 994-1013) *)



(** Text in the ASCII range. There [str.lower] folds the letters A-Z and
    nothing else, as [str_lower] does; the properties that speak of letter
    case are stated for such text. *)
Definition is_ascii (s : string) : bool :=
  forallb (λ c, bool_decide (nat_of_ascii c < 128)%nat) (String.list_ascii_of_string s).

Definition ascii_walk (walk : list walk_entry) : bool :=
  forallb (λ entry : walk_entry,
             is_ascii entry.1.1 && forallb (λ file, is_ascii file.1) entry.2)
          walk.

(** [needle in hay] and [s.endswith(suffix)], said without a search. *)
Definition substring (needle hay : string) : Prop :=
  ∃ before after, hay = before +:+ needle +:+ after.

Definition has_suffix (s suffix : string) : Prop :=
  ∃ stem, s = stem +:+ suffix.

(** What makes a file a candidate: it is listed in a directory at or below
    a source directory, its name ends in [.wav] whatever the case of the
    letters, [stat] finds it with a size within the limit, the pattern, if
    there is one, is found in its name, and the path of its directory holds
    one of the include substrings, if there are any, and none of the
    exclude substrings. *)
Definition eligible_file (fs : file_system) (source_dirs : list Path)
    (pattern : option (string → bool)) (include_dirs exclude_dirs : list string)
    (f : Path) : Prop :=
  ∃ source_dir top dirpath subdirs files filename size,
    source_dir ∈ source_dirs ∧
    fs source_dir = Some top ∧
    (dirpath, Dir subdirs files) ∈ directories_under source_dir top ∧
    (filename, Some size) ∈ files ∧
    f = path_join dirpath filename ∧
    has_suffix (str_lower filename) ".wav" ∧
    size ≤ MAX_FILE_SIZE_KB * 1024 ∧
    (∀ search, pattern = Some search → search filename = true) ∧
    (include_dirs = [] ∨
     ∃ incl, incl ∈ include_dirs ∧ substring (str_lower incl) (str_lower dirpath)) ∧
    (∀ excl, excl ∈ exclude_dirs →
             ¬ substring (str_lower excl) (str_lower dirpath)).

(** Lines 980-984: [stat] is called on the [.wav] names of the directories
    that pass both filters, and only [FileNotFoundError] is caught; any
    other error of [stat] leaves [collect_wav_files], and with it
    [build_sample_map]. [stat_raises] tells on which paths [stat] raises
    such an error; [collect_wav_files] above is the list that is built when
    it raises on none. *)
Definition stat_calls (include_dirs exclude_dirs : list string) (entry : walk_entry)
  : list Path :=
  let '(dirpath, _, filenames) := entry in
  if include_rejects include_dirs dirpath then []
  else if exclude_rejects exclude_dirs dirpath then []
  else path_join dirpath
         <$> filter (λ filename, str_endswith (str_lower filename) ".wav" = true)
                    filenames.*1.

Definition collect_wav_files_run (stat_raises : Path → bool) (fs : file_system)
    (source_dirs : list Path) (pattern : option (string → bool))
    (include_dirs exclude_dirs : list string) : result (list Path) :=
  if existsb stat_raises
       (flat_map (λ source_dir,
                    flat_map (stat_calls include_dirs exclude_dirs)
                             (walk_source fs source_dir))
                 source_dirs)
  then Raise OtherException
  else Ok (collect_wav_files fs source_dirs pattern include_dirs exclude_dirs).



(** The copy of one source fails before anything is written. *)
Definition broken_env : environment :=
  Environment (λ p, if decide (p = "/lib/b/k.wav") then CopyFailsBefore else CopyOk)
              (λ _, AudioOk) (λ _, true) (λ _, true).

(** The copy of one source breaks off midway, and the system does not let
    the destination be removed. *)
Definition stubborn_env : environment :=
  Environment (λ p, if decide (p = "/lib/b/k.wav") then CopyFailsMidway else CopyOk)
              (λ _, AudioOk) (λ _, true) (λ _, false).

(** A destination that holds the bytes of a given source file, from a copy
    that ran to its end. *)
Definition holds_copy_of (w : world) (p : Path) (file_path : Path) : Prop :=
  ∃ s, disk w !! p = Some s ∧ origin s = file_path ∧ complete s = true.

(** [mkdir] of lines 1025 and 1093 goes through: no file is in the way of
    the folder and the system lets it be made. *)
Definition can_mkdir (env : environment) (w : world) (d : Path) : Prop :=
  disk w !! d = None ∧ mkdir_of env d = true.

(** The categories of a plan that get a destination folder. *)
Definition filled_folders (plan : dict (list Path)) : list string :=
  dict_keys (filter (λ kv, kv.2 ≠ []) plan).

(** A mapping with a category that [SUBFOLDER_CONFIG] does not list. *)
Definition riser_map : dict (list Path) :=
  [("Kick", ["/lib/a/k.wav"]); ("Riser", ["/lib/r/up.wav"])].

(** ** [generate_unique_two_word_names] (lines 849-870) *)

(** The [unique] proxy of [Faker] hands out words and raises once it finds
    no new one: its state is the list of words it will still return. *)
Definition faker := list string.

Definition unique_word (fake : faker) : result (string * faker) :=
  match fake with
  | [] => Raise OtherException
  | word :: fake' => Ok (word, fake')
  end.

Definition ascii_upper (c : ascii) : ascii :=
  let n := nat_of_ascii c in
  if bool_decide (97 ≤ n)%nat && bool_decide (n ≤ 122)%nat
  then ascii_of_nat (n - 32) else c.

(** [str.capitalize] on the ASCII range. *)
Definition str_capitalize (s : string) : string :=
  match s with
  | EmptyString => EmptyString
  | String c s' => String (ascii_upper c) (str_lower s')
  end.

Definition two_word_name (word1 word2 : string) : string :=
  str_capitalize word1 +:+ " " +:+ str_capitalize word2.

(** Lines 865-869, the body of the loop. *)
Definition name_round (existing_names names : gset string) (fake : faker)
  : result (gset string * faker) :=
  '(word1, fake1) ← unique_word fake;
  '(word2, fake2) ← unique_word fake1;
  let name := two_word_name word1 word2 in
  Ok (if decide (name ∈ existing_names) then names else {[name]} ∪ names, fake2).

Fixpoint name_loop (fuel : nat) (n : Z) (existing_names names : gset string)
    (fake : faker) : outcome (gset string * faker) :=
  if bool_decide (Z.of_nat (size names) < n) then
    match fuel with
    | O => OutOfFuel
    | S fuel' =>
        match name_round existing_names names fake with
        | Ok (names', fake') => name_loop fuel' n existing_names names' fake'
        | Raise e => Raised e
        end
    end
  else Done (names, fake).

Definition generate_unique_two_word_names (n : Z)
    (existing_names : option (gset string)) (fake : faker)
  : outcome (gset string * faker) :=
  let existing_names := default ∅ existing_names in
  name_loop (S (length fake)) n existing_names ∅ fake.

(** The names the loop would form from the words still to come. *)
Fixpoint candidate_names (fake : faker) : list string :=
  match fake with
  | word1 :: word2 :: fake' => two_word_name word1 word2 :: candidate_names fake'
  | _ => []
  end.

Definition fresh_names (existing_names : gset string) (fake : faker) : gset string :=
  list_to_set (candidate_names fake) ∖ existing_names.

(** No space in a word. *)
Definition spaceless (s : string) : Prop := " "%char ∉ String.list_ascii_of_string s.

Definition small_vocabulary : faker :=
  ["amber"; "tide"; "rust"; "bloom"; "cold"; "wire"; "odd"].

(** ** [delete_hidden_files] (lines 1114-1133) *)

(** [os.remove]: raises when there is no such file, and when the system
    refuses; [removable] tells for which paths it does not refuse. *)
Definition os_remove (removable : Path → bool) (p : Path) (w : world)
  : result unit * world :=
  if path_exists p w then
    if removable p then (Ok (), unlink p w) else (Raise OtherException, w)
  else (Raise (FileNotFoundError p), w).

(** Lines 1126-1133: the body of [for file in files]. *)
Definition sweep_file (removable : Path → bool) (root : string) (w : world)
    (file : string) : world :=
  if String.prefix "." file then
    let file_path := path_join root file in
    match os_remove removable file_path w with
    | (Ok _, w') => print ("Deleted hidden file: " +:+ file_path) w'
    | (Raise _, w') => print ("Failed to delete " +:+ file_path) w'
    end
  else w.

Definition delete_hidden_files (removable : Path → bool) (fs : file_system)
    (directory : string) (w : world) : world :=
  foldl (λ w entry, let '(root, dirs, files) := entry in
                    foldl (sweep_file removable root) w files.*1)
        w (walk_source fs directory).

(** The paths of the files the walk lists under a name that starts with a
    dot. *)
Definition hidden_paths (walk : list walk_entry) : list Path :=
  flat_map (λ entry, let '(root, dirs, files) := entry in
                     path_join root
                       <$> filter (λ file, String.prefix "." file = true) files.*1)
           walk.

(** * The earlier script: [main] of [main.py] (lines 193-249)

    The body of [for lib_key, lib_val in LIBRARY_MAP.items()]: the kinds of
    a library are pruned to the folder limit, then files are drawn round by
    round. What is printed is left out. *)

Module main_py.

Definition FILL_KEYS : list string := ["Kick"; "Snare"; "HiHat"; "Synth"; "Bass"].

Definition KEEPER_KINDS : list string :=
  FILL_KEYS ++ ["Percussion"; "Tom"; "Cymbal"; "Metal"; "Blip"; "Vocal";
                "Hand Drum"; "Mallet Drum"; "Noise"; "Chord"; "Stab & Hit"].

(** An entry of [LIBRARY_MAP[library][kind]]: the source file, the
    destination folder, and whether the file is a drum sample. *)
Definition file_pair : Type := Path * Path * bool.

(** [l.remove(k)]: the first occurrence goes; [ValueError] when there is
    none. *)
Fixpoint list_remove (k : string) (l : list string) : result (list string) :=
  match l with
  | [] => Raise ValueError
  | x :: l' => if decide (x = k) then Ok l'
               else l'' ← list_remove k l'; Ok (x :: l'')
  end.

(** Lines 201-206 and 210-215:
    [for k in all_kinds: if k not in keep: all_kinds.remove(k); if len(all_kinds) <= 20: break].
    The iterator of a list is an index into the list, and the body removes
    from the list that is being walked. *)
Fixpoint prune_from (fuel : nat) (keep : list string) (index : nat)
    (all_kinds : list string) : outcome (list string) :=
  match all_kinds !! index with
  | None => Done all_kinds
  | Some k =>
      match fuel with
      | O => OutOfFuel
      | S fuel' =>
          if decide (k ∈ keep) then prune_from fuel' keep (S index) all_kinds
          else
            match list_remove k all_kinds with
            | Raise e => Raised e
            | Ok all_kinds' =>
                if decide (len all_kinds' ≤ 20) then Done all_kinds'
                else prune_from fuel' keep (S index) all_kinds'
            end
      end
  end.

Definition prune (keep all_kinds : list string) : outcome (list string) :=
  prune_from (length all_kinds) keep 0 all_kinds.

(** Lines 196-218. *)
Definition select_kinds (lib_val : dict (list file_pair)) : outcome (list string) :=
  let all_kinds := dict_keys lib_val in
  if decide (20 < len all_kinds) then
    match prune KEEPER_KINDS all_kinds with
    | Done all_kinds1 =>
        if decide (20 < len all_kinds1) then prune FILL_KEYS all_kinds1
        else Done all_kinds1
    | Raised e => Raised e
    | OutOfFuel => OutOfFuel
    end
  else Done all_kinds.

Record loop_state := LoopState {
  files_per_kind : Z;
  files_inserted : Z;
  files_left : Z;
  i : Z;
  not_empty : bool;
  lib_val : dict (list file_pair);
  rng : rng_state;
  disk_state : world
}.

Section allocation.

(** Lines 241-247 without the counter: the destination folder is made, the
    file is copied and converted. [CouldntDecodeError] is caught there; any
    other exception leaves [main]. *)
Variable insert_file : world → file_pair → result world.

(** Lines 228-247: the body of [for kind_key, kind_val in lib_val.items()].
    Only the value of the key at hand is replaced, after it was read. *)
Definition draw_kind (all_kinds : list string) (st : loop_state)
    (item : string * list file_pair) : result loop_state :=
  let '(kind_key, kind_val) := item in
  if decide (kind_key ∈ all_kinds) then
    let sample_num := Z.min (files_per_kind st) (len kind_val) in
    if decide (0 < sample_num) then
      let files_left' := files_left st - sample_num in
      if decide (0 < files_left') then
        '(random_subset, g) ← random_sample kind_val sample_num (rng st);
        w ← for_each insert_file random_subset (disk_state st);
        Ok (LoopState (files_per_kind st) (files_inserted st + len random_subset)
              files_left' (i st) true
              (dict_set (lib_val st) kind_key
                        (list_difference kind_val random_subset))
              g w)
      else
        Ok (LoopState (files_per_kind st) (files_inserted st) files_left' (i st)
              true (lib_val st) (rng st) (disk_state st))
    else Ok st
  else Ok st.

(** Lines 226-248: one round. *)
Definition round_body (all_kinds : list string) (st : loop_state)
  : result loop_state :=
  files_per_kind' ← floordiv (files_per_kind st) (i st);
  let st1 := LoopState files_per_kind' (files_inserted st) (files_left st) (i st)
               false (lib_val st) (rng st) (disk_state st) in
  st2 ← for_each (draw_kind all_kinds) (lib_val st1) st1;
  Ok (LoopState (files_per_kind st2) (files_inserted st2) (files_left st2)
        (i st2 + 1) (not_empty st2) (lib_val st2) (rng st2) (disk_state st2)).

Definition loop_condition (st : loop_state) : bool :=
  bool_decide (0 < files_left st) && not_empty st.

(** Lines 225-248: [while files_left > 0 and not_empty]. *)
Fixpoint while_loop (fuel : nat) (all_kinds : list string) (st : loop_state)
  : outcome loop_state :=
  if loop_condition st then
    match fuel with
    | O => OutOfFuel
    | S fuel' =>
        match round_body all_kinds st with
        | Raise e => Raised e
        | Ok st' => while_loop fuel' all_kinds st'
        end
    end
  else Done st.

(** Lines 220-248. *)
Definition allocate (all_kinds : list string) (lib_val : dict (list file_pair))
    (g : rng_state) (w : world) : outcome loop_state :=
  match floordiv 255 (len all_kinds) with
  | Raise e => Raised e
  | Ok files_per_kind =>
      while_loop 255 all_kinds (LoopState files_per_kind 0 255 1 true lib_val g w)
  end.

(** Lines 196-248, for one library. *)
Definition pack_library (lib_val : dict (list file_pair)) (g : rng_state)
    (w : world) : outcome loop_state :=
  match select_kinds lib_val with
  | Done all_kinds => allocate all_kinds lib_val g w
  | Raised e => Raised e
  | OutOfFuel => OutOfFuel
  end.

End allocation.

End main_py.

(** The quota of round [r] of [main.py] is at most [255 / r!]. *)
Definition factorial (r : Z) : Z := Z.of_nat (fact (Z.to_nat r)).


(** What a pass of [main.py] keeps: the quota and the round do not change,
    no more than 254 files are inserted, the counters add up to the budget
    as long as some of it is left, and the flag is raised only by a positive
    quota. *)
Definition pass_inv (q round : Z) (st : main_py.loop_state) : Prop :=
  main_py.files_per_kind st = q ∧ main_py.i st = round ∧
  0 ≤ main_py.files_inserted st ≤ 254 ∧
  (0 < main_py.files_left st →
   main_py.files_inserted st + main_py.files_left st = 255) ∧
  (main_py.not_empty st = true → 1 ≤ q).

(** What holds at the head of the loop of [main.py]. *)
Definition head_inv (st : main_py.loop_state) : Prop :=
  1 ≤ main_py.i st ∧ 0 ≤ main_py.files_per_kind st ∧
  main_py.files_per_kind st * factorial (main_py.i st - 1) ≤ 255 ∧
  0 ≤ main_py.files_inserted st ≤ 254 ∧
  (0 < main_py.files_left st →
   main_py.files_inserted st + main_py.files_left st = 255) ∧
  (main_py.not_empty st = true → 2 ≤ main_py.i st →
   1 ≤ main_py.files_per_kind st).

(** An exception that copying or converting some file raises. *)
Definition main_py_io_error (insert_file : world → main_py.file_pair → result world)
    (e : exn) : Prop :=
  ∃ w f, insert_file w f = Raise e.

(** * Properties *)

(** ** Dictionaries *)

Section dict_facts.
Context {V : Type}.
Implicit Types (d : dict V) (k : string) (v : V).

Lemma dict_get_set_eq d k v : dict_get (dict_set d k v) k = Some v.
Proof.
  induction d as [|[k' v'] d IH]; simpl.
  - by rewrite decide_True.
  - destruct (decide (k' = k)) as [->|Hne]; simpl.
    + by rewrite decide_True.
    + by rewrite decide_False.
Qed.

Lemma dict_get_set_ne d k k' v :
  k ≠ k' → dict_get (dict_set d k v) k' = dict_get d k'.
Proof.
  intros Hne. induction d as [|[k0 v0] d IH]; simpl.
  - by rewrite decide_False.
  - destruct (decide (k0 = k)) as [->|Hk]; simpl.
    + by rewrite !decide_False.
    + destruct (decide (k0 = k')); [done | apply IH].
Qed.

Lemma dict_get_is_Some d k : is_Some (dict_get d k) ↔ k ∈ dict_keys d.
Proof.
  unfold dict_keys. induction d as [|[k' v'] d IH]; csimpl.
  - split; [intros [? [=]] | intros ?%elem_of_nil; done].
  - rewrite elem_of_cons. destruct (decide (k' = k)) as [->|Hne].
    + split; eauto.
    + rewrite IH. split; [by right | by intros [?|?]].
Qed.

Lemma dict_keys_set d k v :
  is_Some (dict_get d k) → dict_keys (dict_set d k v) = dict_keys d.
Proof.
  unfold dict_keys. induction d as [|[k' v'] d IH]; csimpl.
  - intros [? [=]].
  - destruct (decide (k' = k)) as [->|Hne]; csimpl; [done|].
    intros H. f_equal. by apply IH.
Qed.

Lemma dict_get_fmap {W} (f : V → W) d k :
  dict_get (prod_map id f <$> d) k = f <$> dict_get d k.
Proof.
  induction d as [|[k' v'] d IH]; simpl; [done|].
  destruct (decide (k' = k)); [done | apply IH].
Qed.
End dict_facts.

Lemma dict_get_admitted (sample_map : dict (list Path)) all_kinds k :
  dict_get (admitted_pools sample_map all_kinds) k
  = if decide (k ∈ all_kinds) then dict_get sample_map k else None.
Proof.
  unfold admitted_pools. induction sample_map as [|[k' v'] d IH].
  - by case_decide.
  - rewrite filter_cons. cbn [fst dict_get].
    destruct (decide (k' ∈ all_kinds)) as [HP|HP]; cbn [dict_get]; rewrite ?IH;
      destruct (decide (k' = k)) as [->|Hne]; try done;
      repeat case_decide; done.
Qed.

Lemma plan_total_len (plan : dict (list Path)) :
  plan_total plan = len (plan_files plan).
Proof.
  unfold plan_total, plan_files, dict_values, len.
  induction plan as [|[k v] plan IH]; csimpl; [done|].
  rewrite IH, length_app. unfold len. lia.
Qed.

Lemma plan_total_nonneg (plan : dict (list Path)) : 0 ≤ plan_total plan.
Proof. rewrite plan_total_len. unfold len. lia. Qed.

Lemma plan_total_set (d : dict (list Path)) k old new :
  dict_get d k = Some old →
  plan_total (dict_set d k new) = plan_total d - len old + len new.
Proof.
  unfold plan_total, dict_values.
  induction d as [|[k' v'] d IH]; csimpl; [done|].
  destruct (decide (k' = k)) as [->|Hne]; csimpl.
  - intros [= ->]. lia.
  - intros H. rewrite IH by done. lia.
Qed.

Lemma plan_total_blank (d : dict (list Path)) :
  plan_total (prod_map id (λ _, []) <$> d) = 0.
Proof.
  unfold plan_total, dict_values.
  induction d as [|[k v] d IH]; csimpl; [done|]. by rewrite IH.
Qed.

(** ** [random.sample] *)

Lemma sample_positions_length {A} (k : nat) (pool : list A) g :
  (k ≤ length pool)%nat → length (sample_positions k pool g).1 = k.
Proof.
  revert pool g. induction k as [|k IH]; intros pool g Hk; simpl; [done|].
  destruct (randbelow (length pool) g) as [j g1] eqn:Hr.
  assert (j < length pool)%nat as Hj.
  { unfold randbelow in Hr. destruct g; simplify_eq; [lia|].
    apply Nat.mod_upper_bound. lia. }
  destruct (lookup_lt_is_Some_2 pool j Hj) as [x Hx]. rewrite Hx.
  specialize (IH (delete j pool) g1).
  destruct (sample_positions k (delete j pool) g1) as [xs g2]. simpl in *.
  rewrite IH; [done|]. rewrite length_delete by eauto. lia.
Qed.

Lemma sample_positions_submseteq {A} (k : nat) (pool : list A) g :
  (sample_positions k pool g).1 ⊆+ pool.
Proof.
  revert pool g. induction k as [|k IH]; intros pool g; simpl.
  - apply submseteq_nil_l.
  - destruct (randbelow (length pool) g) as [j g1].
    destruct (pool !! j) as [x|] eqn:Hx; simpl; [|apply submseteq_nil_l].
    specialize (IH (delete j pool) g1).
    destruct (sample_positions k (delete j pool) g1) as [xs g2]. simpl in *.
    rewrite (delete_Permutation pool j x Hx). by apply submseteq_skip.
Qed.

Lemma filter_submseteq {A} (P : A → Prop) `{!∀ x, Decision (P x)} (l k : list A) :
  l ⊆+ k → filter P l ⊆+ filter P k.
Proof.
  induction 1 as [|x l1 l2 ? IH|x y l1|x l1 l2 ? IH|l1 l2 l3 ? IH1 ? IH2].
  - done.
  - rewrite !filter_cons. case_decide; [by apply submseteq_skip | done].
  - rewrite !filter_cons. repeat case_decide; try done. apply submseteq_swap.
  - rewrite filter_cons. case_decide; [by apply submseteq_cons | done].
  - by etrans.
Qed.

Lemma filter_all {A} (P : A → Prop) `{!∀ x, Decision (P x)} (l : list A) :
  Forall P l → filter P l = l.
Proof.
  induction 1 as [|x l Hx ? IH]; [done|].
  by rewrite filter_cons_True, IH.
Qed.

Lemma submseteq_NoDup {A} (l k : list A) : l ⊆+ k → NoDup k → NoDup l.
Proof.
  intros [k' Hk]%submseteq_Permutation Hnd. rewrite Hk in Hnd.
  by apply NoDup_app in Hnd as (? & _ & _).
Qed.

Lemma list_difference_filter (l k : list Path) :
  list_difference l k = filter (λ x, x ∉ k) l.
Proof.
  induction l as [|y l IH]; simpl; [done|].
  rewrite filter_cons, IH.
  destruct (decide_rel elem_of y k), (decide (y ∉ k)); done.
Qed.

(** Removing the sample leaves at most what was not sampled, and exactly
    that when the pool lists no file twice. *)
Lemma sample_rest_submseteq (pool xs : list Path) :
  xs ⊆+ pool → xs ++ list_difference pool xs ⊆+ pool.
Proof.
  intros Hsub. rewrite list_difference_filter.
  rewrite <-(filter_app_complement (λ x, x ∈ xs) pool) at 2.
  apply submseteq_app; [|done].
  rewrite <-(filter_all (λ x, x ∈ xs) xs) at 1 by by apply Forall_forall.
  by apply filter_submseteq.
Qed.

Lemma sample_rest_length (pool xs : list Path) :
  xs ⊆+ pool → len xs + len (list_difference pool xs) ≤ len pool.
Proof.
  intros Hsub%sample_rest_submseteq%submseteq_length.
  rewrite length_app in Hsub. unfold len. lia.
Qed.

Lemma sample_rest_length_NoDup (pool xs : list Path) :
  NoDup pool → xs ⊆+ pool → len xs + len (list_difference pool xs) = len pool.
Proof.
  intros Hnd Hsub.
  assert (xs ++ list_difference pool xs ≡ₚ pool) as Hperm.
  { apply NoDup_Permutation; [|done|].
    - apply NoDup_app. split_and!.
      + by eapply submseteq_NoDup.
      + intros x Hx. rewrite list_elem_of_difference. tauto.
      + by apply NoDup_list_difference.
    - intros x. rewrite elem_of_app, list_elem_of_difference.
      split; [intros [?|[? ?]]; [by eapply elem_of_submseteq | done] |].
      intros ?. destruct (decide (x ∈ xs)); tauto. }
  apply Permutation_length in Hperm. rewrite length_app in Hperm.
  unfold len. lia.
Qed.

(** ** The loop body against its relational description *)

(** Runs the sequencing of [result] once its left operand is a value. *)
Ltac step_result := cbn [mbind result_bind mret result_ret].

Lemma len_pos {A} (l : list A) : l ≠ [] → 0 < len l.
Proof. destruct l; [done|]. unfold len. simpl. lia. Qed.

Lemma len_nonneg {A} (l : list A) : 0 ≤ len l.
Proof. unfold len. lia. Qed.

Lemma len_nil_inv {A} (l : list A) : len l ≤ 0 → l = [].
Proof. destruct l; [done|]. unfold len. simpl. lia. Qed.

Lemma draw_kind_step quota st k :
  0 ≤ files_left st →
  (∀ k', is_Some (dict_get (remaining_samples st) k') →
         is_Some (dict_get (selected_files st) k')) →
  ∃ st', draw_kind quota st k = Ok st' ∧ draw_step quota k st st'.
Proof.
  intros Hleft Hkeys. unfold draw_kind.
  destruct (dict_get (remaining_samples st) k) as [kind_val|] eqn:Hget; simpl.
  2: { eexists; split; [done|]. apply draw_skip. left. by rewrite Hget. }
  destruct (decide (kind_val = [])) as [->|Hne].
  { eexists; split; [done|]. apply draw_skip. left. by rewrite Hget. }
  pose proof (len_pos kind_val Hne) as Hlen.
  destruct (decide (0 < Z.min quota (len kind_val))) as [Hq|Hq].
  2: { eexists; split; [done|]. apply draw_skip. right. lia. }
  destruct (Hkeys k) as [chosen Hchosen]; [by rewrite Hget|].
  remember (Z.min (Z.min quota (len kind_val)) (files_left st)) as n eqn:Hn.
  destruct (sample_positions (Z.to_nat n) kind_val (rng st))
    as [random_subset g] eqn:Hsample.
  destruct (decide (files_left st - Z.min quota (len kind_val) < 0)) as [Hov|Hov].
  - destruct (decide (0 < Z.min quota (len kind_val)
                          + (files_left st - Z.min quota (len kind_val)))) as [Hn'|Hn'].
    + replace (Z.min quota (len kind_val)
               + (files_left st - Z.min quota (len kind_val))) with n by lia.
      unfold random_sample. rewrite decide_True by lia.
      rewrite Hsample. step_result. unfold dict_getitem. rewrite Hchosen. step_result.
      eexists; split; [done|].
      replace 0 with (files_left st - n) at 1 by lia.
      eapply draw_take; eauto; lia.
    + eexists; split; [done|].
      eapply draw_spent; eauto; lia.
  - replace (Z.min quota (len kind_val)) with n by lia.
    unfold random_sample. rewrite !decide_True by lia.
    rewrite Hsample. step_result. unfold dict_getitem. rewrite Hchosen. step_result.
    eexists; split; [done|].
    eapply draw_take; eauto; lia.
Qed.

Lemma draw_take_length (kind_val random_subset : list Path) n g g' :
  0 < n → n ≤ len kind_val →
  sample_positions (Z.to_nat n) kind_val g = (random_subset, g') →
  len random_subset = n ∧ random_subset ⊆+ kind_val.
Proof.
  intros Hn Hle Hs. split.
  - pose proof (sample_positions_length (Z.to_nat n) kind_val g) as Hl.
    rewrite Hs in Hl. simpl in Hl. unfold len in *. lia.
  - pose proof (sample_positions_submseteq (Z.to_nat n) kind_val g) as Hsub.
    by rewrite Hs in Hsub.
Qed.

(** One pass over a category keeps the books. *)
Lemma draw_step_inv budget supply quota k st st' :
  alloc_inv budget supply st → draw_step quota k st st' →
  alloc_inv budget supply st'.
Proof.
  intros [Hleft Hbudget Htotal Hsupply Hkeys] Hstep.
  destruct Hstep as [Hskip | kind_val Hget Hne Hq Hzero
                    | kind_val chosen random_subset g n Hget Hchosen Hne Hq Hn Hpos Hs].
  - by constructor.
  - constructor; simpl; try done. lia.
  - pose proof (len_pos kind_val Hne) as Hlen.
    destruct (draw_take_length kind_val random_subset n (rng st) g) as [Hl Hsub];
      [lia | lia | done |].
    pose proof (sample_rest_length kind_val random_subset Hsub) as Hrest.
    constructor; simpl.
    + lia.
    + lia.
    + rewrite (plan_total_set _ _ chosen) by done.
      unfold len in *. rewrite length_app. lia.
    + rewrite (plan_total_set _ _ chosen), (plan_total_set _ _ kind_val) by done.
      unfold len in *. rewrite length_app. lia.
    + intros k'. destruct (decide (k = k')) as [->|Hk].
      * by rewrite !dict_get_set_eq.
      * rewrite !dict_get_set_ne by done. apply Hkeys.
Qed.

(** Anything each pass preserves holds after the whole [for] loop. *)
Lemma draw_steps_preserve (J : alloc_state → Prop) quota ks st st' :
  (∀ k s s', J s → draw_step quota k s s' → J s') →
  J st → draw_steps quota ks st st' → J st'.
Proof. intros HJ Hst Hsteps. induction Hsteps; eauto. Qed.

Lemma draw_steps_inv budget supply quota ks st st' :
  alloc_inv budget supply st → draw_steps quota ks st st' →
  alloc_inv budget supply st'.
Proof.
  intros. eapply (draw_steps_preserve (alloc_inv budget supply)); eauto.
  intros. by eapply draw_step_inv.
Qed.

Lemma for_each_draw_steps budget supply quota ks st :
  alloc_inv budget supply st →
  ∃ st', for_each (draw_kind quota) ks st = Ok st' ∧ draw_steps quota ks st st'.
Proof.
  revert st. induction ks as [|k ks IH]; intros st Hinv; simpl.
  - eexists; split; [done | constructor].
  - destruct (draw_kind_step quota st k) as (st1 & -> & Hstep);
      [apply Hinv | apply Hinv |]. step_result.
    destruct (IH st1) as (st2 & -> & Hsteps); [by eapply draw_step_inv|].
    eexists; split; [done|]. by econstructor.
Qed.

Lemma draw_step_round_index quota k st st' :
  draw_step quota k st st' → round_index st' = round_index st.
Proof. by destruct 1. Qed.

Lemma draw_steps_round_index quota ks st st' :
  draw_steps quota ks st st' → round_index st' = round_index st.
Proof.
  induction 1 as [|k ks st st1 st2 Hstep _ IH]; [done|].
  rewrite IH. by eapply draw_step_round_index.
Qed.

(** The flag is raised only by a positive quota. *)
Lemma draw_steps_not_empty quota ks st st' :
  draw_steps quota ks st st' → not_empty st' = true →
  not_empty st = true ∨ 0 < quota.
Proof.
  induction 1 as [|k ks st st1 st2 Hstep _ IH]; [by left|].
  intros [Hne|Hq]%IH; [|by right].
  destruct Hstep; auto.
Qed.

(** A raised flag means that files were drawn or the budget is spent. *)
Lemma draw_steps_progress budget supply quota ks st st' :
  alloc_inv budget supply st → draw_steps quota ks st st' →
  files_inserted st ≤ files_inserted st' ∧
  (not_empty st' = true →
   not_empty st = true ∨ files_inserted st < files_inserted st' ∨ files_left st' = 0).
Proof.
  intros Hinv Hsteps. revert Hinv.
  induction Hsteps as [|k ks st st1 st2 Hstep Hrest IH]; intros Hinv.
  - split; [lia | by left].
  - pose proof (draw_step_inv _ _ _ _ _ _ Hinv Hstep) as Hinv1.
    destruct (IH Hinv1) as [Hmono Hflag].
    assert (files_inserted st ≤ files_inserted st1 ∧
            (not_empty st1 = true →
             not_empty st = true ∨ files_inserted st < files_inserted st1
             ∨ files_left st1 = 0)) as [Hmono1 Hflag1].
    { destruct Hstep; simpl; (split; [lia|]); intros;
        first [by left | right; left; lia | by right; right]. }
    split; [lia|]. intros Hne. destruct (Hflag Hne) as [H1|[H2|H3]].
    + destruct (Hflag1 H1) as [?|[?|Hz]]; [by left | right; left; lia |].
      destruct (decide (files_inserted st < files_inserted st2)); [by right; left|].
      right; right.
      pose proof (draw_steps_inv _ _ _ _ _ _ Hinv1 Hrest) as Hinv2.
      destruct Hinv1, Hinv2. lia.
    + right; left; lia.
    + by right; right.
Qed.

(** ** Rounds and the [while] loop *)

Lemma files_per_kind_value budget all_kinds i :
  len all_kinds ≠ 0 → 0 < i →
  files_per_kind budget all_kinds i = Ok (budget / len all_kinds / i).
Proof.
  intros Hn Hi. unfold files_per_kind, floordiv.
  rewrite decide_False by done. step_result.
  rewrite decide_True by done. by rewrite decide_False by lia.
Qed.

Lemma clear_not_empty_inv budget supply st :
  alloc_inv budget supply st → alloc_inv budget supply (clear_not_empty st).
Proof. by intros []. Qed.

Lemma next_round_inv budget supply st :
  alloc_inv budget supply st → alloc_inv budget supply (next_round st).
Proof. by intros []. Qed.

Lemma round_body_steps budget supply all_kinds st :
  len all_kinds ≠ 0 → 0 < round_index st → alloc_inv budget supply st →
  ∃ st1, round_body budget all_kinds st = Ok (next_round st1) ∧
         draw_steps (budget / len all_kinds / round_index st) all_kinds
                    (clear_not_empty st) st1.
Proof.
  intros Hn Hi Hinv. unfold round_body.
  rewrite files_per_kind_value by done. step_result.
  destruct (for_each_draw_steps budget supply
              (budget / len all_kinds / round_index st) all_kinds
              (clear_not_empty st)) as (st1 & -> & Hsteps);
    [by apply clear_not_empty_inv|].
  step_result. eauto.
Qed.

Lemma quota_positive q i : 0 ≤ q → 0 < i → 0 < q / i → i ≤ q.
Proof.
  intros Hq Hi Hpos. destruct (decide (i ≤ q)); [done|].
  rewrite Z.div_small in Hpos by lia. lia.
Qed.

Section while_rule.
Variables (budget supply : Z) (all_kinds : list string).
Variable J : alloc_state → Prop.
Hypothesis budget_nonneg : 0 ≤ budget.
Hypothesis J_draw : ∀ quota k s s', J s → draw_step quota k s s' → J s'.
Hypothesis J_clear : ∀ s, J s → J (clear_not_empty s).
Hypothesis J_next : ∀ s, J s → J (next_round s).

(** With as much fuel as rounds are left the loop ends, within
    [budget / len all_kinds + 1] rounds, in a state that keeps the books
    and whatever else every pass preserves. *)
Lemma while_loop_rule fuel st :
  alloc_inv budget supply st → J st →
  1 ≤ round_index st ≤ budget / len all_kinds + 2 →
  (not_empty st = true → round_index st ≤ budget / len all_kinds + 1) →
  (Z.to_nat (budget / len all_kinds + 2 - round_index st) ≤ fuel)%nat →
  ∃ st', while_loop fuel budget all_kinds st = Done st' ∧
         alloc_inv budget supply st' ∧ J st' ∧
         round_index st ≤ round_index st' ≤ budget / len all_kinds + 2 ∧
         (loop_condition st' = false ∨ all_kinds = []).
Proof.
  revert st. induction fuel as [|fuel IH]; intros st Hinv HJ Hi Hflag Hfuel.
  - simpl. destruct (loop_condition st) eqn:Hc.
    + apply andb_true_iff in Hc as [_ Hne]. specialize (Hflag Hne). lia.
    + exists st. split_and!; auto; lia.
  - simpl. destruct (loop_condition st) eqn:Hc.
    2: { exists st. split_and!; auto; lia. }
    apply andb_true_iff in Hc as [Hc Hne]. specialize (Hflag Hne).
    destruct (decide (len all_kinds = 0)) as [Hn|Hn].
    { exists st. split_and!; auto; try lia. right.
      destruct all_kinds; [done | unfold len in Hn; simpl in Hn; lia]. }
    destruct (round_body_steps budget supply all_kinds st) as (st1 & -> & Hsteps);
      [done | lia | done |].
    pose proof (draw_steps_round_index _ _ _ _ Hsteps) as Hidx.
    simpl in Hidx.
    destruct (IH (next_round st1)) as (st' & Hrun & Hinv' & HJ' & Hi' & Hexit).
    + apply next_round_inv. eapply draw_steps_inv; [|done].
      by apply clear_not_empty_inv.
    + apply J_next. eapply (draw_steps_preserve J); [| |done]; eauto.
    + simpl. lia.
    + simpl. intros Hne1.
      destruct (draw_steps_not_empty _ _ _ _ Hsteps Hne1) as [?|Hq]; [done|].
      apply quota_positive in Hq; [lia | | lia].
      apply Z.div_pos; [done|]. pose proof (len_nonneg all_kinds). lia.
    + simpl. lia.
    + exists st'. split_and!; auto; simpl in *; lia.
Qed.
End while_rule.

Lemma initial_state_inv budget sample_map all_kinds g :
  0 ≤ budget →
  alloc_inv budget (total_supply sample_map all_kinds)
            (initial_state budget sample_map all_kinds g).
Proof.
  intros Hb. constructor; simpl; try lia.
  - apply plan_total_blank.
  - rewrite plan_total_blank. unfold total_supply. lia.
  - intros k. rewrite dict_get_admitted, dict_get_fmap.
    case_decide; [|by intros [? [=]]].
    intros [v ->]. by eexists.
Qed.

(** The allocator, run from its initial state with its own fuel. *)
Lemma allocate_rule (J : alloc_state → Prop) budget sample_map all_kinds g :
  0 ≤ budget →
  (∀ quota k s s', J s → draw_step quota k s s' → J s') →
  (∀ s, J s → J (clear_not_empty s)) →
  (∀ s, J s → J (next_round s)) →
  J (initial_state budget sample_map all_kinds g) →
  ∃ st, allocate budget sample_map all_kinds g = Done st ∧
        alloc_inv budget (total_supply sample_map all_kinds) st ∧ J st ∧
        1 ≤ round_index st ≤ budget / len all_kinds + 2 ∧
        (loop_condition st = false ∨ all_kinds = []).
Proof.
  intros Hb Hdraw Hclear Hnext Hinit. unfold allocate.
  assert (0 ≤ budget / len all_kinds ≤ budget) as Hq.
  { destruct (decide (len all_kinds = 0)) as [->|Hn].
    - rewrite Z.div_0_r. lia.
    - pose proof (len_nonneg all_kinds). split.
      + apply Z.div_pos; lia.
      + apply Z.div_le_upper_bound; nia. }
  destruct (while_loop_rule budget (total_supply sample_map all_kinds) all_kinds J
              Hb Hdraw Hclear Hnext (loop_fuel budget)
              (initial_state budget sample_map all_kinds g))
    as (st & Hrun & Hinv & HJ & Hi & Hexit); simpl; try done; try lia.
  - by apply initial_state_inv.
  - unfold loop_fuel. lia.
  - exists st. split_and!; auto; simpl in *; lia.
Qed.

(** The states at the head of the loop keep the books, and the loop variable
    counts the rounds. *)
Lemma loop_head_inv budget sample_map all_kinds g r st :
  0 ≤ budget →
  loop_head budget all_kinds (initial_state budget sample_map all_kinds g) r st →
  alloc_inv budget (total_supply sample_map all_kinds) st ∧
  round_index st = Z.of_nat r + 1.
Proof.
  intros Hb. induction 1 as [|r st st' _ [Hinv Hidx] Hc Hn Hbody].
  - split; [by apply initial_state_inv | done].
  - destruct (round_body_steps budget (total_supply sample_map all_kinds)
                all_kinds st) as (st1 & Heq & Hsteps); [done | lia | done |].
    rewrite Heq in Hbody. injection Hbody as <-. split.
    + apply next_round_inv. eapply draw_steps_inv; [|done].
      by apply clear_not_empty_inv.
    + simpl. rewrite (draw_steps_round_index _ _ _ _ Hsteps). simpl. lia.
Qed.

(** ** The file budget *)

Lemma MAX_FILES_PER_PACK_nonneg : 0 ≤ MAX_FILES_PER_PACK.
Proof. done. Qed.

(** C1 — budget bound. For every mapping of categories to pools and every
    run of the random source, [create_sample_pack] builds its plan without
    raising, and the plan holds at most [MAX_FILES_PER_PACK] = 255 files:
    the number of chosen files is the budget minus what is left of it, and
    what is left never drops below zero because a draw that would cross the
    budget is cut down to the remainder. *)
Theorem plan_within_budget (sample_map : dict (list Path)) (g : rng_state) :
  ∃ st, build_plan sample_map g = Done st ∧
        plan_total (selected_files st) = MAX_FILES_PER_PACK - files_left st ∧
        0 ≤ files_left st ∧
        plan_total (selected_files st) ≤ MAX_FILES_PER_PACK.
Proof.
  destruct (allocate_rule (λ _, True) MAX_FILES_PER_PACK sample_map
              (selected_subfolders sample_map) g)
    as (st & Hrun & [Hleft Hbudget Htotal _ _] & _); auto using MAX_FILES_PER_PACK_nonneg.
  exists st. split; [done|]. lia.
Qed.

(** ** The quota of a round *)

(** C3, as the code has it — at the head of every round the loop variable
    [i] is the number of the round counted from 1, and the quota the round
    applies to each category is
    [floor(floor(MAX_FILES_PER_PACK / len(all_kinds)) / i)]: the whole budget
    over the number of admitted categories, over the round index. Neither
    the budget still remaining nor the number of pools that are still
    non-empty enters it. *)
Theorem quota_of_each_round (sample_map : dict (list Path)) (g : rng_state)
    (r : nat) (st : alloc_state) :
  let all_kinds := selected_subfolders sample_map in
  let quota := MAX_FILES_PER_PACK / len all_kinds / (Z.of_nat r + 1) in
  loop_head MAX_FILES_PER_PACK all_kinds
            (initial_state MAX_FILES_PER_PACK sample_map all_kinds g) r st →
  len all_kinds ≠ 0 →
  round_index st = Z.of_nat r + 1 ∧
  files_per_kind MAX_FILES_PER_PACK all_kinds (round_index st) = Ok quota ∧
  round_body MAX_FILES_PER_PACK all_kinds st
  = (st' ← for_each (draw_kind quota) all_kinds (clear_not_empty st);
     Ok (next_round st')).
Proof.
  intros all_kinds quota Hhead Hn.
  apply loop_head_inv in Hhead as [_ Hidx]; [|done].
  assert (files_per_kind MAX_FILES_PER_PACK all_kinds (round_index st) = Ok quota)
    as Hq.
  { rewrite files_per_kind_value by (done || lia). by rewrite Hidx. }
  split_and!; [done | done |].
  unfold round_body. by rewrite Hq.
Qed.

Lemma two_deep_second_head :
  loop_head MAX_FILES_PER_PACK (selected_subfolders two_deep_map)
            two_deep_start 1 two_deep_second.
Proof.
  eapply head_next; [apply head_first | done | done |].
  by vm_compute.
Defined.

Lemma quota_of_each_round_witness :
  round_index two_deep_second = 2 ∧
  files_per_kind MAX_FILES_PER_PACK (selected_subfolders two_deep_map)
                 (round_index two_deep_second) = Ok 63.
Proof.
  destruct (quota_of_each_round two_deep_map seed 1 two_deep_second
              two_deep_second_head) as (H1 & H2 & _); [done|].
  split; [exact H1 | exact H2].
Defined.

(** C3, as the specification words it, fails in the second round of two
    categories with 128 candidates each: one file of the budget is left and
    both pools are non-empty, so the worded quota is
    [floor(floor(1 / 2) / 2) = 0], while the loop applies
    [floor(floor(255 / 2) / 2) = 63]. *)
Lemma quota_ignores_remaining_budget :
  loop_head MAX_FILES_PER_PACK (selected_subfolders two_deep_map)
            two_deep_start 1 two_deep_second ∧
  loop_condition two_deep_second = true ∧
  files_left two_deep_second = 1 ∧
  nonempty_kinds (remaining_samples two_deep_second)
                 (selected_subfolders two_deep_map) = ["Kick"; "Snare"] ∧
  spec_round_quota two_deep_second (selected_subfolders two_deep_map) = 0 ∧
  files_per_kind MAX_FILES_PER_PACK (selected_subfolders two_deep_map)
                 (round_index two_deep_second) = Ok 63 ∧
  files_per_kind MAX_FILES_PER_PACK (selected_subfolders two_deep_map)
                 (round_index two_deep_second)
  ≠ Ok (spec_round_quota two_deep_second (selected_subfolders two_deep_map)).
Proof.
  split; [apply two_deep_second_head|].
  split_and!; try by vm_compute.
Qed.

(** ** Unrolling the loop *)

Lemma while_loop_step fuel budget all_kinds st st' :
  loop_condition st = true → len all_kinds ≠ 0 →
  round_body budget all_kinds st = Ok st' →
  while_loop (S fuel) budget all_kinds st = while_loop fuel budget all_kinds st'.
Proof.
  intros Hc Hn Hbody. simpl. rewrite Hc, decide_False by done. by rewrite Hbody.
Qed.

Lemma while_loop_stop fuel budget all_kinds st :
  loop_condition st = false → while_loop fuel budget all_kinds st = Done st.
Proof. intros Hc. destruct fuel; simpl; by rewrite Hc. Qed.

(** ** Termination and the number of rounds *)

(** A round that draws nothing leaves the loop condition false. *)
Lemma idle_round_ends_loop budget supply all_kinds st st' :
  alloc_inv budget supply st → 0 < round_index st → len all_kinds ≠ 0 →
  round_body budget all_kinds st = Ok st' →
  files_inserted st' = files_inserted st →
  loop_condition st' = false.
Proof.
  intros Hinv Hi Hn Hbody Hsame.
  destruct (round_body_steps budget supply all_kinds st) as (st1 & Heq & Hsteps);
    [done..|].
  rewrite Heq in Hbody. injection Hbody as <-.
  pose proof (clear_not_empty_inv _ _ _ Hinv) as Hinv0.
  destruct (draw_steps_progress _ _ _ _ _ _ Hinv0 Hsteps) as [_ Hflag].
  unfold loop_condition. simpl in *.
  destruct (not_empty st1); [|by rewrite andb_false_r].
  destruct (Hflag eq_refl) as [?|[?|Hz]]; [done | lia |].
  rewrite Hz. done.
Qed.

(** C6, as the code has it — for every mapping and every run of the random
    source the allocator loop terminates without raising; it executes at
    most [floor(MAX_FILES_PER_PACK / len(all_kinds)) + 1] rounds, because the
    quota of round [i] is zero from [i = floor(255 / len(all_kinds)) + 1] on;
    and a round of the loop that draws no file leaves the loop condition
    false, so it is the last one. *)
Theorem allocator_terminates (sample_map : dict (list Path)) (g : rng_state) :
  let all_kinds := selected_subfolders sample_map in
  (∃ st, build_plan sample_map g = Done st ∧
         0 ≤ rounds_executed st ≤ MAX_FILES_PER_PACK / len all_kinds + 1) ∧
  (∀ r st st',
     loop_head MAX_FILES_PER_PACK all_kinds
               (initial_state MAX_FILES_PER_PACK sample_map all_kinds g) r st →
     loop_condition st = true → len all_kinds ≠ 0 →
     round_body MAX_FILES_PER_PACK all_kinds st = Ok st' →
     files_inserted st' = files_inserted st →
     loop_condition st' = false).
Proof.
  intros all_kinds. split.
  - destruct (allocate_rule (λ _, True) MAX_FILES_PER_PACK sample_map all_kinds g)
      as (st & Hrun & _ & _ & Hi & _); auto using MAX_FILES_PER_PACK_nonneg.
    exists st. split; [done|]. unfold rounds_executed. lia.
  - intros r st st' Hhead _ Hn Hbody Hsame.
    apply loop_head_inv in Hhead as [Hinv Hidx]; [|done].
    eapply idle_round_ends_loop; eauto. lia.
Qed.

Lemma scarce_second_head :
  loop_head MAX_FILES_PER_PACK (selected_subfolders scarce_map)
            scarce_start 1 scarce_second.
Proof.
  eapply head_next; [apply head_first | done | done |].
  by vm_compute.
Defined.

Lemma allocator_terminates_witness :
  (∃ st, build_plan scarce_map seed = Done st ∧
         0 ≤ rounds_executed st
         ≤ MAX_FILES_PER_PACK / len (selected_subfolders scarce_map) + 1) ∧
  loop_condition scarce_third = false.
Proof.
  destruct (allocator_terminates scarce_map seed) as [Hdone Hidle].
  split; [exact Hdone|].
  apply (Hidle 1%nat scarce_second scarce_third scarce_second_head);
    by vm_compute.
Defined.

(** C6, as the specification words it, fails on nine categories with one
    candidate each and a tenth with 246: the quota of round [i] is
    [floor(25 / i)], which stays positive for 25 rounds while the tenth pool
    still has candidates and budget is left, and the loop ends in round 26,
    beyond [ceil(log2(255)) + 10 = 18]. *)
Lemma round_bound_exceeded :
  ∃ st, build_plan long_tail_map seed = Done st ∧
        rounds_executed st = 26 ∧
        spec_round_bound MAX_FILES_PER_PACK (selected_subfolders long_tail_map) = 18 ∧
        ¬ rounds_executed st
          ≤ spec_round_bound MAX_FILES_PER_PACK (selected_subfolders long_tail_map).
Proof.
  eexists. split; [by vm_compute|]. by vm_compute.
Qed.

(** More fuel does not change what the loop returns. *)
Lemma while_loop_more_fuel fuel extra budget all_kinds st st' :
  while_loop fuel budget all_kinds st = Done st' →
  while_loop (fuel + extra) budget all_kinds st = Done st'.
Proof.
  revert st. induction fuel as [|fuel IH]; intros st; simpl.
  - destruct (loop_condition st) eqn:Hc; [done|].
    intros [= <-]. by apply while_loop_stop.
  - destruct (loop_condition st); [|done].
    destruct (decide (len all_kinds = 0)); [done|].
    destruct (round_body budget all_kinds st); [apply IH | done].
Qed.

(** The state the loop returns is one of its loop heads, reached after the
    rounds the loop variable counts. *)
Lemma while_loop_ends_at_head fuel budget all_kinds st0 r st st' :
  loop_head budget all_kinds st0 r st →
  while_loop fuel budget all_kinds st = Done st' →
  ∃ r', loop_head budget all_kinds st0 r' st'.
Proof.
  revert r st. induction fuel as [|fuel IH]; intros r st Hhead; simpl.
  - destruct (loop_condition st); [done|]. intros [= <-]. eauto.
  - destruct (loop_condition st) eqn:Hc; [|intros [= <-]; eauto].
    destruct (decide (len all_kinds = 0)) as [|Hn]; [intros [= <-]; eauto|].
    destruct (round_body budget all_kinds st) as [st1|] eqn:Hbody; [|done].
    apply (IH (S r)). by eapply head_next.
Qed.

(** A draw that would cross the budget takes exactly what is left of it. *)
Lemma crossing_draw_is_clamped budget supply quota k st st' :
  alloc_inv budget supply st → draw_step quota k st st' → 0 < quota →
  files_left st < Z.min quota (len (remaining_of st k)) →
  files_left st' = 0 ∧ files_inserted st' = files_inserted st + files_left st.
Proof.
  intros [Hleft _ _ _ _] Hstep Hq Hcross. unfold remaining_of in Hcross.
  destruct Hstep as [[Hempty|?] | kind_val Hget Hne _ Hzero
                    | kind_val chosen random_subset g n Hget Hchosen Hne _ Hn Hpos Hs];
    simpl.
  - rewrite Hempty in Hcross. unfold len in Hcross. simpl in Hcross. lia.
  - lia.
  - lia.
  - rewrite Hget in Hcross. simpl in Hcross. lia.
Qed.

(** ** The category selector *)

Lemma available_subfolders_NoDup (sample_map : dict (list Path)) :
  NoDup (dict_keys sample_map) → NoDup (available_subfolders sample_map).
Proof.
  intros Hnd. unfold available_subfolders, dict_keys in *.
  eapply sublist_NoDup; [exact Hnd|].
  apply fmap_sublist, sublist_filter.
Qed.

Lemma available_subfolders_spec (sample_map : dict (list Path)) k :
  k ∈ available_subfolders sample_map
  ↔ ∃ pool, (k, pool) ∈ sample_map ∧ pool ≠ [].
Proof.
  unfold available_subfolders, dict_keys. rewrite list_elem_of_fmap. split.
  - intros ([k' pool] & -> & [Hlen Hin]%list_elem_of_filter). simpl in *.
    exists pool. split; [done|]. intros ->. unfold len in Hlen. simpl in Hlen. lia.
  - intros (pool & Hin & Hne). exists (k, pool). split; [done|].
    apply list_elem_of_filter. split; [|done]. simpl. by apply len_pos.
Qed.

Lemma prioritized_subfolders_short (sample_map : dict (list Path)) :
  (length (prioritized_subfolders sample_map) ≤ 5)%nat.
Proof. unfold prioritized_subfolders. apply (length_filter _ FILL_KEYS). Qed.

(** The categories left over are all the available ones but the prioritized
    ones, each of which was counted once. *)
Lemma remaining_subfolders_length (sample_map : dict (list Path)) :
  NoDup (dict_keys sample_map) →
  (length (available_subfolders sample_map)
   ≤ length (prioritized_subfolders sample_map)
     + length (remaining_subfolders sample_map))%nat.
Proof.
  intros Hnd%available_subfolders_NoDup.
  pose proof (filter_app_complement
                (λ k, k ∈ prioritized_subfolders sample_map)
                (available_subfolders sample_map)) as Hsplit.
  apply Permutation_length in Hsplit. rewrite length_app in Hsplit.
  assert (length (filter (λ k, k ∈ prioritized_subfolders sample_map)
                         (available_subfolders sample_map))
          ≤ length (prioritized_subfolders sample_map))%nat as Hle.
  { apply submseteq_length, NoDup_submseteq; [by apply NoDup_filter|].
    by intros k [? _]%list_elem_of_filter. }
  unfold remaining_subfolders. lia.
Qed.

(** C5 — folder bound. For a mapping with [P] non-empty pools the selector
    admits exactly [min(P, MAX_FOLDERS_PER_PACK)] categories. When [P]
    exceeds the cap, the admitted list is the priority categories
    (Kick, Snare, HiHat, Synth, Bass) that have a non-empty pool, all of
    them and ahead of every other category, followed by the other available
    categories in pool-build order up to the cap. *)
Theorem selector_admits (sample_map : dict (list Path)) :
  NoDup (dict_keys sample_map) →
  let available := available_subfolders sample_map in
  let prioritized := prioritized_subfolders sample_map in
  let others := remaining_subfolders sample_map in
  (∀ k, k ∈ available ↔ ∃ pool, (k, pool) ∈ sample_map ∧ pool ≠ []) ∧
  length (selected_subfolders sample_map)
  = Nat.min (length available) MAX_FOLDERS_PER_PACK ∧
  ((MAX_FOLDERS_PER_PACK < length available)%nat →
   selected_subfolders sample_map
   = prioritized ++ take (MAX_FOLDERS_PER_PACK - length prioritized) others ∧
   (∀ k, k ∈ prioritized ↔ k ∈ FILL_KEYS ∧ k ∈ available) ∧
   (∀ k, k ∈ others ↔ k ∈ available ∧ k ∉ FILL_KEYS)).
Proof.
  intros Hnd available prioritized others.
  subst available prioritized others.
  pose proof (prioritized_subfolders_short sample_map) as Hshort.
  pose proof (remaining_subfolders_length sample_map Hnd) as Hrest.
  assert (∀ k, k ∈ prioritized_subfolders sample_map
               ↔ k ∈ FILL_KEYS ∧ k ∈ available_subfolders sample_map) as Hprio.
  { intros k. unfold prioritized_subfolders.
    rewrite list_elem_of_filter. tauto. }
  split; [apply available_subfolders_spec|].
  unfold selected_subfolders, MAX_FOLDERS_PER_PACK in *.
  destruct (decide (20 < length (available_subfolders sample_map))%nat)
    as [Hmany|Hfew].
  - rewrite (take_ge (prioritized_subfolders sample_map)) by lia.
    rewrite decide_True by lia. split.
    + rewrite length_app, length_take. lia.
    + intros _. split_and!; [done | done |].
      intros k. unfold remaining_subfolders at 1.
      rewrite list_elem_of_filter, Hprio. tauto.
  - split; [lia | intros; lia].
Qed.

Lemma selector_admits_witness :
  length (selected_subfolders crowded_map) = 20%nat ∧
  selected_subfolders crowded_map
  = ["Kick"; "Snare"; "Synth"; "Bass"]
    ++ take 16 (remaining_subfolders crowded_map).
Proof.
  assert (NoDup (dict_keys crowded_map)) as Hnd.
  { apply (bool_decide_unpack _). by vm_compute. }
  destruct (selector_admits crowded_map Hnd) as (_ & Hlen & Hsplit).
  split; [exact Hlen|].
  destruct Hsplit as (Heq & _); [vm_compute; lia|]. exact Heq.
Defined.

(** ** No file twice in a plan *)

Lemma chosen_of_initial budget sample_map all_kinds g k :
  chosen_of (initial_state budget sample_map all_kinds g) k = [].
Proof.
  unfold chosen_of. simpl. rewrite dict_get_fmap.
  by destruct (dict_get sample_map k).
Qed.

(** Every pass moves files from the remaining pool of a category to its slot
    in the plan, so slot and remaining pool together stay within the pool
    the category started with. *)
Lemma draw_step_within sample_map all_kinds quota k st st' :
  within_pools sample_map all_kinds st → draw_step quota k st st' →
  within_pools sample_map all_kinds st'.
Proof.
  intros [Hkeys Hsub] Hstep.
  destruct Hstep as [Hskip | kind_val Hget Hne Hq Hzero
                    | kind_val chosen random_subset g n Hget Hchosen Hne Hq Hn Hpos Hs];
    [done | done |].
  pose proof (len_pos kind_val Hne) as Hlen.
  destruct (draw_take_length kind_val random_subset n (rng st) g) as [Hl Hin];
    [lia | lia | done |].
  split; simpl.
  - rewrite dict_keys_set; [done | by rewrite Hchosen].
  - intros k'. unfold chosen_of, remaining_of. simpl.
    destruct (decide (k = k')) as [<-|Hk].
    + rewrite !dict_get_set_eq. simpl.
      specialize (Hsub k). unfold chosen_of, remaining_of in Hsub.
      rewrite Hget, Hchosen in Hsub. simpl in Hsub.
      etrans; [|exact Hsub]. rewrite <-(assoc_L (++)).
      apply submseteq_skips_l. by apply sample_rest_submseteq.
    + rewrite !dict_get_set_ne by done. apply Hsub.
Qed.

Lemma initial_state_within budget sample_map all_kinds g :
  within_pools sample_map all_kinds (initial_state budget sample_map all_kinds g).
Proof.
  split; simpl.
  - unfold dict_keys. rewrite <-list_fmap_compose.
    apply list_fmap_ext. by intros _ [] _.
  - intros k. by rewrite chosen_of_initial.
Qed.

Lemma dict_get_absent {V} (d : dict V) k :
  k ∉ dict_keys d → dict_get d k = None.
Proof.
  intros Hk. destruct (dict_get d k) eqn:Hget; [|done].
  destruct Hk. apply dict_get_is_Some. by rewrite Hget.
Qed.

(** Slot by slot within the pools means the whole plan within all pools. *)
Lemma plan_files_within (plan sample_map : dict (list Path)) all_kinds :
  dict_keys plan = dict_keys sample_map →
  NoDup (dict_keys sample_map) →
  (∀ k, default [] (dict_get plan k)
        ⊆+ default [] (dict_get (admitted_pools sample_map all_kinds) k)) →
  plan_files plan ⊆+ plan_files (admitted_pools sample_map all_kinds).
Proof.
  revert plan.
  induction sample_map as [|[k pool] sample_map IH];
    intros [|[k1 chosen] plan] Hkeys Hnd Hsub; try done.
  unfold dict_keys in *. csimpl in *.
  injection Hkeys as -> Hkeys. apply NoDup_cons in Hnd as [Hk Hnd].
  assert (plan_files plan ⊆+ plan_files (admitted_pools sample_map all_kinds))
    as Htail.
  { apply IH; [done | done |]. intros k'.
    destruct (decide (k = k')) as [<-|Hne].
    - rewrite (dict_get_absent plan k); [apply submseteq_nil_l|].
      unfold dict_keys. by rewrite Hkeys.
    - specialize (Hsub k'). rewrite dict_get_admitted in *.
      cbn [dict_get] in Hsub. rewrite decide_False in Hsub by done.
      destruct (decide (k' ∈ all_kinds)); [|done].
      cbn [dict_get] in Hsub. by rewrite decide_False in Hsub by done. }
  specialize (Hsub k). rewrite dict_get_admitted in Hsub.
  cbn [dict_get] in Hsub. rewrite decide_True in Hsub by done.
  unfold plan_files, dict_values, admitted_pools in *. rewrite filter_cons.
  csimpl. destruct (decide (k ∈ all_kinds)) as [Hin|Hout]; csimpl.
  - cbn [dict_get] in Hsub. rewrite decide_True in Hsub by done.
    by apply submseteq_app.
  - simpl in Hsub. apply submseteq_nil_r in Hsub as ->. done.
Qed.

(** C4, as the code has it — when the pools of the admitted categories list
    no file twice, neither within a pool nor across pools, the plan lists no
    file twice; in general every file of the plan comes out of the admitted
    pools, at most as often as they list it. *)
Theorem plan_has_no_duplicates (sample_map : dict (list Path)) (g : rng_state) :
  NoDup (dict_keys sample_map) →
  ∃ st, build_plan sample_map g = Done st ∧
        plan_files (selected_files st)
        ⊆+ plan_files (admitted_pools sample_map (selected_subfolders sample_map)) ∧
        (NoDup (plan_files (admitted_pools sample_map
                              (selected_subfolders sample_map))) →
         NoDup (plan_files (selected_files st))).
Proof.
  intros Hnd.
  destruct (allocate_rule (within_pools sample_map (selected_subfolders sample_map))
              MAX_FILES_PER_PACK sample_map (selected_subfolders sample_map) g)
    as (st & Hrun & _ & [Hkeys Hsub] & _); auto using MAX_FILES_PER_PACK_nonneg.
  { intros. by eapply draw_step_within. }
  { apply initial_state_within. }
  assert (plan_files (selected_files st)
          ⊆+ plan_files (admitted_pools sample_map (selected_subfolders sample_map)))
    as Hwithin.
  { apply plan_files_within; [done | done |]. intros k.
    etrans; [|apply Hsub]. apply submseteq_inserts_r. done. }
  exists st. split_and!; [done | done |].
  by apply submseteq_NoDup.
Qed.

Lemma plan_has_no_duplicates_witness :
  ∃ st, build_plan scarce_map seed = Done st ∧
        NoDup (plan_files (selected_files st)).
Proof.
  destruct (plan_has_no_duplicates scarce_map seed) as (st & Hrun & _ & Hnd).
  - apply (bool_decide_unpack _). by vm_compute.
  - exists st. split; [exact Hrun|]. apply Hnd.
    apply (bool_decide_unpack _). by vm_compute.
Defined.

(** C4, as the specification words it, fails on the pools the shipped
    configuration produces: the kick pool lists a file twice and both copies
    are drawn, and the one snare file is drawn for [Snare] and for [XDrum]. *)
Lemma plan_repeats_files :
  shared_map
  = [("Kick", ["/lib/DMD3 Kicks/arkicks/k.wav"; "/lib/DMD3 Kicks/arkicks/k.wav"]);
     ("Snare", ["/lib/snares/s.wav"]);
     ("XDrum", ["/lib/snares/s.wav"])] ∧
  NoDup (dict_keys shared_map) ∧
  ∃ st, build_plan shared_map seed = Done st ∧
        selected_files st = shared_map ∧
        ¬ NoDup (plan_files (selected_files st)).
Proof.
  split; [by vm_compute|]. split.
  - apply (bool_decide_unpack _). by vm_compute.
  - eexists. split; [by vm_compute|]. split; [by vm_compute|].
    apply (bool_decide_eq_false_1 (NoDup _)). by vm_compute.
Qed.

(** ** Passes that the budget covers *)

Lemma draw_step_other quota k k' st st' :
  k ≠ k' → draw_step quota k st st' → remaining_of st' k' = remaining_of st k'.
Proof.
  intros Hne []; try done. unfold remaining_of. simpl.
  by rewrite dict_get_set_ne.
Qed.

Lemma draw_step_flag quota k st st' :
  draw_step quota k st st' → not_empty st = true → not_empty st' = true.
Proof. by intros []. Qed.

(** When the budget covers what the category can take, the category takes
    the quota, or its whole remaining pool if that is smaller. *)
Lemma draw_step_exact budget supply quota k st st' :
  alloc_inv budget supply st → 0 < quota →
  Z.min quota (len (remaining_of st k)) ≤ files_left st →
  draw_step quota k st st' →
  files_left st' = files_left st - Z.min quota (len (remaining_of st k)) ∧
  len (remaining_of st' k)
  ≤ len (remaining_of st k) - Z.min quota (len (remaining_of st k)) ∧
  (NoDup (remaining_of st k) →
   NoDup (remaining_of st' k) ∧
   len (remaining_of st' k)
   = len (remaining_of st k) - Z.min quota (len (remaining_of st k))) ∧
  (remaining_of st k ≠ [] → not_empty st' = true).
Proof.
  intros Hinv Hq Hcover Hstep.
  destruct Hstep as [Hskip | kind_val Hget Hne _ Hzero
                    | kind_val chosen random_subset g n Hget Hchosen Hne _ Hn Hpos Hs].
  - destruct Hskip as [Hempty|?]; [|lia].
    unfold remaining_of in *. rewrite Hempty. unfold len. simpl.
    split_and!; [lia | lia | | done]. intros _. split; [constructor | lia].
  - unfold remaining_of in Hcover. rewrite Hget in Hcover. simpl in Hcover.
    pose proof (len_pos kind_val Hne). lia.
  - unfold remaining_of in *. rewrite Hget in *. simpl in *.
    rewrite dict_get_set_eq. simpl.
    pose proof (len_pos kind_val Hne) as Hlen.
    destruct (draw_take_length kind_val random_subset n (rng st) g) as [Hl Hsub];
      [lia | lia | done |].
    pose proof (sample_rest_length kind_val random_subset Hsub).
    split_and!; [lia | lia | | done].
    intros Hnd. split; [by apply NoDup_list_difference|].
    pose proof (sample_rest_length_NoDup kind_val random_subset Hnd Hsub). lia.
Qed.

Lemma pass_demand_other quota ks st st' :
  (∀ k, k ∈ ks → remaining_of st' k = remaining_of st k) →
  pass_demand quota st' ks = pass_demand quota st ks.
Proof.
  induction ks as [|k ks IH]; intros Hsame; simpl; [done|].
  rewrite Hsame by apply list_elem_of_here.
  rewrite IH; [done|]. intros k' Hk'. apply Hsame. by apply list_elem_of_further.
Qed.

Lemma pass_demand_nonneg quota st ks : 0 ≤ quota → 0 ≤ pass_demand quota st ks.
Proof.
  intros Hq. induction ks as [|k ks IH]; simpl; [done|].
  pose proof (len_nonneg (remaining_of st k)). lia.
Qed.

(** A pass over distinct categories that the budget covers: every category
    gets its share and the others are left alone. *)
Lemma draw_steps_exact budget supply quota ks st st' :
  NoDup ks → alloc_inv budget supply st → 0 < quota →
  pass_demand quota st ks ≤ files_left st →
  draw_steps quota ks st st' →
  files_left st' = files_left st - pass_demand quota st ks ∧
  (∀ k, k ∈ ks →
        len (remaining_of st' k)
        ≤ len (remaining_of st k) - Z.min quota (len (remaining_of st k)) ∧
        (NoDup (remaining_of st k) →
         NoDup (remaining_of st' k) ∧
         len (remaining_of st' k)
         = len (remaining_of st k) - Z.min quota (len (remaining_of st k))) ∧
        (remaining_of st k ≠ [] → not_empty st' = true)) ∧
  (∀ k, k ∉ ks → remaining_of st' k = remaining_of st k) ∧
  (not_empty st = true → not_empty st' = true).
Proof.
  intros Hnd Hinv Hq Hcover Hsteps. revert Hnd Hinv Hcover.
  induction Hsteps as [|k ks st st1 st2 Hstep Hrest IH]; intros Hnd Hinv Hcover.
  - simpl. split_and!; [lia | by intros k ?%elem_of_nil | done | done].
  - apply NoDup_cons in Hnd as [Hk Hnd]. simpl in Hcover.
    assert (0 ≤ pass_demand quota st ks) as Hrest_nonneg
      by (apply pass_demand_nonneg; lia).
    assert (Z.min quota (len (remaining_of st k)) ≤ files_left st) as Hcover1
      by lia.
    destruct (draw_step_exact _ _ _ _ _ _ Hinv Hq Hcover1 Hstep)
      as (Hleft1 & Hlen1 & Hnd1 & Hflag1).
    assert (pass_demand quota st1 ks = pass_demand quota st ks) as Hdemand.
    { apply pass_demand_other. intros k' Hk'.
      eapply draw_step_other; [|done]. by intros ->. }
    destruct IH as (Hleft2 & Hin2 & Hout2 & Hflag2);
      [done | by eapply draw_step_inv | lia |].
    simpl. split_and!.
    + lia.
    + intros k' [->|Hk']%elem_of_cons.
      * rewrite (Hout2 k Hk). split_and!; [done | done |].
        intros Hne. apply Hflag2. by apply Hflag1.
      * assert (remaining_of st1 k' = remaining_of st k') as Heq.
        { eapply draw_step_other; [|done]. by intros ->. }
        rewrite <-Heq. apply Hin2, Hk'.
    + intros k' [Hne Hk']%not_elem_of_cons.
      rewrite (Hout2 k' Hk'). by eapply draw_step_other.
    + intros Hne. apply Hflag2. by eapply draw_step_flag.
Qed.

(** A pass over categories with nothing left changes nothing. *)
Lemma draw_steps_idle quota ks st st' :
  (∀ k, k ∈ ks → remaining_of st k = []) →
  draw_steps quota ks st st' → st' = st.
Proof.
  intros Hempty Hsteps. induction Hsteps as [|k ks st st1 st2 Hstep Hrest IH].
  - done.
  - assert (st1 = st) as ->.
    { assert (remaining_of st k = []) as Hk by apply Hempty, list_elem_of_here.
      unfold remaining_of in Hk.
      destruct Hstep as [|kind_val Hget Hne|kind_val ? ? ? ? Hget ? Hne]; [done|..];
        rewrite Hget in Hk; simpl in Hk; done. }
    apply IH. intros k' Hk'. apply Hempty. by apply list_elem_of_further.
Qed.

(** A pass with a positive quota over distinct categories that all have
    candidates left takes at least one file per category, until the budget
    is spent. *)
Lemma draw_steps_drain budget supply quota ks st st' :
  NoDup ks → alloc_inv budget supply st → 0 < quota →
  (∀ k, k ∈ ks → remaining_of st k ≠ []) →
  draw_steps quota ks st st' →
  files_left st' ≤ Z.max 0 (files_left st - len ks).
Proof.
  intros Hnd Hinv Hq Hfull Hsteps. revert Hnd Hinv Hfull.
  induction Hsteps as [|k ks st st1 st2 Hstep Hrest IH]; intros Hnd Hinv Hfull.
  - unfold len. simpl. destruct Hinv. lia.
  - apply NoDup_cons in Hnd as [Hk Hnd].
    pose proof (draw_step_inv _ _ _ _ _ _ Hinv Hstep) as Hinv1.
    assert (files_left st1 ≤ Z.max 0 (files_left st - 1)) as Hone.
    { assert (remaining_of st k ≠ []) as Hne by apply Hfull, list_elem_of_here.
      unfold remaining_of in Hne.
      destruct Hstep as [[Hempty|?]|kind_val Hget ?|kind_val ? ? ? ? Hget ? ? ? Hn Hpos];
        simpl; [done | lia | lia | lia]. }
    assert (files_left st2 ≤ Z.max 0 (files_left st1 - len ks)) as Hmore.
    { apply IH; [done | done |]. intros k' Hk'.
      rewrite (draw_step_other quota k k' st st1); [|by intros ->|done].
      apply Hfull. by apply list_elem_of_further. }
    unfold len in *. simpl length. lia.
Qed.

(** ** Reaching the whole budget *)

Lemma pass_demand_full quota st ks :
  (∀ k, k ∈ ks → quota ≤ len (remaining_of st k)) →
  pass_demand quota st ks = len ks * quota.
Proof.
  induction ks as [|k ks IH]; intros Hfull; [done|].
  simpl. rewrite IH by (intros k' Hk'; by apply Hfull, list_elem_of_further).
  rewrite Z.min_l by apply Hfull, list_elem_of_here.
  unfold len. simpl length. lia.
Qed.

Lemma ceiling_share budget n :
  0 ≤ budget → 0 < n →
  budget / n ≤ (budget + n - 1) / n ∧
  (budget `mod` n ≠ 0 → budget / n + 1 ≤ (budget + n - 1) / n).
Proof.
  intros Hb Hn. split.
  - apply Z.div_le_mono; lia.
  - intros Hr. pose proof (Z.mod_pos_bound budget n Hn).
    pose proof (Z.div_mod budget n ltac:(lia)) as Hdiv.
    rewrite <-(Z.div_unique (budget + n - 1) n (budget / n + 1) (budget `mod` n - 1));
      lia.
Qed.

(** When the admitted categories are distinct and each pool lists
    [ceil(budget / n)] distinct files or more, the first round hands every
    category [floor(budget / n)] files and the second one spends the rest. *)
Lemma allocate_full_budget budget sample_map all_kinds g :
  0 ≤ budget → NoDup all_kinds → all_kinds ≠ [] →
  (budget `mod` len all_kinds = 0 ∨ 2 ≤ budget / len all_kinds) →
  (∀ k, k ∈ all_kinds →
        NoDup (default [] (dict_get (admitted_pools sample_map all_kinds) k)) ∧
        (budget + len all_kinds - 1) / len all_kinds
        ≤ len (default [] (dict_get (admitted_pools sample_map all_kinds) k))) →
  ∃ st, allocate budget sample_map all_kinds g = Done st ∧
        plan_total (selected_files st) = budget ∧
        rounds_executed st ≤ 2.
Proof.
  intros Hb Hnd Hne Hshape Hpools.
  pose proof (len_pos all_kinds Hne) as Hn.
  pose proof (ceiling_share budget (len all_kinds) Hb Hn) as [Hceil0 Hceil1].
  pose proof (Z.mod_pos_bound budget (len all_kinds) Hn) as Hr.
  pose proof (Z.div_mod budget (len all_kinds) ltac:(lia)) as Hdiv.
  assert (0 ≤ budget / len all_kinds) as Hq0 by (apply Z.div_pos; lia).
  set (st0 := initial_state budget sample_map all_kinds g).
  pose proof (initial_state_inv budget sample_map all_kinds g Hb) as Hinv0.
  fold st0 in Hinv0. unfold allocate, loop_fuel. fold st0.
  destruct (decide (budget = 0)) as [Hzero|Hpos].
  { exists st0. rewrite while_loop_stop.
    - split_and!; [done | | done]. destruct Hinv0 as [_ _ -> _ _]. done.
    - unfold loop_condition. simpl. rewrite bool_decide_eq_false_2; [done | lia]. }
  assert (1 ≤ budget / len all_kinds) as Hq1.
  { destruct Hshape as [Hmod|?]; [|lia].
    destruct (decide (budget / len all_kinds = 0)); [nia | lia]. }
  replace (Z.to_nat budget + 2)%nat with (S (S (Z.to_nat budget))) by lia.
  (* the first round *)
  destruct (round_body_steps budget (total_supply sample_map all_kinds)
              all_kinds st0) as (st1 & Hbody1 & Hsteps1); [lia | done | done |].
  simpl round_index in Hsteps1. rewrite Z.div_1_r in Hsteps1.
  assert (∀ k, k ∈ all_kinds →
               budget / len all_kinds ≤ len (remaining_of (clear_not_empty st0) k))
    as Henough.
  { intros k Hk. destruct (Hpools k Hk) as [_ Hlen].
    unfold remaining_of. simpl. lia. }
  destruct (draw_steps_exact budget (total_supply sample_map all_kinds)
              (budget / len all_kinds) all_kinds (clear_not_empty st0) st1)
    as (Hleft1 & Hrem1 & _ & _); [done | by apply clear_not_empty_inv | lia | | done |].
  { rewrite pass_demand_full by done. simpl. nia. }
  rewrite pass_demand_full in Hleft1 by done. simpl in Hleft1.
  pose proof (draw_steps_inv _ _ _ _ _ _ (clear_not_empty_inv _ _ _ Hinv0) Hsteps1)
    as Hinv1.
  pose proof (draw_steps_round_index _ _ _ _ Hsteps1) as Hidx1. simpl in Hidx1.
  rewrite (while_loop_step _ _ _ st0 (next_round st1)); [| |lia|done].
  2: { unfold loop_condition. simpl. rewrite bool_decide_eq_true_2; [done | lia]. }
  destruct (decide (budget `mod` len all_kinds = 0)) as [Hmod|Hmod].
  { exists (next_round st1). rewrite while_loop_stop.
    - split_and!; [done | | unfold rounds_executed; simpl; lia].
      simpl. destruct Hinv1. lia.
    - unfold loop_condition. simpl.
      rewrite bool_decide_eq_false_2; [done | lia]. }
  (* the second round *)
  assert (2 ≤ budget / len all_kinds) as Hq2 by (destruct Hshape; [done | lia]).
  assert (∃ k0, k0 ∈ all_kinds) as [k0 Hk0].
  { destruct all_kinds as [|k0 ?]; [done|]. exists k0. apply list_elem_of_here. }
  assert (∀ k, k ∈ all_kinds → remaining_of st1 k ≠ []) as Hleftover.
  { intros k Hk. destruct (Hpools k Hk) as [Hnd_k Hlen_k].
    destruct (Hrem1 k Hk) as (_ & Hexact & _).
    destruct Hexact as [_ Hexact]; [exact Hnd_k|].
    unfold remaining_of at 2 3 in Hexact. simpl in Hexact.
    rewrite Z.min_l in Hexact by lia.
    intros Hempty. rewrite Hempty in Hexact. unfold len in Hexact at 1.
    simpl in Hexact. specialize (Hceil1 Hmod). lia. }
  assert (not_empty st1 = true) as Hflag1.
  { destruct (Hrem1 k0 Hk0) as (_ & _ & Hflag). apply Hflag.
    intros Hempty. specialize (Henough k0 Hk0). rewrite Hempty in Henough.
    unfold len in Henough at 2. simpl in Henough. lia. }
  destruct (round_body_steps budget (total_supply sample_map all_kinds)
              all_kinds (next_round st1)) as (st2 & Hbody2 & Hsteps2);
    [lia | simpl; lia | by apply next_round_inv |].
  simpl round_index in Hsteps2. rewrite Hidx1 in Hsteps2.
  pose proof (clear_not_empty_inv _ _ _ (next_round_inv _ _ _ Hinv1)) as Hinv1'.
  pose proof (draw_steps_drain budget (total_supply sample_map all_kinds)
                (budget / len all_kinds / (1 + 1)) all_kinds
                (clear_not_empty (next_round st1)) st2 Hnd Hinv1') as Hdrain.
  simpl in Hdrain. rewrite Hleft1 in Hdrain.
  specialize (Hdrain ltac:(apply Z.div_str_pos; lia) Hleftover Hsteps2).
  pose proof (draw_steps_inv _ _ _ _ _ _ Hinv1' Hsteps2) as Hinv2.
  pose proof (draw_steps_round_index _ _ _ _ Hsteps2) as Hidx2. simpl in Hidx2.
  rewrite (while_loop_step _ _ _ (next_round st1) (next_round st2)); [| |lia|done].
  2: { unfold loop_condition. simpl. rewrite Hflag1.
       rewrite bool_decide_eq_true_2; [done | lia]. }
  exists (next_round st2). rewrite while_loop_stop.
  - split_and!; [done | | unfold rounds_executed; simpl; lia].
    simpl. destruct Hinv2. lia.
  - unfold loop_condition. simpl. destruct Hinv2.
    rewrite bool_decide_eq_false_2; [done | lia].
Qed.

Lemma selected_subfolders_length (sample_map : dict (list Path)) :
  (length (selected_subfolders sample_map) ≤ MAX_FOLDERS_PER_PACK)%nat.
Proof.
  unfold selected_subfolders. cbv zeta.
  repeat case_decide; rewrite ?length_app, ?length_take; lia.
Qed.

Lemma elem_of_take_1 {A} (l : list A) n x : x ∈ take n l → x ∈ l.
Proof. intros Hx. eapply elem_of_submseteq; [done | apply submseteq_take]. Qed.

Lemma NoDup_take {A} (l : list A) n : NoDup l → NoDup (take n l).
Proof. intros Hnd. eapply submseteq_NoDup; [apply submseteq_take | done]. Qed.

Lemma selected_subfolders_NoDup (sample_map : dict (list Path)) :
  NoDup (dict_keys sample_map) → NoDup (selected_subfolders sample_map).
Proof.
  intros Hnd%available_subfolders_NoDup.
  assert (NoDup (prioritized_subfolders sample_map)) as Hprio.
  { apply NoDup_filter. apply (bool_decide_unpack _). by vm_compute. }
  assert (NoDup (remaining_subfolders sample_map)) as Hrest
    by by apply NoDup_filter.
  unfold selected_subfolders. cbv zeta.
  repeat case_decide; auto using NoDup_take.
  apply NoDup_app. split_and!; auto using NoDup_take.
  intros k Hk%elem_of_take_1 Hk'%elem_of_take_1.
  unfold remaining_subfolders in Hk'. apply list_elem_of_filter in Hk' as [Hout _].
  done.
Qed.

(** Two rounds are enough when the pools are deep: when the admitted
    categories are those of a dict, at least one category is admitted, and
    each admitted pool lists [ceil(MAX_FILES_PER_PACK / len(all_kinds))]
    files or more and none of them twice, the final plan totals exactly
    [MAX_FILES_PER_PACK] files, after at most two rounds. *)
Theorem full_budget_when_every_pool_suffices (sample_map : dict (list Path))
    (g : rng_state) :
  let all_kinds := selected_subfolders sample_map in
  NoDup (dict_keys sample_map) →
  all_kinds ≠ [] →
  (∀ k, k ∈ all_kinds →
        NoDup (default [] (dict_get sample_map k)) ∧
        (MAX_FILES_PER_PACK + len all_kinds - 1) / len all_kinds
        ≤ len (default [] (dict_get sample_map k))) →
  ∃ st, build_plan sample_map g = Done st ∧
        plan_total (selected_files st) = MAX_FILES_PER_PACK ∧
        rounds_executed st ≤ 2.
Proof.
  intros all_kinds Hnd Hne Hpools. unfold build_plan. fold all_kinds.
  apply allocate_full_budget; [done | by apply selected_subfolders_NoDup | done | |].
  - right. pose proof (selected_subfolders_length sample_map) as Hlen.
    pose proof (len_pos all_kinds Hne) as Hpos.
    apply Z.div_le_lower_bound; [done|].
    unfold all_kinds, len, MAX_FOLDERS_PER_PACK, MAX_FILES_PER_PACK in *. lia.
  - intros k Hk. rewrite dict_get_admitted, decide_True by done.
    by apply Hpools.
Qed.

Lemma full_budget_when_every_pool_suffices_witness :
  ∃ st, build_plan two_deep_map seed = Done st ∧
        plan_total (selected_files st) = MAX_FILES_PER_PACK ∧
        rounds_executed st ≤ 2.
Proof.
  apply (full_budget_when_every_pool_suffices two_deep_map seed).
  - apply (bool_decide_unpack _). by vm_compute.
  - done.
  - intros k Hk. apply list_elem_of_In in Hk.
    destruct Hk as [<-|[<-|[]]];
      (split; [apply (bool_decide_unpack _); by vm_compute | by vm_compute]).
Defined.

(** C2, as the specification words it, fails on nine categories with one
    candidate each and a tenth with 246: the supply is 255, the whole
    budget, but the tenth category is offered [floor(25 / i)] files in round
    [i], 87 files over the 25 rounds with a positive quota, and the plan
    ends with 96 files. *)
Lemma supply_suffices_but_plan_falls_short :
  ∃ st, build_plan long_tail_map seed = Done st ∧
        total_supply long_tail_map (selected_subfolders long_tail_map)
        = MAX_FILES_PER_PACK ∧
        plan_total (selected_files st) = 96 ∧
        plan_total (selected_files st) ≠ MAX_FILES_PER_PACK.
Proof.
  eexists. split; [by vm_compute|]. by vm_compute.
Qed.

(** ** Scarce supply *)

Lemma remaining_of_clear st k :
  remaining_of (clear_not_empty st) k = remaining_of st k.
Proof. done. Qed.

Lemma remaining_of_next st k :
  remaining_of (next_round st) k = remaining_of st k.
Proof. done. Qed.

(** Once the admitted pools are drained the loop stops, within one more
    round and without touching the plan. *)
Lemma while_loop_idle budget supply all_kinds fuel st :
  alloc_inv budget supply st → 0 < round_index st → len all_kinds ≠ 0 →
  (∀ k, k ∈ all_kinds → remaining_of st k = []) →
  ∃ st', while_loop (S fuel) budget all_kinds st = Done st' ∧
         files_inserted st' = files_inserted st ∧
         selected_files st' = selected_files st ∧
         round_index st' ≤ round_index st + 1.
Proof.
  intros Hinv Hi Hn Hempty.
  destruct (loop_condition st) eqn:Hc.
  2: { exists st. rewrite while_loop_stop by done. split_and!; auto; lia. }
  destruct (round_body_steps budget supply all_kinds st) as (st1 & Hbody & Hsteps);
    [done..|].
  apply draw_steps_idle in Hsteps; [|done]. subst st1.
  rewrite (while_loop_step _ _ _ st (next_round (clear_not_empty st))) by done.
  exists (next_round (clear_not_empty st)). rewrite while_loop_stop.
  - split_and!; simpl; auto; lia.
  - unfold loop_condition. simpl. apply andb_false_r.
Qed.

Lemma pass_demand_le quota st ks :
  0 ≤ quota → pass_demand quota st ks ≤ len ks * quota.
Proof.
  intros Hq. induction ks as [|k ks IH]; simpl; [done|].
  unfold len in *. simpl length. lia.
Qed.

(** When no admitted pool is larger than the quota of the first round, the
    first round takes every candidate, with its multiplicity. *)
Lemma allocate_small_pools budget sample_map all_kinds g :
  0 ≤ budget → NoDup all_kinds → all_kinds ≠ [] →
  (∀ k, k ∈ all_kinds →
        len (default [] (dict_get (admitted_pools sample_map all_kinds) k))
        ≤ budget / len all_kinds) →
  ∃ st, allocate budget sample_map all_kinds g = Done st ∧
        plan_total (selected_files st)
        = pass_demand (budget / len all_kinds)
                      (initial_state budget sample_map all_kinds g) all_kinds.
Proof.
  intros Hb Hnd Hne Hsmall.
  pose proof (len_pos all_kinds Hne) as Hn.
  pose proof (Z.div_mod budget (len all_kinds) ltac:(lia)) as Hdiv.
  pose proof (Z.mod_pos_bound budget (len all_kinds) Hn) as Hr.
  assert (0 ≤ budget / len all_kinds) as Hq0 by (apply Z.div_pos; lia).
  set (st0 := initial_state budget sample_map all_kinds g).
  pose proof (initial_state_inv budget sample_map all_kinds g Hb) as Hinv0.
  fold st0 in Hinv0. unfold allocate, loop_fuel. fold st0.
  replace (Z.to_nat budget + 2)%nat with (S (S (Z.to_nat budget))) by lia.
  destruct (decide (budget / len all_kinds = 0)) as [Hq|Hq].
  - (* every admitted pool is empty *)
    assert (∀ k, k ∈ all_kinds → remaining_of st0 k = []) as Hempty.
    { intros k Hk. specialize (Hsmall k Hk). unfold remaining_of. simpl.
      apply len_nil_inv. lia. }
    destruct (while_loop_idle budget (total_supply sample_map all_kinds) all_kinds
                (S (Z.to_nat budget)) st0) as (st & Hrun & Hins & Hsel & _);
      [done | done | lia | done |].
    exists st. split; [done|]. rewrite Hsel.
    destruct Hinv0 as [_ _ -> _ _]. simpl.
    pose proof (pass_demand_le (budget / len all_kinds) st0 all_kinds Hq0).
    pose proof (pass_demand_nonneg (budget / len all_kinds) st0 all_kinds Hq0).
    rewrite Hq in *. lia.
  - (* the first round *)
    destruct (round_body_steps budget (total_supply sample_map all_kinds)
                all_kinds st0) as (st1 & Hbody1 & Hsteps1); [lia | done | done |].
    simpl round_index in Hsteps1. rewrite Z.div_1_r in Hsteps1.
    pose proof (pass_demand_le (budget / len all_kinds) st0 all_kinds Hq0) as Hle.
    destruct (draw_steps_exact budget (total_supply sample_map all_kinds)
                (budget / len all_kinds) all_kinds (clear_not_empty st0) st1)
      as (Hleft1 & Hrem1 & _ & _);
      [done | by apply clear_not_empty_inv | lia | | done |].
    { etrans; [exact Hle|]. simpl. lia. }
    pose proof (draw_steps_inv _ _ _ _ _ _ (clear_not_empty_inv _ _ _ Hinv0) Hsteps1)
      as Hinv1.
    pose proof (draw_steps_round_index _ _ _ _ Hsteps1) as Hidx1. simpl in Hidx1.
    rewrite (while_loop_step _ _ _ st0 (next_round st1)); [| |lia|done].
    2: { unfold loop_condition. simpl. rewrite bool_decide_eq_true_2; [done | nia]. }
    destruct (while_loop_idle budget (total_supply sample_map all_kinds) all_kinds
                (Z.to_nat budget) (next_round st1)) as (st & Hrun & Hins & Hsel & _);
      [by apply next_round_inv | simpl; lia | lia | |].
    { intros k Hk. destruct (Hrem1 k Hk) as (Hlen & _). specialize (Hsmall k Hk).
      rewrite remaining_of_next. apply len_nil_inv.
      unfold remaining_of at 2 3 in Hlen. simpl in Hlen.
      rewrite Z.min_r in Hlen by lia. lia. }
    exists st. split; [done|]. rewrite Hsel. simpl.
    destruct Hinv1 as [_ Hbudget1 -> _ _]. simpl in Hleft1.
    change (pass_demand (budget / len all_kinds) (clear_not_empty st0) all_kinds)
      with (pass_demand (budget / len all_kinds) st0 all_kinds) in Hleft1.
    lia.
Qed.

Lemma total_supply_none (sample_map : dict (list Path)) :
  total_supply sample_map [] = 0.
Proof.
  unfold total_supply, admitted_pools.
  induction sample_map as [|[k v] sample_map IH]; [done|].
  rewrite filter_cons. rewrite decide_False; [done|]. apply not_elem_of_nil.
Qed.

Lemma two_pools_lookup (k1 k2 : string) (pool1 pool2 : list Path) :
  k1 ≠ k2 →
  dict_get (admitted_pools [(k1, pool1); (k2, pool2)] [k1; k2]) k1 = Some pool1 ∧
  dict_get (admitted_pools [(k1, pool1); (k2, pool2)] [k1; k2]) k2 = Some pool2.
Proof.
  intros Hne. rewrite !dict_get_admitted.
  rewrite !decide_True by set_solver. simpl.
  rewrite (decide_True (P := k1 = k1)) by done.
  rewrite (decide_False (P := k1 = k2)) by done.
  by rewrite (decide_True (P := k2 = k2)) by done.
Qed.

(** C9 — scarce-supply degradation. For every budget, mapping and run of
    the random source the allocator returns a plan without raising; the plan
    never holds more files than the admitted pools offer, so a supply below
    the budget yields fewer files than the budget, and no admitted category
    yields a plan without files. For two categories with pools of 2 and 3
    files and a budget of 100, the plan holds exactly 5 files. *)
Theorem scarce_supply_degrades :
  (∀ (budget : Z) (sample_map : dict (list Path)) (g : rng_state),
     0 ≤ budget →
     let all_kinds := selected_subfolders sample_map in
     ∃ st, allocate budget sample_map all_kinds g = Done st ∧
           plan_total (selected_files st) ≤ total_supply sample_map all_kinds ∧
           plan_total (selected_files st) ≤ budget ∧
           (total_supply sample_map all_kinds < budget →
            plan_total (selected_files st) < budget) ∧
           (all_kinds = [] → plan_total (selected_files st) = 0)) ∧
  (∀ (k1 k2 : string) (pool1 pool2 : list Path) (g : rng_state),
     k1 ≠ k2 → length pool1 = 2%nat → length pool2 = 3%nat →
     let sample_map := [(k1, pool1); (k2, pool2)] in
     ∃ st, allocate 100 sample_map (selected_subfolders sample_map) g = Done st ∧
           plan_total (selected_files st) = 5).
Proof.
  split.
  - intros budget sample_map g Hb all_kinds.
    destruct (allocate_rule (λ _, True) budget sample_map all_kinds g)
      as (st & Hrun & [Hleft Hbudget Htotal Hsupply _] & _); auto.
    pose proof (plan_total_nonneg (remaining_samples st)) as Hrem.
    exists st. split_and!; [done | lia | lia | lia |].
    intros Hnone. rewrite Hnone, total_supply_none in Hsupply.
    pose proof (plan_total_nonneg (selected_files st)). lia.
  - intros k1 k2 pool1 pool2 g Hne Hlen1 Hlen2 sample_map.
    destruct (two_pools_lookup k1 k2 pool1 pool2 Hne) as [Hget1 Hget2].
    assert (selected_subfolders sample_map = [k1; k2]) as ->.
    { destruct pool1 as [|? [|? [|]]]; try done.
      destruct pool2 as [|? [|? [|? [|]]]]; try done. }
    destruct (allocate_small_pools 100 sample_map [k1; k2] g) as (st & Hrun & Htotal).
    + done.
    + apply NoDup_cons. split; [|apply NoDup_singleton].
      by intros ?%list_elem_of_singleton.
    + done.
    + intros k [->|[->|[]%elem_of_nil]%elem_of_cons]%elem_of_cons.
      * unfold sample_map. rewrite Hget1. simpl. unfold len. rewrite Hlen1. done.
      * unfold sample_map. rewrite Hget2. simpl. unfold len. rewrite Hlen2. done.
    + exists st. split; [done|]. rewrite Htotal.
      unfold pass_demand, remaining_of. simpl remaining_samples.
      unfold sample_map. simpl foldr. rewrite Hget1, Hget2. simpl.
      unfold len. rewrite Hlen1, Hlen2. done.
Qed.

Lemma scarce_supply_degrades_witness :
  (∃ st, allocate MAX_FILES_PER_PACK scarce_map (selected_subfolders scarce_map) seed
         = Done st ∧
         plan_total (selected_files st) < MAX_FILES_PER_PACK) ∧
  (∃ st, allocate 100 scarce_map (selected_subfolders scarce_map) seed = Done st ∧
         plan_total (selected_files st) = 5).
Proof.
  destruct scarce_supply_degrades as [Hgeneral Hscenario]. split.
  - destruct (Hgeneral MAX_FILES_PER_PACK scarce_map seed) as (st & Hrun & _ & _ & Hlt & _);
      [done|].
    exists st. split; [exact Hrun|]. apply Hlt. by vm_compute.
  - apply (Hscenario "Kick" "Snare" (mk_files "/lib/kick/" 2)
                     (mk_files "/lib/snare/" 3) seed); done.
Defined.

(** ** The candidate pool builder *)

Lemma string_app_cons (x : ascii) (a b : string) :
  String x a +:+ b = String x (a +:+ b).
Proof. reflexivity. Qed.

Lemma string_app_assoc (a b c : string) : (a +:+ b) +:+ c = a +:+ (b +:+ c).
Proof.
  induction a as [|x a IH]; [done|].
  by rewrite !string_app_cons, IH.
Qed.

Lemma string_app_empty_r (a : string) : a +:+ "" = a.
Proof.
  induction a as [|x a IH]; [done|].
  by rewrite string_app_cons, IH.
Qed.

Lemma str_lower_app (a b : string) :
  str_lower (a +:+ b) = str_lower a +:+ str_lower b.
Proof.
  induction a as [|x a IH]; [done|].
  rewrite string_app_cons. simpl. by rewrite string_app_cons, IH.
Qed.

Lemma prefix_app (s a b : string) :
  String.prefix s a = true → String.prefix s (a +:+ b) = true.
Proof.
  revert a. induction s as [|x s IH]; intros a; [intros _; by destruct (a +:+ b)|].
  destruct a as [|y a]; [done|].
  rewrite string_app_cons. simpl.
  destruct (Ascii.ascii_dec x y); [apply IH | done].
Qed.

(** A substring of a path is a substring of every longer path. *)
Lemma str_in_app (s a b : string) :
  str_in s a = true → str_in s (a +:+ b) = true.
Proof.
  induction a as [|y a IH].
  - simpl. rewrite orb_false_r. intros Hs. destruct s; [|done].
    by destruct b.
  - rewrite string_app_cons. cbn [str_in].
    intros [Hpre|Hin]%orb_true_iff; apply orb_true_iff.
    + left. by apply (prefix_app s (String y a) b).
    + right. by apply IH.
Qed.

Lemma exclude_rejects_app (exclude_dirs : list string) (a b : string) :
  exclude_rejects exclude_dirs a = true →
  exclude_rejects exclude_dirs (a +:+ b) = true.
Proof.
  unfold exclude_rejects. intros [Hne Hex]%andb_true_iff.
  apply andb_true_iff. split; [done|].
  apply existsb_exists in Hex as (excl & Hin & Hsub).
  apply existsb_exists. exists excl. split; [done|].
  rewrite str_lower_app. by apply str_in_app.
Qed.

Lemma exclude_rejects_spec (exclude_dirs : list string) (dirpath : string) :
  exclude_rejects exclude_dirs dirpath = true
  ↔ ∃ excl, excl ∈ exclude_dirs ∧
            str_in (str_lower excl) (str_lower dirpath) = true.
Proof.
  unfold exclude_rejects. rewrite andb_true_iff, existsb_exists. split.
  - intros (_ & excl & Hin%list_elem_of_In & Hsub). eauto.
  - intros (excl & Hin & Hsub). split.
    + apply bool_decide_eq_true. by intros ->; apply elem_of_nil in Hin.
    + exists excl. by rewrite <-list_elem_of_In.
Qed.

Lemma include_rejects_spec (include_dirs : list string) (dirpath : string) :
  include_rejects include_dirs dirpath = true
  ↔ include_dirs ≠ [] ∧
    ∀ incl, incl ∈ include_dirs →
            str_in (str_lower incl) (str_lower dirpath) = false.
Proof.
  unfold include_rejects.
  rewrite andb_true_iff, bool_decide_eq_true, negb_true_iff.
  split; intros [Hne Hall]; (split; [done|]).
  - intros incl Hin%list_elem_of_In.
    destruct (str_in (str_lower incl) (str_lower dirpath)) eqn:Hsub; [|done].
    assert (existsb (λ incl, str_in (str_lower incl) (str_lower dirpath))
                    include_dirs = true) as Hex
      by (apply existsb_exists; eauto).
    congruence.
  - destruct (existsb _ include_dirs) eqn:Hex; [|done].
    apply existsb_exists in Hex as (incl & Hin%list_elem_of_In & Hsub).
    rewrite (Hall incl Hin) in Hsub. done.
Qed.

Lemma os_walk_unfold (dirpath : string) subdirs files :
  os_walk dirpath (Dir subdirs files)
  = (dirpath, subdirs.*1, files)
    :: flat_map (λ d, os_walk (path_join dirpath d.1) d.2) subdirs.
Proof.
  simpl. f_equal. induction subdirs as [|[name sub] subdirs IH]; simpl; [done|].
  by rewrite IH.
Qed.

Lemma directories_under_unfold (dirpath : string) subdirs files :
  directories_under dirpath (Dir subdirs files)
  = (dirpath, Dir subdirs files)
    :: flat_map (λ d, directories_under (path_join dirpath d.1) d.2) subdirs.
Proof.
  simpl. f_equal. induction subdirs as [|[name sub] subdirs IH]; simpl; [done|].
  by rewrite IH.
Qed.

(** Every directory reported by a walk lies at or below the top. *)
Lemma os_walk_below (t : dir_tree) :
  ∀ (dirpath : string) (e : walk_entry),
    e ∈ os_walk dirpath t → ∃ suffix, e.1.1 = dirpath +:+ suffix.
Proof.
  induction t as [subdirs files IH] using dir_tree_rect'.
  intros dirpath e. rewrite os_walk_unfold.
  intros [->|Hin]%elem_of_cons.
  - exists "". simpl. by rewrite string_app_empty_r.
  - apply list_elem_of_In, in_flat_map in Hin as ([name sub] & Hd & He).
    rewrite Forall_forall in IH.
    apply list_elem_of_In in Hd, He.
    destruct (IH _ Hd _ _ He) as [suffix ->]. simpl.
    exists ("/" +:+ name +:+ suffix). unfold path_join.
    by rewrite !string_app_assoc.
Qed.

(** The walk of a subdirectory is a stretch of the walk of the top. *)
Lemma os_walk_subtree (t : dir_tree) :
  ∀ (top d : string) (sub : dir_tree),
    (d, sub) ∈ directories_under top t →
    ∃ before after, os_walk top t = before ++ os_walk d sub ++ after.
Proof.
  induction t as [subdirs files IH] using dir_tree_rect'.
  intros top d sub. rewrite directories_under_unfold.
  intros [[= -> ->]|Hin]%elem_of_cons.
  - exists [], []. by rewrite app_nil_r.
  - apply list_elem_of_In, in_flat_map in Hin as ([name child] & Hd & He).
    rewrite Forall_forall in IH.
    apply list_elem_of_In in Hd, He.
    destruct (IH _ Hd _ _ _ He) as (before & after & Hwalk). simpl in Hwalk.
    apply list_elem_of_split in Hd as (ds1 & ds2 & ->).
    rewrite os_walk_unfold, flat_map_app. simpl. rewrite Hwalk.
    exists ((top, (ds1 ++ (name, child) :: ds2).*1, files)
            :: flat_map (λ d, os_walk (path_join top d.1) d.2) ds1 ++ before),
           (after ++ flat_map (λ d, os_walk (path_join top d.1) d.2) ds2).
    simpl. f_equal. by rewrite <-!(assoc_L (++)).
Qed.

Lemma flat_map_nil {A B} (f : A → list B) (l : list A) :
  (∀ x, x ∈ l → f x = []) → flat_map f l = [].
Proof.
  induction l as [|x l IH]; intros Hf; simpl; [done|].
  rewrite Hf by apply list_elem_of_here. apply IH.
  intros y Hy. apply Hf. by apply list_elem_of_further.
Qed.

Lemma visit_directory_excluded pattern include_dirs exclude_dirs (entry : walk_entry) :
  exclude_rejects exclude_dirs entry.1.1 = true →
  visit_directory pattern include_dirs exclude_dirs entry = [].
Proof.
  destruct entry as [[dirpath dirnames] filenames]. simpl. intros Hex.
  unfold visit_directory. rewrite Hex. by destruct (include_rejects _ _).
Qed.

Lemma elem_of_flat_map {A B} (f : A → list B) (l : list A) (y : B) :
  y ∈ flat_map f l ↔ ∃ x, x ∈ l ∧ y ∈ f x.
Proof.
  rewrite list_elem_of_In, in_flat_map. split.
  - intros (x & Hx & Hy). exists x. by rewrite !list_elem_of_In.
  - intros (x & Hx & Hy). exists x. by rewrite <-!list_elem_of_In.
Qed.

Lemma visit_file_spec pattern dirpath (file : string * option Z) (f : Path) :
  f ∈ visit_file pattern dirpath file
  ↔ ∃ size, file.2 = Some size ∧ f = path_join dirpath file.1 ∧
            str_endswith (str_lower file.1) ".wav" = true ∧
            size ≤ MAX_FILE_SIZE_KB * 1024 ∧
            (∀ search, pattern = Some search → search file.1 = true).
Proof.
  destruct file as [filename st_size]. unfold visit_file. simpl. split.
  - destruct (str_endswith _ _); [|by intros ?%elem_of_nil].
    destruct st_size as [size|]; [|by intros ?%elem_of_nil].
    case_decide; [|by intros ?%elem_of_nil].
    destruct pattern as [search|].
    + destruct (search filename) eqn:Hs; [|by intros ?%elem_of_nil].
      intros ->%list_elem_of_singleton. exists size. split_and!; try done.
      by intros ? [= <-].
    + intros ->%list_elem_of_singleton. exists size. split_and!; done.
  - intros (size & -> & -> & -> & Hsize & Hpat).
    rewrite decide_True by done. destruct pattern as [search|].
    + rewrite (Hpat search eq_refl). apply list_elem_of_here.
    + apply list_elem_of_here.
Qed.

(** A directory passes the include filter when there is none or when its
    path holds one of the substrings, and the exclude filter when its path
    holds none of them. *)
Lemma include_accepts_spec (include_dirs : list string) (dirpath : string) :
  include_rejects include_dirs dirpath = false
  ↔ include_dirs = [] ∨
    ∃ incl, incl ∈ include_dirs ∧
            str_in (str_lower incl) (str_lower dirpath) = true.
Proof.
  destruct (include_rejects include_dirs dirpath) eqn:Hrej.
  - apply include_rejects_spec in Hrej as [Hne Hall]. split; [done|].
    intros [->|(incl & Hin & Hsub)]; [done|]. by rewrite (Hall incl Hin) in Hsub.
  - split; [intros _|done].
    destruct (decide (include_dirs = [])) as [|Hne]; [by left|]. right.
    unfold include_rejects in Hrej.
    rewrite bool_decide_eq_true_2 in Hrej by done. simpl in Hrej.
    apply negb_false_iff, existsb_exists in Hrej as (incl & Hin & Hsub).
    exists incl. by rewrite list_elem_of_In.
Qed.

Lemma exclude_accepts_spec (exclude_dirs : list string) (dirpath : string) :
  exclude_rejects exclude_dirs dirpath = false
  ↔ ∀ excl, excl ∈ exclude_dirs →
            str_in (str_lower excl) (str_lower dirpath) = false.
Proof.
  destruct (exclude_rejects exclude_dirs dirpath) eqn:Hrej.
  - apply exclude_rejects_spec in Hrej as (excl & Hin & Hsub). split; [done|].
    intros Hall. by rewrite (Hall excl Hin) in Hsub.
  - split; [intros _|done]. intros excl Hin.
    destruct (str_in (str_lower excl) (str_lower dirpath)) eqn:Hsub; [|done].
    assert (exclude_rejects exclude_dirs dirpath = true) as Htrue
      by (apply exclude_rejects_spec; eauto).
    congruence.
Qed.

(** Every directory at or below the top is reported by the walk, with the
    names of its subdirectories and its files, and nothing else is. *)
Lemma os_walk_directories (t : dir_tree) :
  ∀ (top dirpath : string) (dirnames : list string)
    (filenames : list (string * option Z)),
    (dirpath, dirnames, filenames) ∈ os_walk top t
    ↔ ∃ subdirs, (dirpath, Dir subdirs filenames) ∈ directories_under top t ∧
                  dirnames = subdirs.*1.
Proof.
  induction t as [subdirs files IH] using dir_tree_rect'.
  intros top dirpath dirnames filenames.
  rewrite os_walk_unfold, directories_under_unfold, elem_of_cons.
  rewrite Forall_forall in IH. split.
  - intros [[= -> -> ->]|Hin].
    + exists subdirs. split; [apply list_elem_of_here | done].
    + apply elem_of_flat_map in Hin as ([name sub] & Hd & He). simpl in He.
      apply (IH _ Hd) in He as (subdirs' & Hunder & ->).
      exists subdirs'. split; [|done]. apply list_elem_of_further.
      apply elem_of_flat_map. by exists (name, sub).
  - intros (subdirs' & [[= -> -> ->]|Hin]%elem_of_cons & ->); [by left|]. right.
    apply elem_of_flat_map in Hin as ([name sub] & Hd & He). simpl in He.
    apply elem_of_flat_map. exists (name, sub). split; [done|]. simpl.
    apply (IH _ Hd). by exists subdirs'.
Qed.

(** C8, as the code has it, for paths and filter strings in the ASCII range
    and a pool that [collect_wav_files] returns (no [stat] raises anything
    but [FileNotFoundError]) — the include filter is applied to each
    directory on its own: a directory of the walk whose path contains none
    of the include substrings (case-insensitively) contributes none of its
    own files, while every directory at or below the source, whatever is
    above it, is judged by its own path: when that path passes both
    filters, each of its [.wav] files that [stat] finds within the size
    limit and that the pattern accepts enters the pool. The exclude filter
    removes whole subtrees: when the path of a directory contains an
    exclude substring, so does the path of every directory below it, the
    walk of that directory contributes nothing, and the pool of the source
    is what the directories before and after that stretch of the walk
    contribute. *)
Theorem directory_filters (stat_raises : Path → bool) (fs : file_system)
    (source_dir : Path) (top : dir_tree) (pattern : option (string → bool))
    (include_dirs exclude_dirs : list string) (pool : list Path) :
  let visit := visit_directory pattern include_dirs exclude_dirs in
  fs source_dir = Some top →
  ascii_walk (walk_source fs source_dir) = true →
  forallb is_ascii include_dirs = true →
  forallb is_ascii exclude_dirs = true →
  collect_wav_files_run stat_raises fs [source_dir] pattern include_dirs exclude_dirs
  = Ok pool →
  (∀ entry : walk_entry,
     entry ∈ walk_source fs source_dir →
     include_dirs ≠ [] →
     (∀ incl, incl ∈ include_dirs →
              str_in (str_lower incl) (str_lower entry.1.1) = false) →
     visit entry = []) ∧
  (∀ (d : string) subdirs files (filename : string) (size : Z),
     (d, Dir subdirs files) ∈ directories_under source_dir top →
     (include_dirs = [] ∨
      ∃ incl, incl ∈ include_dirs ∧
              str_in (str_lower incl) (str_lower d) = true) →
     (∀ excl, excl ∈ exclude_dirs →
              str_in (str_lower excl) (str_lower d) = false) →
     (filename, Some size) ∈ files →
     str_endswith (str_lower filename) ".wav" = true →
     size ≤ MAX_FILE_SIZE_KB * 1024 →
     (∀ search, pattern = Some search → search filename = true) →
     path_join d filename ∈ pool) ∧
  (∀ (d : string) (sub : dir_tree) (excl : string),
     (d, sub) ∈ directories_under source_dir top →
     excl ∈ exclude_dirs →
     str_in (str_lower excl) (str_lower d) = true →
     flat_map visit (os_walk d sub) = [] ∧
     ∃ before after,
       walk_source fs source_dir = before ++ os_walk d sub ++ after ∧
       pool = flat_map visit before ++ flat_map visit after).
Proof.
  intros visit Hfs _ _ _ Hrun. unfold collect_wav_files_run in Hrun.
  destruct (existsb stat_raises _); [done|]. injection Hrun as <-.
  split_and!.
  - intros [[dirpath dirnames] filenames] _ Hne Hall. unfold visit, visit_directory.
    assert (include_rejects include_dirs dirpath = true) as ->
      by (apply include_rejects_spec; done).
    done.
  - intros d subdirs files filename size Hunder Hinc Hexc Hfile Hext Hsize Hpat.
    unfold collect_wav_files, walk_source. simpl. rewrite Hfs, app_nil_r.
    apply elem_of_flat_map. exists (d, subdirs.*1, files). split.
    + apply os_walk_directories. by exists subdirs.
    + unfold visit_directory.
      rewrite (proj2 (include_accepts_spec include_dirs d) Hinc).
      rewrite (proj2 (exclude_accepts_spec exclude_dirs d) Hexc).
      apply elem_of_flat_map. exists (filename, Some size). split; [done|].
      apply visit_file_spec. exists size. split_and!; done.
  - intros d sub excl Hin Hexcl Hsub.
    assert (flat_map visit (os_walk d sub) = []) as Hnone.
    { apply flat_map_nil. intros e He.
      apply visit_directory_excluded.
      destruct (os_walk_below sub d e He) as [suffix ->].
      apply exclude_rejects_app, exclude_rejects_spec. eauto. }
    split; [done|].
    destruct (os_walk_subtree top source_dir d sub Hin) as (before & after & Hwalk).
    exists before, after. unfold collect_wav_files, walk_source. simpl.
    rewrite Hfs, Hwalk, app_nil_r. split; [done|].
    rewrite !flat_map_app. fold visit. by rewrite Hnone.
Qed.

Lemma directory_filters_witness :
  visit_directory None ["kick"] ["DEEP"]
                  ("/lib", ["Kicks"], [("top.wav", Some 20)]) = [] ∧
  "/lib/Kicks/k1.wav" ∈ collect_wav_files nested_fs ["/lib"] None ["kick"] ["DEEP"] ∧
  flat_map (visit_directory None ["kick"] ["DEEP"])
           (os_walk "/lib/Kicks/Deep" (Dir [] [("d.wav", Some 300)])) = [].
Proof.
  destruct (directory_filters (λ _, false) nested_fs "/lib" nested_tree None
              ["kick"] ["DEEP"] _ eq_refl eq_refl eq_refl eq_refl eq_refl)
    as (Hinclude & Hbelow & Hexclude).
  split_and!.
  - apply Hinclude; [| done |].
    + apply list_elem_of_In. vm_compute. by left.
    + intros incl ->%list_elem_of_singleton. by vm_compute.
  - apply (Hbelow "/lib/Kicks"
                  [("Deep", Dir [] [("d.wav", Some 300)])]
                  [("k1.wav", Some 1000); ("big.wav", Some 500000);
                   ("gone.wav", None); ("notes.txt", Some 10)]
                  "k1.wav" 1000).
    + apply list_elem_of_In. vm_compute. tauto.
    + right. exists "kick". split; [apply list_elem_of_here | by vm_compute].
    + intros excl ->%list_elem_of_singleton. by vm_compute.
    + apply list_elem_of_here.
    + by vm_compute.
    + by vm_compute.
    + done.
  - apply (Hexclude "/lib/Kicks/Deep" (Dir [] [("d.wav", Some 300)]) "DEEP").
    + apply list_elem_of_In. vm_compute. tauto.
    + apply list_elem_of_here.
    + by vm_compute.
Defined.

(** C8, as the specification words it, fails for the include filter: with
    [include_dirs = ["kick"]] the top directory [/lib] matches no include
    substring, yet the files of [/lib/Kicks] and of [/lib/Kicks/Deep], which
    lie under it, enter the pool. *)
Lemma include_filter_keeps_deeper_matches :
  include_rejects ["kick"] "/lib" = true ∧
  "/lib/Kicks/k1.wav" ∈ files_under "/lib" nested_tree ∧
  collect_wav_files nested_fs ["/lib"] None ["kick"] []
  = ["/lib/Kicks/k1.wav"; "/lib/Kicks/Deep/d.wav"] ∧
  ¬ (∀ f, f ∈ files_under "/lib" nested_tree →
          f ∉ collect_wav_files nested_fs ["/lib"] None ["kick"] []).
Proof.
  assert ("/lib/Kicks/k1.wav" ∈ files_under "/lib" nested_tree) as Hunder.
  { apply list_elem_of_In. vm_compute. tauto. }
  assert (collect_wav_files nested_fs ["/lib"] None ["kick"] []
          = ["/lib/Kicks/k1.wav"; "/lib/Kicks/Deep/d.wav"]) as Hpool
    by by vm_compute.
  split_and!; [by vm_compute | done | done |].
  intros Hskip. apply (Hskip _ Hunder). rewrite Hpool. apply list_elem_of_here.
Qed.

(** ** The materializer *)

(** [convert_audio] never raises, whatever happens to the audio. *)
Lemma convert_audio_returns env wav_file_path channels w :
  ∃ w', convert_audio env wav_file_path channels w = (Ok (), w').
Proof.
  unfold convert_audio, convert_audio_try.
  destruct (disk w !! wav_file_path) as [f|]; [|by eexists].
  destruct (audio_of env (origin f)); by eexists.
Qed.

(** After a copy that succeeded the destination holds the bytes of the
    source, normalized or not: the handler that deletes the destination is
    not reached. *)
Lemma process_file_after_copy env pack_dir subfolder channels w file_path :
  copy_of env file_path = CopyOk →
  let w' := process_file env pack_dir subfolder channels w file_path in
  disk w' !! dest_file_path pack_dir subfolder file_path
  = Some (Stored file_path true
            match audio_of env file_path with
            | AudioOk => Some channels
            | _ => None
            end).
Proof.
  intros Hcopy. unfold process_file, shutil_copy2. rewrite Hcopy.
  unfold convert_audio, convert_audio_try. simpl.
  rewrite lookup_insert_eq. simpl.
  destruct (audio_of env file_path); simpl; by rewrite ?lookup_insert_eq.
Qed.

(** A copy that breaks off midway is rolled back, if the system lets the
    destination be removed. *)
Lemma process_file_after_broken_copy env pack_dir subfolder channels w file_path :
  copy_of env file_path = CopyFailsMidway →
  unlink_of env (dest_file_path pack_dir subfolder file_path) = true →
  let w' := process_file env pack_dir subfolder channels w file_path in
  disk w' !! dest_file_path pack_dir subfolder file_path = None.
Proof.
  intros Hcopy Hunlink. unfold process_file, shutil_copy2. rewrite Hcopy. simpl.
  unfold path_exists. simpl. rewrite lookup_insert_eq.
  rewrite bool_decide_eq_true_2 by eauto. rewrite Hunlink. simpl.
  apply lookup_delete_eq.
Qed.

(** C7 — the run of the materializer on three chosen files of which the
    second cannot be decoded: processing continues with the third file, but
    the copy of the undecodable file stays on disk, not normalized, and the
    only thing recorded is the line [convert_audio] prints; neither the
    failure line nor the deletion line of [create_sample_pack] appears. *)
Theorem normalization_failure_leaves_copy :
  audio_of flaky_env "/lib/a/bad.wav" = AudioUndecodable ∧
  ∃ w, materialize flaky_env "/out/Pack" flaky_plan empty_world = Ok w ∧
       disk w !! "/out/Pack/Kick/k1.wav"
       = Some (Stored "/lib/a/k1.wav" true (Some 1)) ∧
       disk w !! "/out/Pack/Kick/bad.wav"
       = Some (Stored "/lib/a/bad.wav" true None) ∧
       disk w !! "/out/Pack/Kick/k2.wav"
       = Some (Stored "/lib/a/k2.wav" true (Some 1)) ∧
       printed w = ["Could not decode audio file: /out/Pack/Kick/bad.wav"].
Proof.
  split; [done|]. eexists. split; [by vm_compute|].
  split_and!; by vm_compute.
Qed.

(** ** Destination paths *)

(** C10 — the destination of a chosen file is
    [pack_dir / subfolder / file_path.name] and nothing else, so two chosen
    files of one category with the same name have the same destination; the
    later copy replaces the earlier one; and the disk can end up with fewer
    files than the plan lists, as for the two files named [k.wav]. *)
Theorem destinations_collide_on_equal_names :
  (∀ pack_dir subfolder file_path,
     dest_file_path pack_dir subfolder file_path
     = path_join (path_join pack_dir subfolder) (path_name file_path)) ∧
  (∀ pack_dir subfolder file1 file2,
     path_name file1 = path_name file2 →
     dest_file_path pack_dir subfolder file1
     = dest_file_path pack_dir subfolder file2) ∧
  (∀ env pack_dir subfolder channels w file1 file2,
     path_name file1 = path_name file2 →
     copy_of env file2 = CopyOk →
     let w' := process_file env pack_dir subfolder channels
                 (process_file env pack_dir subfolder channels w file1) file2 in
     origin <$> disk w' !! dest_file_path pack_dir subfolder file1 = Some file2) ∧
  (∃ w, materialize flaky_env "/out/Pack" clash_plan empty_world = Ok w ∧
        plan_total clash_plan = 2 ∧
        Z.of_nat (size (disk w)) = 1 ∧
        disk w !! "/out/Pack/Kick/k.wav" = Some (Stored "/lib/b/k.wav" true (Some 1))).
Proof.
  split_and!.
  - done.
  - intros pack_dir subfolder file1 file2 Hname. unfold dest_file_path.
    by rewrite Hname.
  - intros env pack_dir subfolder channels w file1 file2 Hname Hcopy w'.
    assert (dest_file_path pack_dir subfolder file1
            = dest_file_path pack_dir subfolder file2) as ->
      by (unfold dest_file_path; by rewrite Hname).
    unfold w'. by rewrite process_file_after_copy.
  - eexists. split; [by vm_compute|]. split_and!; by vm_compute.
Qed.

Lemma destinations_collide_on_equal_names_witness :
  dest_file_path "/out/Pack" "Kick" "/lib/a/k.wav"
  = dest_file_path "/out/Pack" "Kick" "/lib/b/k.wav" ∧
  origin <$> disk (process_file flaky_env "/out/Pack" "Kick" 1
                     (process_file flaky_env "/out/Pack" "Kick" 1 empty_world
                                   "/lib/a/k.wav")
                     "/lib/b/k.wav")
             !! dest_file_path "/out/Pack" "Kick" "/lib/a/k.wav"
  = Some "/lib/b/k.wav".
Proof.
  destruct destinations_collide_on_equal_names as (_ & Hsame & Hlater & _).
  split.
  - by apply Hsame.
  - by apply (Hlater flaky_env "/out/Pack" "Kick" 1 empty_world
                     "/lib/a/k.wav" "/lib/b/k.wav").
Defined.

(** The scenario of the specification for a budget of 25: three categories
    with ten candidates each end with exactly 25 files. *)
Example three_tens_reach_budget :
  ∃ st, allocate 25 three_tens_map (selected_subfolders three_tens_map) seed = Done st ∧
        plan_total (selected_files st) = 25.
Proof.
  destruct (allocate_full_budget 25 three_tens_map
              (selected_subfolders three_tens_map) seed)
    as (st & Hrun & Htotal & _).
  - lia.
  - apply (bool_decide_unpack _). by vm_compute.
  - by vm_compute.
  - right. by vm_compute.
  - intros k Hk. apply list_elem_of_In in Hk.
    destruct Hk as [<-|[<-|[<-|[]]]];
      (split; [apply (bool_decide_unpack _); by vm_compute | by vm_compute]).
  - exists st. split; assumption.
Qed.

(** * Further properties of [pack.py] *)

(** The plan is always built: no exception leaves the allocator and its fuel
    is never used up. *)
Lemma build_plan_returns (sample_map : dict (list Path)) (g : rng_state) :
  ∃ st, build_plan sample_map g = Done st.
Proof.
  destruct (allocate_rule (λ _, True) MAX_FILES_PER_PACK sample_map
              (selected_subfolders sample_map) g)
    as (st & Hrun & _); auto using MAX_FILES_PER_PACK_nonneg.
  by exists st.
Qed.

(** ** The plan, category by category *)

Lemma admitted_pool_lookup (sample_map : dict (list Path)) all_kinds k :
  default [] (dict_get (admitted_pools sample_map all_kinds) k)
  = if decide (k ∈ all_kinds) then default [] (dict_get sample_map k) else [].
Proof. rewrite dict_get_admitted. by case_decide. Qed.

Lemma plan_slots (sample_map : dict (list Path)) (g : rng_state) :
  ∃ st, build_plan sample_map g = Done st ∧
        dict_keys (selected_files st) = dict_keys sample_map ∧
        ∀ k, chosen_of st k ⊆+ default [] (dict_get sample_map k) ∧
             (∀ f, f ∈ chosen_of st k → f ∈ default [] (dict_get sample_map k)) ∧
             len (chosen_of st k) ≤ len (default [] (dict_get sample_map k)) ∧
             (k ∉ selected_subfolders sample_map → chosen_of st k = []).
Proof.
  destruct (allocate_rule (within_pools sample_map (selected_subfolders sample_map))
              MAX_FILES_PER_PACK sample_map (selected_subfolders sample_map) g)
    as (st & Hrun & _ & [Hkeys Hsub] & _); auto using MAX_FILES_PER_PACK_nonneg.
  { intros. by eapply draw_step_within. }
  { apply initial_state_within. }
  exists st. split; [done|]. split; [done|]. intros k.
  assert (chosen_of st k
          ⊆+ default [] (dict_get (admitted_pools sample_map
                                     (selected_subfolders sample_map)) k)) as Hk.
  { etrans; [|apply Hsub]. by apply submseteq_inserts_r. }
  rewrite admitted_pool_lookup in Hk.
  destruct (decide (k ∈ selected_subfolders sample_map)) as [Hin|Hout].
  - split_and!; [done | | | done].
    + intros f Hf. by eapply elem_of_submseteq.
    + apply submseteq_length in Hk. unfold len. lia.
  - apply submseteq_nil_r in Hk. rewrite Hk. split_and!; [|by intros f ?%elem_of_nil| |done].
    + apply submseteq_nil_l.
    + unfold len. simpl. lia.
Qed.

(** No over-draw: the files chosen for a category are files of its own pool,
    no more of them than the pool lists, and a category that was not
    admitted gets none. The plan keeps one slot per category of the mapping,
    in the order of the mapping. *)
Theorem chosen_files_come_from_own_pool (sample_map : dict (list Path))
    (g : rng_state) :
  ∃ st, build_plan sample_map g = Done st ∧
        dict_keys (selected_files st) = dict_keys sample_map ∧
        ∀ k, chosen_of st k ⊆+ default [] (dict_get sample_map k) ∧
             (∀ f, f ∈ chosen_of st k → f ∈ default [] (dict_get sample_map k)) ∧
             len (chosen_of st k) ≤ len (default [] (dict_get sample_map k)) ∧
             (k ∉ selected_subfolders sample_map → chosen_of st k = []).
Proof. exact (plan_slots sample_map g). Qed.

Lemma dict_get_elem_of {V} (d : dict V) k v :
  NoDup (dict_keys d) → (k, v) ∈ d → dict_get d k = Some v.
Proof.
  unfold dict_keys. induction d as [|[k' v'] d IH]; csimpl; intros Hnd Hin.
  - by apply elem_of_nil in Hin.
  - apply NoDup_cons in Hnd as [Hk' Hnd].
    apply elem_of_cons in Hin as [[= <- <-]|Hin]; [by rewrite decide_True|].
    rewrite decide_False; [by apply IH|].
    intros ->. apply Hk'. by apply (list_elem_of_fmap_2 fst) in Hin.
Qed.

Lemma plan_folders (sample_map : dict (list Path)) (g : rng_state) :
  NoDup (dict_keys sample_map) →
  ∃ st, build_plan sample_map g = Done st ∧
        (∀ k files, (k, files) ∈ selected_files st → files ≠ [] →
                    k ∈ selected_subfolders sample_map) ∧
        (length (filter (λ kv, kv.2 ≠ []) (selected_files st))
         ≤ MAX_FOLDERS_PER_PACK)%nat.
Proof.
  intros Hnd.
  destruct (plan_slots sample_map g) as (st & Hrun & Hkeys & Hslots).
  assert (∀ k files, (k, files) ∈ selected_files st → files ≠ [] →
                     k ∈ selected_subfolders sample_map) as Hadmitted.
  { intros k files Hin Hne.
    destruct (decide (k ∈ selected_subfolders sample_map)) as [|Hout]; [done|].
    destruct (Hslots k) as (_ & _ & _ & Hnone). specialize (Hnone Hout).
    unfold chosen_of in Hnone.
    rewrite (dict_get_elem_of _ k files) in Hnone; [done | by rewrite Hkeys | done]. }
  exists st. split_and!; [done | done |].
  etrans; [|apply (selected_subfolders_length sample_map)].
  rewrite <-(length_fmap fst). apply submseteq_length, NoDup_submseteq.
  - eapply sublist_NoDup; [|apply fmap_sublist, sublist_filter].
    fold (dict_keys (selected_files st)). by rewrite Hkeys.
  - intros k ([k' files] & -> & [Hne Hin]%list_elem_of_filter)%list_elem_of_fmap.
    by eapply Hadmitted.
Qed.

(** Folder bound of the plan: at most [MAX_FOLDERS_PER_PACK] categories end
    up with files, and they are admitted categories. *)
Theorem plan_fills_at_most_twenty_folders (sample_map : dict (list Path))
    (g : rng_state) :
  NoDup (dict_keys sample_map) →
  ∃ st, build_plan sample_map g = Done st ∧
        (∀ k files, (k, files) ∈ selected_files st → files ≠ [] →
                    k ∈ selected_subfolders sample_map) ∧
        (length (filter (λ kv, kv.2 ≠ []) (selected_files st))
         ≤ MAX_FOLDERS_PER_PACK)%nat.
Proof. exact (plan_folders sample_map g). Qed.

Lemma plan_fills_at_most_twenty_folders_witness :
  ∃ st, build_plan crowded_map seed = Done st ∧
        (length (filter (λ kv, kv.2 ≠ []) (selected_files st))
         ≤ MAX_FOLDERS_PER_PACK)%nat.
Proof.
  destruct (plan_fills_at_most_twenty_folders crowded_map seed)
    as (st & Hrun & _ & Hcount).
  - apply (bool_decide_unpack _). by vm_compute.
  - exists st. split; [exact Hrun | exact Hcount].
Defined.

Lemma chosen_files_come_from_own_pool_witness :
  ∃ st, build_plan scarce_map seed = Done st ∧ chosen_of st "Tom" = [].
Proof.
  destruct (chosen_files_come_from_own_pool scarce_map seed)
    as (st & Hrun & _ & Hslots).
  exists st. split; [exact Hrun|].
  destruct (Hslots "Tom") as (_ & _ & _ & Hnone). apply Hnone.
  intros Hin%list_elem_of_In. vm_compute in Hin. intuition discriminate.
Defined.

(** ** Every admitted category is served *)

Lemma selected_subfolders_available (sample_map : dict (list Path)) k :
  k ∈ selected_subfolders sample_map → k ∈ available_subfolders sample_map.
Proof.
  assert (∀ k, k ∈ prioritized_subfolders sample_map →
               k ∈ available_subfolders sample_map) as Hprio.
  { intros k'. unfold prioritized_subfolders. by intros [? _]%list_elem_of_filter. }
  assert (∀ k, k ∈ remaining_subfolders sample_map →
               k ∈ available_subfolders sample_map) as Hrest.
  { intros k'. unfold remaining_subfolders. by intros [_ ?]%list_elem_of_filter. }
  unfold selected_subfolders. cbv zeta. repeat case_decide; try done.
  - intros [?%elem_of_take_1|?%elem_of_take_1]%elem_of_app; auto.
  - intros ?%elem_of_take_1. auto.
Qed.

Lemma draw_step_chosen_mono quota k k' st st' :
  draw_step quota k st st' → len (chosen_of st k') ≤ len (chosen_of st' k').
Proof.
  intros [| |kind_val chosen random_subset g n Hget Hchosen]; [done | done |].
  unfold chosen_of. simpl. destruct (decide (k = k')) as [<-|Hne].
  - rewrite dict_get_set_eq, Hchosen. simpl. unfold len. rewrite length_app. lia.
  - by rewrite dict_get_set_ne.
Qed.

Lemma draw_steps_chosen_mono quota ks k' st st' :
  draw_steps quota ks st st' → len (chosen_of st k') ≤ len (chosen_of st' k').
Proof.
  induction 1 as [|k ks st st1 st2 Hstep _ IH]; [done|].
  etrans; [by eapply draw_step_chosen_mono | done].
Qed.

Lemma draw_step_exact_chosen budget supply quota k st st' :
  alloc_inv budget supply st → 0 < quota →
  Z.min quota (len (remaining_of st k)) ≤ files_left st →
  draw_step quota k st st' →
  len (chosen_of st' k)
  = len (chosen_of st k) + Z.min quota (len (remaining_of st k)).
Proof.
  intros Hinv Hq Hcover Hstep.
  destruct Hstep as [Hskip | kind_val Hget Hne _ Hzero
                    | kind_val chosen random_subset g n Hget Hchosen Hne _ Hn Hpos Hs].
  - destruct Hskip as [Hempty|?]; [|lia].
    unfold remaining_of. rewrite Hempty. unfold len at 3. simpl. lia.
  - unfold remaining_of in Hcover. rewrite Hget in Hcover. simpl in Hcover.
    pose proof (len_pos kind_val Hne). lia.
  - unfold remaining_of, chosen_of in *. rewrite Hget, Hchosen in *. simpl in *.
    rewrite dict_get_set_eq. simpl.
    pose proof (len_pos kind_val Hne) as Hlen.
    destruct (draw_take_length kind_val random_subset n (rng st) g) as [Hl _];
      [lia | lia | done |].
    unfold len in *. rewrite length_app. lia.
Qed.

(** A pass that the budget covers gives every category its share. *)
Lemma draw_steps_exact_chosen budget supply quota ks st st' :
  NoDup ks → alloc_inv budget supply st → 0 < quota →
  pass_demand quota st ks ≤ files_left st →
  draw_steps quota ks st st' →
  ∀ k, k ∈ ks →
       len (chosen_of st k) + Z.min quota (len (remaining_of st k))
       ≤ len (chosen_of st' k).
Proof.
  intros Hnd Hinv Hq Hcover Hsteps. revert Hnd Hinv Hcover.
  induction Hsteps as [|k ks st st1 st2 Hstep Hrest IH]; intros Hnd Hinv Hcover.
  - by intros k ?%elem_of_nil.
  - apply NoDup_cons in Hnd as [Hk Hnd]. simpl in Hcover.
    assert (0 ≤ pass_demand quota st ks) as Hrest_nonneg
      by (apply pass_demand_nonneg; lia).
    assert (Z.min quota (len (remaining_of st k)) ≤ files_left st) as Hcover1
      by lia.
    pose proof (draw_step_exact_chosen _ _ _ _ _ _ Hinv Hq Hcover1 Hstep) as Hhead.
    destruct (draw_step_exact _ _ _ _ _ _ Hinv Hq Hcover1 Hstep) as (Hleft1 & _).
    assert (pass_demand quota st1 ks = pass_demand quota st ks) as Hdemand.
    { apply pass_demand_other. intros k' Hk'.
      eapply draw_step_other; [|done]. by intros ->. }
    intros k' [->|Hk']%elem_of_cons.
    + rewrite <-Hhead. by eapply draw_steps_chosen_mono.
    + assert (remaining_of st1 k' = remaining_of st k') as Heq.
      { eapply draw_step_other; [|done]. by intros ->. }
      rewrite <-Heq.
      pose proof (draw_step_chosen_mono quota k k' st st1 Hstep).
      assert (len (chosen_of st1 k') + Z.min quota (len (remaining_of st1 k'))
              ≤ len (chosen_of st2 k')) as Htail.
      { apply IH; [done | by eapply draw_step_inv | lia | done]. }
      lia.
Qed.

Lemma admitted_categories_served (sample_map : dict (list Path)) (g : rng_state) :
  NoDup (dict_keys sample_map) →
  let all_kinds := selected_subfolders sample_map in
  ∃ st, build_plan sample_map g = Done st ∧
        ∀ k, k ∈ all_kinds →
             Z.min (MAX_FILES_PER_PACK / len all_kinds)
                   (len (default [] (dict_get sample_map k)))
             ≤ len (chosen_of st k) ∧
             1 ≤ len (chosen_of st k).
Proof.
  intros Hkeys all_kinds.
  destruct (decide (all_kinds = [])) as [Hnone|Hsome].
  { destruct (build_plan_returns sample_map g) as [st Hrun].
    exists st. split; [done|]. fold all_kinds. rewrite Hnone.
    by intros k ?%elem_of_nil. }
  pose proof (len_pos all_kinds Hsome) as Hn.
  pose proof (selected_subfolders_length sample_map) as Hcap.
  pose proof (selected_subfolders_NoDup sample_map Hkeys) as Hnd.
  fold all_kinds in Hcap, Hnd.
  set (q := MAX_FILES_PER_PACK / len all_kinds).
  assert (12 ≤ q ≤ 255) as Hq.
  { unfold q, MAX_FILES_PER_PACK, MAX_FOLDERS_PER_PACK, len in *. split.
    - apply Z.div_le_lower_bound; lia.
    - apply Z.div_le_upper_bound; lia. }
  assert (len all_kinds * q ≤ MAX_FILES_PER_PACK) as Hfit
    by (unfold q; apply Z.mul_div_le; lia).
  set (st0 := initial_state MAX_FILES_PER_PACK sample_map all_kinds g).
  pose proof (initial_state_inv MAX_FILES_PER_PACK sample_map all_kinds g
                MAX_FILES_PER_PACK_nonneg) as Hinv0.
  fold st0 in Hinv0.
  assert (∀ k, k ∈ all_kinds →
               remaining_of st0 k = default [] (dict_get sample_map k) ∧
               default [] (dict_get sample_map k) ≠ []) as Hpools.
  { intros k Hk. unfold remaining_of. simpl.
    rewrite admitted_pool_lookup, decide_True by done. split; [done|].
    apply selected_subfolders_available, available_subfolders_spec in Hk
      as (pool & Hin & Hne).
    by rewrite (dict_get_elem_of sample_map k pool). }
  (* the first round *)
  destruct (round_body_steps MAX_FILES_PER_PACK
              (total_supply sample_map all_kinds) all_kinds st0)
    as (st1 & Hbody1 & Hsteps1); [lia | done | done |].
  simpl round_index in Hsteps1. rewrite Z.div_1_r in Hsteps1. fold q in Hsteps1.
  pose proof (clear_not_empty_inv _ _ _ Hinv0) as Hinv0'.
  assert (pass_demand q (clear_not_empty st0) all_kinds
          ≤ files_left (clear_not_empty st0)) as Hcover.
  { etrans; [apply pass_demand_le; lia|]. simpl. lia. }
  assert (0 < q) as Hq0 by lia.
  pose proof (draw_steps_exact_chosen _ _ _ _ _ _ Hnd Hinv0' Hq0 Hcover Hsteps1)
    as Hserved.
  pose proof (draw_steps_inv _ _ _ _ _ _ Hinv0' Hsteps1) as Hinv1.
  pose proof (draw_steps_round_index _ _ _ _ Hsteps1) as Hidx1. simpl in Hidx1.
  (* the rest of the loop only adds to the plan *)
  set (J := λ st : alloc_state,
         ∀ k, k ∈ all_kinds →
              Z.min q (len (default [] (dict_get sample_map k)))
              ≤ len (chosen_of st k)).
  destruct (while_loop_rule MAX_FILES_PER_PACK (total_supply sample_map all_kinds)
              all_kinds J MAX_FILES_PER_PACK_nonneg) with
    (fuel := S (Z.to_nat MAX_FILES_PER_PACK)) (st := next_round st1)
    as (st & Hrun & _ & HJ & _).
  - intros quota k s s' Hs Hstep k' Hk'.
    etrans; [by apply Hs|]. by eapply draw_step_chosen_mono.
  - done.
  - done.
  - by apply next_round_inv.
  - intros k Hk. destruct (Hpools k Hk) as [Hrem _].
    specialize (Hserved k Hk). rewrite remaining_of_clear, Hrem in Hserved.
    change (chosen_of (clear_not_empty st0) k) with (chosen_of st0 k) in Hserved.
    unfold st0 in Hserved at 1. rewrite chosen_of_initial in Hserved.
    change (chosen_of (next_round st1) k) with (chosen_of st1 k).
    unfold len in Hserved at 1. simpl in Hserved. lia.
  - simpl. fold q. lia.
  - simpl. fold q. lia.
  - simpl. fold q. unfold MAX_FILES_PER_PACK in *. lia.
  - exists st. split.
    + unfold build_plan, allocate, loop_fuel. fold all_kinds st0.
      replace (Z.to_nat MAX_FILES_PER_PACK + 2)%nat
        with (S (S (Z.to_nat MAX_FILES_PER_PACK))) by lia.
      by rewrite (while_loop_step _ _ _ st0 (next_round st1)); [| | lia |].
    + intros k Hk. specialize (HJ k Hk). split; [done|].
      destruct (Hpools k Hk) as [_ Hne]. apply len_pos in Hne. lia.
Qed.

(** Every admitted category is served in the first round: it ends with at
    least [min(floor(MAX_FILES_PER_PACK / len(all_kinds)), len(pool))] files,
    which is at least one. *)
Theorem every_admitted_category_is_served (sample_map : dict (list Path))
    (g : rng_state) :
  NoDup (dict_keys sample_map) →
  let all_kinds := selected_subfolders sample_map in
  ∃ st, build_plan sample_map g = Done st ∧
        ∀ k, k ∈ all_kinds →
             Z.min (MAX_FILES_PER_PACK / len all_kinds)
                   (len (default [] (dict_get sample_map k)))
             ≤ len (chosen_of st k) ∧
             1 ≤ len (chosen_of st k).
Proof. exact (admitted_categories_served sample_map g). Qed.

Lemma every_admitted_category_is_served_witness :
  ∃ st, build_plan scarce_map seed = Done st ∧ 2 ≤ len (chosen_of st "Kick").
Proof.
  destruct (every_admitted_category_is_served scarce_map seed) as (st & Hrun & Hall).
  - apply (bool_decide_unpack _). by vm_compute.
  - exists st. split; [exact Hrun|].
    destruct (Hall "Kick") as [Hshare _]; [apply list_elem_of_here|].
    exact Hshare.
Defined.

(** ** What the first round guarantees *)

Lemma plan_total_cons (k : string) (files : list Path) (plan : dict (list Path)) :
  plan_total ((k, files) :: plan) = len files + plan_total plan.
Proof. done. Qed.

Lemma dict_get_filter_ne {V} (d : dict V) k k' :
  k' ≠ k → dict_get (filter (λ kv, kv.1 ≠ k) d) k' = dict_get d k'.
Proof.
  intros Hne. induction d as [|[k0 v0] d IH]; [done|].
  rewrite filter_cons. cbn [fst dict_get].
  destruct (decide (k0 ≠ k)) as [Hk0|Hk0]; cbn [dict_get].
  - destruct (decide (k0 = k')); [done | apply IH].
  - apply dec_stable in Hk0 as ->. by rewrite decide_False.
Qed.

Lemma plan_total_split (plan : dict (list Path)) k :
  len (default [] (dict_get plan k)) + plan_total (filter (λ kv, kv.1 ≠ k) plan)
  ≤ plan_total plan.
Proof.
  induction plan as [|[k0 v0] plan IH]; [done|].
  rewrite filter_cons, plan_total_cons. cbn [fst dict_get].
  pose proof (plan_total_nonneg (filter (λ kv, kv.1 ≠ k) plan)).
  pose proof (len_nonneg v0).
  destruct (decide (k0 ≠ k)) as [Hk0|Hk0].
  - rewrite plan_total_cons, decide_False by done. lia.
  - apply dec_stable in Hk0 as ->. rewrite decide_True by done. simpl.
    assert (plan_total (filter (λ kv, kv.1 ≠ k) plan) ≤ plan_total plan); [|lia].
    pose proof (len_nonneg (default [] (dict_get plan k))). lia.
Qed.

Lemma foldr_sum_le (f f' : string → Z) (ks : list string) :
  (∀ k, k ∈ ks → f k ≤ f' k) →
  foldr (λ k acc, f k + acc) 0 ks ≤ foldr (λ k acc, f' k + acc) 0 ks.
Proof.
  induction ks as [|k ks IH]; intros Hle; simpl; [done|].
  pose proof (Hle k (list_elem_of_here _ _)).
  assert (∀ k', k' ∈ ks → f k' ≤ f' k') as Hrest
    by (intros k' Hk'; by apply Hle, list_elem_of_further).
  specialize (IH Hrest). lia.
Qed.

Lemma foldr_sum_const (f : string → Z) (q : Z) (ks : list string) :
  (∀ k, k ∈ ks → f k = q) →
  foldr (λ k acc, f k + acc) 0 ks = len ks * q.
Proof.
  induction ks as [|k ks IH]; intros Hq; [done|]. simpl.
  rewrite IH by (intros k' Hk'; by apply Hq, list_elem_of_further).
  rewrite (Hq k) by apply list_elem_of_here.
  unfold len. simpl length. lia.
Qed.

(** Distinct categories own distinct slots of a plan. *)
Lemma plan_total_covers (ks : list string) (plan : dict (list Path)) :
  NoDup ks →
  foldr (λ k acc, len (default [] (dict_get plan k)) + acc) 0 ks
  ≤ plan_total plan.
Proof.
  revert plan. induction ks as [|k ks IH]; intros plan Hnd; simpl.
  - apply plan_total_nonneg.
  - apply NoDup_cons in Hnd as [Hk Hnd].
    etrans; [|apply (plan_total_split plan k)].
    apply Z.add_le_mono_l. etrans; [|apply (IH _ Hnd)].
    clear IH Hnd. induction ks as [|k' ks IH]; [done|].
    apply not_elem_of_cons in Hk as [Hne Hk]. simpl.
    rewrite dict_get_filter_ne by done. specialize (IH Hk). lia.
Qed.

(** The first round is guaranteed: when the mapping is a dict, the plan
    holds at least what the first round hands out, the quota
    [255 // len(all_kinds)] or the whole pool for each admitted category.
    So when every admitted pool lists at least the quota, the plan is short
    of the budget by fewer files than there are admitted categories, at
    most 19. *)
Theorem first_round_is_guaranteed (sample_map : dict (list Path)) (g : rng_state) :
  NoDup (dict_keys sample_map) →
  let all_kinds := selected_subfolders sample_map in
  ∃ st, build_plan sample_map g = Done st ∧
        first_round_share sample_map ≤ plan_total (selected_files st) ∧
        (all_kinds ≠ [] →
         (∀ k, k ∈ all_kinds →
               MAX_FILES_PER_PACK / len all_kinds
               ≤ len (default [] (dict_get sample_map k))) →
         MAX_FILES_PER_PACK - len all_kinds < plan_total (selected_files st) ∧
         MAX_FILES_PER_PACK - 19 ≤ plan_total (selected_files st)).
Proof.
  intros Hnd all_kinds.
  destruct (admitted_categories_served sample_map g Hnd) as (st & Hrun & Hserved).
  fold all_kinds in Hserved.
  assert (first_round_share sample_map ≤ plan_total (selected_files st)) as Hshare.
  { etrans; [|apply (plan_total_covers all_kinds), selected_subfolders_NoDup, Hnd].
    unfold first_round_share. fold all_kinds. cbv zeta.
    apply (foldr_sum_le
             (λ k, Z.min (MAX_FILES_PER_PACK / len all_kinds)
                         (len (default [] (dict_get sample_map k))))
             (λ k, len (default [] (dict_get (selected_files st) k)))).
    intros k Hk. by destruct (Hserved k Hk). }
  exists st. split_and!; [done | done |].
  intros Hsome Hfull.
  assert (first_round_share sample_map
          = len all_kinds * (MAX_FILES_PER_PACK / len all_kinds)) as Heq.
  { unfold first_round_share. fold all_kinds. cbv zeta.
    apply (foldr_sum_const
             (λ k, Z.min (MAX_FILES_PER_PACK / len all_kinds)
                         (len (default [] (dict_get sample_map k))))).
    intros k Hk. apply Z.min_l. by apply Hfull. }
  pose proof (len_pos all_kinds Hsome) as Hn.
  pose proof (selected_subfolders_length sample_map) as Hcap. fold all_kinds in Hcap.
  pose proof (Z.mod_pos_bound MAX_FILES_PER_PACK (len all_kinds) Hn) as Hmod.
  pose proof (Z.div_mod MAX_FILES_PER_PACK (len all_kinds)) as Hdiv.
  unfold MAX_FOLDERS_PER_PACK, len in *. lia.
Qed.

Lemma first_round_is_guaranteed_witness :
  ∃ st, build_plan three_tens_map seed = Done st ∧
        30 ≤ plan_total (selected_files st).
Proof.
  destruct (first_round_is_guaranteed three_tens_map seed) as (st & Hrun & Hshare & _).
  - apply (bool_decide_unpack _). by vm_compute.
  - exists st. split; [exact Hrun|].
    change (first_round_share three_tens_map) with 30 in Hshare. exact Hshare.
Defined.

(** ** Why the loop stops *)

(** A pass that leaves the flag down has skipped every category. *)
Lemma draw_steps_all_skipped quota ks st st' :
  draw_steps quota ks st st' → not_empty st' = false →
  st' = st ∧ (quota ≤ 0 ∨ ∀ k, k ∈ ks → remaining_of st k = []).
Proof.
  induction 1 as [|k ks st st1 st2 Hstep _ IH]; intros Hflag.
  - split; [done|]. right. by intros k ?%elem_of_nil.
  - destruct (IH Hflag) as [-> Hrest].
    destruct Hstep as [Hskip| |]; [|done..].
    split; [done|]. destruct Hskip as [Hempty|?]; [|by left].
    destruct Hrest as [?|Hrest]; [by left|]. right.
    intros k' [->|Hk']%elem_of_cons; [done | by apply Hrest].
Qed.

(** The allocator stops for one of three reasons: the budget is spent, the
    admitted pools are drained, or the quota of the last round was zero.
    With at least one admitted category the plan therefore totals
    [MAX_FILES_PER_PACK] unless every admitted pool is empty at the end or
    [floor(floor(MAX_FILES_PER_PACK / len(all_kinds)) / i)] was 0 in the
    last round [i]. *)
Theorem allocator_stops_for_a_reason (sample_map : dict (list Path))
    (g : rng_state) :
  let all_kinds := selected_subfolders sample_map in
  all_kinds ≠ [] →
  ∃ st, build_plan sample_map g = Done st ∧
        1 ≤ rounds_executed st ∧
        (plan_total (selected_files st) = MAX_FILES_PER_PACK ∨
         (∀ k, k ∈ all_kinds → remaining_of st k = []) ∨
         MAX_FILES_PER_PACK / len all_kinds / rounds_executed st = 0).
Proof.
  intros all_kinds Hsome.
  pose proof (len_pos all_kinds Hsome) as Hn.
  destruct (allocate_rule (λ _, True) MAX_FILES_PER_PACK sample_map all_kinds g)
    as (st & Hrun & Hinv & _ & _ & Hexit); auto using MAX_FILES_PER_PACK_nonneg.
  destruct Hexit as [Hexit|?]; [|done].
  destruct (while_loop_ends_at_head _ _ _ _ 0 _ st
              (head_first MAX_FILES_PER_PACK all_kinds
                 (initial_state MAX_FILES_PER_PACK sample_map all_kinds g)) Hrun)
    as [r Hhead].
  exists st. split; [exact Hrun|].
  destruct Hhead as [|r prev st Hprev Hc _ Hbody]; [done|].
  apply loop_head_inv in Hprev as [Hinv_prev Hidx_prev]; [|done].
  destruct (round_body_steps MAX_FILES_PER_PACK (total_supply sample_map all_kinds)
              all_kinds prev) as (st1 & Heq & Hsteps); [lia | lia | done |].
  rewrite Heq in Hbody. injection Hbody as <-.
  pose proof (draw_steps_round_index _ _ _ _ Hsteps) as Hidx1. simpl in Hidx1.
  assert (rounds_executed (next_round st1) = round_index prev) as Hrounds
    by (unfold rounds_executed; simpl; lia).
  rewrite Hrounds. split; [lia|].
  destruct Hinv as [Hleft Hbudget Htotal _ _]. simpl in *.
  destruct (decide (files_left st1 = 0)) as [Hzero|Hpos]; [left; lia|].
  right. unfold loop_condition in Hexit. simpl in Hexit.
  rewrite bool_decide_eq_true_2 in Hexit by lia. simpl in Hexit.
  destruct (draw_steps_all_skipped _ _ _ _ Hsteps Hexit) as [-> Hskipped].
  destruct Hskipped as [Hquota|Hempty]; [right | by left].
  assert (0 ≤ MAX_FILES_PER_PACK / len all_kinds / round_index prev); [|lia].
  pose proof MAX_FILES_PER_PACK_nonneg.
  apply Z.div_pos; [apply Z.div_pos|]; lia.
Qed.

Lemma allocator_stops_for_a_reason_witness :
  ∃ st, build_plan long_tail_map seed = Done st ∧
        MAX_FILES_PER_PACK / len (selected_subfolders long_tail_map)
          / rounds_executed st = 0.
Proof.
  destruct (allocator_stops_for_a_reason long_tail_map seed)
    as (st & Hrun & _ & Hwhy); [done|].
  exists st. split; [exact Hrun|].
  assert (build_plan long_tail_map seed = Done st → rounds_executed st = 26) as Hr.
  { vm_compute. by intros [= <-]. }
  rewrite (Hr Hrun). by vm_compute.
Defined.

(** ** How many files the plan holds *)

Lemma offered_nonneg q r : 0 ≤ q → 0 ≤ offered q r.
Proof.
  intros Hq. induction r as [|r IH]; simpl offered; [done|].
  assert (0 ≤ q / Z.of_nat (S r)) by (apply Z.div_pos; lia). lia.
Qed.

Lemma offered_mono q r r' : 0 ≤ q → (r ≤ r')%nat → offered q r ≤ offered q r'.
Proof.
  intros Hq Hle. induction Hle as [|r' _ IH]; [done|]. simpl offered.
  assert (0 ≤ q / Z.of_nat (S r')) by (apply Z.div_pos; lia). lia.
Qed.

(** From round [q + 1] on the quota is 0 and nothing more is offered. *)
Lemma offered_stable q r :
  0 ≤ q → (Z.to_nat q ≤ r)%nat → offered q r = offered q (Z.to_nat q).
Proof.
  intros Hq Hle. induction Hle as [|r' Hle IH]; [done|]. simpl offered.
  rewrite IH, Z.div_small; lia.
Qed.

Lemma offered_le_all q r : 0 ≤ q → offered q r ≤ offered q (Z.to_nat q).
Proof.
  intros Hq. destruct (decide (r ≤ Z.to_nat q)%nat).
  - by apply offered_mono.
  - rewrite (offered_stable q r); [done | done | lia].
Qed.

Lemma foldr_sum_ext (f f' : string → Z) (ks : list string) :
  (∀ k, k ∈ ks → f k = f' k) →
  foldr (λ k acc, f k + acc) 0 ks = foldr (λ k acc, f' k + acc) 0 ks.
Proof.
  induction ks as [|k ks IH]; intros Heq; simpl; [done|].
  rewrite (Heq k) by apply list_elem_of_here.
  rewrite IH; [done|]. intros k' Hk'. by apply Heq, list_elem_of_further.
Qed.

Lemma foldr_sum_plus (f f' : string → Z) (ks : list string) :
  foldr (λ k acc, (f k + f' k) + acc) 0 ks
  = foldr (λ k acc, f k + acc) 0 ks + foldr (λ k acc, f' k + acc) 0 ks.
Proof. induction ks as [|k ks IH]; simpl; [done|]. rewrite IH. lia. Qed.

Lemma draw_steps_zero_quota quota ks st st' :
  quota ≤ 0 → draw_steps quota ks st st' → st' = st.
Proof.
  intros Hq. induction 1 as [|k ks st st1 st2 Hstep _ IH]; [done|].
  rewrite IH. destruct Hstep; [done | lia | lia].
Qed.

Lemma draw_step_left_le quota k st st' :
  0 ≤ files_left st → draw_step quota k st st' →
  files_left st' ≤ files_left st.
Proof. intros Hleft []; simpl; lia. Qed.

Lemma draw_steps_left_zero budget supply quota ks st st' :
  alloc_inv budget supply st → files_left st = 0 →
  draw_steps quota ks st st' → files_left st' = 0.
Proof.
  intros Hinv Hzero Hsteps. revert Hinv Hzero.
  induction Hsteps as [|k ks st st1 st2 Hstep _ IH]; intros Hinv Hzero; [done|].
  pose proof (draw_step_inv _ _ _ _ _ _ Hinv Hstep) as Hinv1.
  apply IH; [done|].
  pose proof (draw_step_left_le quota k st st1 ltac:(lia) Hstep).
  destruct Hinv1. lia.
Qed.

(** A pass that asks for at least what is left of the budget spends it. *)
Lemma draw_steps_spend budget supply quota ks st st' :
  NoDup ks → alloc_inv budget supply st → 0 < quota →
  files_left st ≤ pass_demand quota st ks →
  draw_steps quota ks st st' → files_left st' = 0.
Proof.
  intros Hnd Hinv Hq Hdemand Hsteps. revert Hnd Hinv Hdemand.
  induction Hsteps as [|k ks st st1 st2 Hstep Hrest IH]; intros Hnd Hinv Hdemand.
  - simpl in Hdemand. destruct Hinv. lia.
  - apply NoDup_cons in Hnd as [Hk Hnd]. simpl in Hdemand.
    pose proof (draw_step_inv _ _ _ _ _ _ Hinv Hstep) as Hinv1.
    destruct (decide (Z.min quota (len (remaining_of st k)) ≤ files_left st))
      as [Hcover|Hshort].
    + destruct (draw_step_exact _ _ _ _ _ _ Hinv Hq Hcover Hstep) as (Hleft1 & _).
      apply IH; [done | done |].
      rewrite (pass_demand_other quota ks st st1); [lia|].
      intros k' Hk'. eapply draw_step_other; [|done]. by intros ->.
    + eapply draw_steps_left_zero; [done | | done].
      destruct Hinv as [Hleft _ _ _ _].
      destruct Hstep as [[Hempty|?] | | kind_val chosen random_subset g n Hget _ _ _ Hn _ _];
        simpl.
      * unfold remaining_of in Hshort. rewrite Hempty in Hshort.
        unfold len in Hshort. simpl in Hshort. lia.
      * lia.
      * done.
      * unfold remaining_of in Hshort. rewrite Hget in Hshort. simpl in Hshort. lia.
Qed.

Lemma loop_head_zero budget all_kinds st0 st :
  loop_head budget all_kinds st0 0 st → st = st0.
Proof. by inversion 1. Qed.

(** The state at the head of the loop, round after round. *)
Lemma loop_head_rounds budget sample_map all_kinds g r st :
  0 ≤ budget → NoDup all_kinds →
  (∀ k, k ∈ all_kinds → NoDup (default [] (dict_get sample_map k))) →
  loop_head budget all_kinds (initial_state budget sample_map all_kinds g) r st →
  rounds_inv budget (λ k, default [] (dict_get sample_map k)) all_kinds r st.
Proof.
  intros Hb Hnd Hpools Hhead.
  set (pools := λ k, default [] (dict_get sample_map k)).
  set (q := budget / len all_kinds).
  assert (0 ≤ q) as Hq.
  { unfold q. destruct (decide (len all_kinds = 0)) as [->|Hn].
    - by rewrite Z.div_0_r.
    - pose proof (len_nonneg all_kinds). apply Z.div_pos; lia. }
  induction Hhead as [|r st st' Hhead IH Hc Hn Hbody].
  - unfold rounds_inv. cbv zeta. fold q. split; [|done]. right. split.
    + intros k Hk. unfold remaining_of. simpl.
      rewrite admitted_pool_lookup, decide_True by done. fold (pools k).
      split; [by apply Hpools|]. simpl offered.
      pose proof (len_nonneg (pools k)). lia.
    + simpl. unfold share_after. simpl offered.
      assert (foldr (λ k acc, Z.min (len (pools k)) 0 + acc) 0 all_kinds = 0) as ->;
        [|lia].
      clear. induction all_kinds as [|k ks IH]; simpl; [done|].
      pose proof (len_nonneg (pools k)). lia.
  - destruct (loop_head_inv budget sample_map all_kinds g r st Hb Hhead)
      as [Hinv Hidx].
    destruct (round_body_steps budget (total_supply sample_map all_kinds)
                all_kinds st) as (st1 & Heq & Hsteps); [done | lia | done |].
    rewrite Heq in Hbody. injection Hbody as <-.
    rewrite Hidx in Hsteps. fold q in Hsteps.
    replace (Z.of_nat r + 1) with (Z.of_nat (S r)) in Hsteps by lia.
    set (quota := q / Z.of_nat (S r)) in *.
    assert (0 ≤ quota) as Hquota by (apply Z.div_pos; lia).
    pose proof (clear_not_empty_inv _ _ _ Hinv) as Hinv'.
    apply andb_true_iff in Hc as [Hleft%bool_decide_eq_true _].
    destruct IH as [[[Hzero _]|[Hrem Hbooks]] _]; [lia|]. fold q in Hrem, Hbooks.
    unfold rounds_inv. cbv zeta. fold q. split.
    2: { (* why a round left the flag down *)
         change (not_empty (next_round st1)) with (not_empty st1). intros Hflag.
         destruct (draw_steps_all_skipped _ _ _ _ Hsteps Hflag) as [-> Hwhy].
         fold quota. destruct Hwhy as [?|Hempty]; [by left | by right]. }
    assert (∀ k, Z.min (len (pools k)) (offered q r)
                 + Z.min quota (len (pools k) - Z.min (len (pools k)) (offered q r))
                 = Z.min (len (pools k)) (offered q (S r))) as Hpoint.
    { intros k. simpl offered. fold quota.
      pose proof (len_nonneg (pools k)). pose proof (offered_nonneg q r Hq). lia. }
    assert (pass_demand quota (clear_not_empty st) all_kinds
            = foldr (λ k acc,
                       Z.min quota (len (pools k)
                                    - Z.min (len (pools k)) (offered q r)) + acc)
                    0 all_kinds) as Hdemand.
    { unfold pass_demand. apply foldr_sum_ext. intros k Hk.
      rewrite remaining_of_clear. by destruct (Hrem k Hk) as [_ ->]. }
    assert (share_after q r pools all_kinds
            + pass_demand quota (clear_not_empty st) all_kinds
            = share_after q (S r) pools all_kinds) as Hsum.
    { rewrite Hdemand. unfold share_after. rewrite <-foldr_sum_plus.
      apply foldr_sum_ext. intros k _. apply Hpoint. }
    destruct (decide (quota ≤ 0)) as [Hnone|Hsome].
    { (* a round with quota 0 *)
      rewrite (draw_steps_zero_quota _ _ _ _ Hnone Hsteps) in *.
      right. split.
      - intros k Hk. change (remaining_of (next_round (clear_not_empty st)) k)
          with (remaining_of st k).
        destruct (Hrem k Hk) as [Hnd_k ->]. split; [done|].
        simpl offered. fold quota. lia.
      - simpl. rewrite Hbooks, <-Hsum.
        assert (pass_demand quota (clear_not_empty st) all_kinds = 0) as ->; [|lia].
        rewrite Hdemand.
        rewrite (foldr_sum_const
                   (λ k, Z.min quota (len (pools k)
                                      - Z.min (len (pools k)) (offered q r))) 0);
          [lia|].
        intros k _. pose proof (len_nonneg (pools k)). lia. }
    destruct (decide (pass_demand quota (clear_not_empty st) all_kinds
                      ≤ files_left (clear_not_empty st))) as [Hcover|Hshort].
    + (* the budget covers the round *)
      destruct (draw_steps_exact budget (total_supply sample_map all_kinds) quota
                  all_kinds (clear_not_empty st) st1)
        as (Hleft1 & Hrem1 & _ & _); [done | done | lia | done | done |].
      right. split.
      * intros k Hk. change (remaining_of (next_round st1) k)
          with (remaining_of st1 k).
        destruct (Hrem k Hk) as [Hnd_k Hlen_k].
        destruct (Hrem1 k Hk) as (_ & Hexact & _).
        rewrite !remaining_of_clear in Hexact.
        destruct (Hexact Hnd_k) as [Hnd1 Hlen1]. split; [done|].
        rewrite Hlen1, Hlen_k, <-Hpoint. lia.
      * change (files_left (next_round st1)) with (files_left st1).
        rewrite Hleft1. simpl files_left. rewrite Hbooks, <-Hsum. lia.
    + (* the round asks for more than is left *)
      left. split.
      * change (files_left (next_round st1)) with (files_left st1).
        eapply (draw_steps_spend budget (total_supply sample_map all_kinds) quota
                  all_kinds (clear_not_empty st)); [done | done | lia | lia | done].
      * rewrite <-Hsum. simpl in Hshort. lia.
Qed.

Lemma share_after_le_capacity budget sample_map all_kinds r :
  0 ≤ budget →
  share_after (budget / len all_kinds) r
              (λ k, default [] (dict_get sample_map k)) all_kinds
  ≤ capacity budget sample_map all_kinds.
Proof.
  intros Hb. unfold capacity, share_after. cbv zeta.
  assert (0 ≤ budget / len all_kinds) as Hq.
  { destruct (decide (len all_kinds = 0)) as [->|Hn].
    - by rewrite Z.div_0_r.
    - pose proof (len_nonneg all_kinds). apply Z.div_pos; lia. }
  apply (foldr_sum_le
           (λ k, Z.min (len (default [] (dict_get sample_map k)))
                       (offered (budget / len all_kinds) r))
           (λ k, Z.min (len (default [] (dict_get sample_map k)))
                       (offered (budget / len all_kinds)
                                (Z.to_nat (budget / len all_kinds))))).
  intros k _. pose proof (offered_le_all (budget / len all_kinds) r Hq). lia.
Qed.

(** Without repeated files in the admitted pools the plan holds exactly the
    budget or the capacity, whichever is less. *)
Lemma allocate_exact budget sample_map all_kinds g :
  0 ≤ budget → NoDup all_kinds →
  (∀ k, k ∈ all_kinds → NoDup (default [] (dict_get sample_map k))) →
  ∃ st, allocate budget sample_map all_kinds g = Done st ∧
        plan_total (selected_files st)
        = Z.min budget (capacity budget sample_map all_kinds).
Proof.
  intros Hb Hnd Hpools.
  set (pools := λ k, default [] (dict_get sample_map k)).
  set (q := budget / len all_kinds).
  assert (0 ≤ q) as Hq.
  { unfold q. destruct (decide (len all_kinds = 0)) as [->|Hn].
    - by rewrite Z.div_0_r.
    - pose proof (len_nonneg all_kinds). apply Z.div_pos; lia. }
  destruct (allocate_rule (λ _, True) budget sample_map all_kinds g)
    as (st & Hrun & Hinv & _ & _ & Hexit); auto.
  exists st. split; [exact Hrun|].
  destruct (while_loop_ends_at_head _ _ _ _ 0 _ st
              (head_first budget all_kinds
                 (initial_state budget sample_map all_kinds g)) Hrun)
    as [r Hhead].
  pose proof (loop_head_rounds budget sample_map all_kinds g r st Hb Hnd Hpools Hhead)
    as [Hbooks Hflag].
  cbv zeta in Hbooks, Hflag. fold q pools in Hbooks, Hflag.
  pose proof (share_after_le_capacity budget sample_map all_kinds r Hb) as Hcap.
  fold q pools in Hcap.
  destruct Hinv as [Hleft Hbudget Htotal _ _].
  destruct Hbooks as [[Hzero Hreach]|[Hrem Hshare]]; [lia|].
  destruct (decide (files_left st = 0)) as [Hzero|Hpos]; [lia|].
  (* budget is left: the last round drew nothing *)
  assert (share_after q r pools all_kinds = capacity budget sample_map all_kinds)
    as Hall; [|lia].
  destruct Hexit as [Hexit| ->]; [|done].
  unfold loop_condition in Hexit.
  rewrite bool_decide_eq_true_2 in Hexit by lia. simpl in Hexit.
  unfold capacity, share_after. cbv zeta. fold q pools.
  apply foldr_sum_ext. intros k Hk.
  pose proof (offered_le_all q r Hq) as Hmax.
  destruct (Hflag Hexit) as [Hquota|Hempty].
  - (* the quota had reached 0 *)
    rewrite (offered_stable q r); [done | done |].
    destruct (decide (Z.to_nat q ≤ r)%nat) as [|Hearly]; [done|].
    destruct r as [|r].
    { rewrite (loop_head_zero _ _ _ _ Hhead) in Hexit. done. }
    assert (0 < q / Z.of_nat (S r)); [|lia].
    apply Z.div_str_pos. lia.
  - destruct (Hrem k Hk) as [_ Hlen]. rewrite (Hempty k Hk) in Hlen.
    change (len []) with 0 in Hlen. unfold pools. lia.
Qed.

(** C2, as the code has it — when the mapping is a dict and no admitted pool
    lists a file twice, the plan totals exactly
    [min(MAX_FILES_PER_PACK, capacity)], where the capacity is the sum over
    the admitted categories of [min(len(pool), q // 1 + q // 2 + ... + q // q)]
    with [q = MAX_FILES_PER_PACK // len(all_kinds)]: round [i] offers every
    category [q // i] files and nothing from round [q + 1] on. So the plan
    reaches the budget exactly when the capacity does; a supply of at least
    the budget is necessary for that, since the capacity is at most the
    supply, but it is not sufficient. *)
Theorem plan_total_is_budget_or_capacity (sample_map : dict (list Path))
    (g : rng_state) :
  let all_kinds := selected_subfolders sample_map in
  NoDup (dict_keys sample_map) →
  (∀ k, k ∈ all_kinds → NoDup (default [] (dict_get sample_map k))) →
  ∃ st, build_plan sample_map g = Done st ∧
        plan_total (selected_files st)
        = Z.min MAX_FILES_PER_PACK (plan_capacity sample_map) ∧
        (plan_total (selected_files st) = MAX_FILES_PER_PACK
         ↔ MAX_FILES_PER_PACK ≤ plan_capacity sample_map) ∧
        plan_capacity sample_map ≤ total_supply sample_map all_kinds.
Proof.
  intros all_kinds Hkeys Hpools.
  pose proof (selected_subfolders_NoDup sample_map Hkeys) as Hnd.
  destruct (allocate_exact MAX_FILES_PER_PACK sample_map all_kinds g
              MAX_FILES_PER_PACK_nonneg Hnd Hpools) as (st & Hrun & Htotal).
  exists st.
  change (capacity MAX_FILES_PER_PACK sample_map all_kinds)
    with (plan_capacity sample_map) in Htotal.
  split; [exact Hrun|]. split; [exact Htotal|]. split; [split; lia|].
  unfold plan_capacity, capacity, share_after, total_supply. cbv zeta.
  fold all_kinds.
  etrans; [|apply (plan_total_covers all_kinds), Hnd].
  apply (foldr_sum_le
           (λ k, Z.min (len (default [] (dict_get sample_map k)))
                       (offered (MAX_FILES_PER_PACK / len all_kinds)
                          (Z.to_nat (MAX_FILES_PER_PACK / len all_kinds))))
           (λ k, len (default [] (dict_get (admitted_pools sample_map all_kinds) k)))).
  intros k Hk. rewrite admitted_pool_lookup, decide_True by done. lia.
Qed.

Lemma plan_total_is_budget_or_capacity_witness :
  ∃ st, build_plan absorbing_map seed = Done st ∧
        plan_total (selected_files st) = MAX_FILES_PER_PACK.
Proof.
  destruct (plan_total_is_budget_or_capacity absorbing_map seed)
    as (st & Hrun & Htotal & _).
  - apply (bool_decide_unpack _). by vm_compute.
  - intros k Hk. apply list_elem_of_In in Hk.
    destruct Hk as [<-|[<-|[<-|[]]]]; apply (bool_decide_unpack _); by vm_compute.
  - exists st. split; [exact Hrun|]. rewrite Htotal. by vm_compute.
Defined.

(** The pools must not repeat files for that: the loop removes every copy
    of a drawn file from the remaining pool, so a pool that lists one file
    300 times is empty after one draw, and the plan ends below both the
    budget and the capacity. *)
Lemma repeated_files_cost_capacity :
  ∃ st, build_plan repeating_map seed = Done st ∧
        MAX_FILES_PER_PACK ≤ plan_capacity repeating_map ∧
        plan_total (selected_files st) = 128.
Proof. eexists. split; [by vm_compute|]. by vm_compute. Qed.

(** ** The selector on any mapping *)

(** Whatever the mapping, the selector admits at most
    [MAX_FOLDERS_PER_PACK] categories, each of them a category of the
    mapping with a non-empty pool, and none of them twice when the mapping
    is a dict. *)
Theorem selector_admits_stocked_categories (sample_map : dict (list Path)) :
  (length (selected_subfolders sample_map) ≤ MAX_FOLDERS_PER_PACK)%nat ∧
  (∀ k, k ∈ selected_subfolders sample_map →
        ∃ pool, (k, pool) ∈ sample_map ∧ pool ≠ []) ∧
  (NoDup (dict_keys sample_map) → NoDup (selected_subfolders sample_map)).
Proof.
  split_and!.
  - apply selected_subfolders_length.
  - intros k Hk. by apply available_subfolders_spec, selected_subfolders_available.
  - apply selected_subfolders_NoDup.
Qed.

Lemma selector_admits_stocked_categories_witness :
  NoDup (selected_subfolders crowded_map) ∧
  ∃ pool, ("Kick", pool) ∈ crowded_map ∧ pool ≠ [].
Proof.
  destruct (selector_admits_stocked_categories crowded_map) as (_ & Hstock & Hnd).
  split.
  - apply Hnd. apply (bool_decide_unpack _). by vm_compute.
  - apply Hstock. apply list_elem_of_In. vm_compute. tauto.
Defined.

(** ** Candidates and their eligibility *)

Lemma prefix_spec (a s : string) :
  String.prefix a s = true ↔ ∃ rest, s = a +:+ rest.
Proof.
  revert s. induction a as [|x a IH]; intros s.
  - split; [intros _; by exists s | intros _; by destruct s].
  - destruct s as [|y s]; simpl.
    + split; [done | by intros [rest ?]].
    + destruct (Ascii.ascii_dec x y) as [->|Hne].
      * rewrite IH. split; intros [rest Hrest]; exists rest.
        -- by rewrite string_app_cons, Hrest.
        -- rewrite string_app_cons in Hrest. by injection Hrest.
      * split; [done|]. intros [rest Hrest].
        rewrite string_app_cons in Hrest. by injection Hrest as -> _.
Qed.

(** The search [str_in] finds exactly the substrings. *)
Lemma str_in_spec (needle hay : string) :
  str_in needle hay = true ↔ substring needle hay.
Proof.
  unfold substring. induction hay as [|y hay IH].
  - cbn [str_in]. rewrite orb_false_r, prefix_spec. split.
    + intros [rest Hrest]. by exists "", rest.
    + intros ([|x before] & after & Hhay); [by exists after | done].
  - cbn [str_in]. rewrite orb_true_iff, prefix_spec, IH. split.
    + intros [[rest Hrest]|(before & after & Hhay)].
      * by exists "", rest.
      * exists (String y before), after. by rewrite string_app_cons, Hhay.
    + intros ([|x before] & after & Hhay).
      * left. by exists after.
      * right. rewrite string_app_cons in Hhay. injection Hhay as -> Hhay.
        by exists before, after.
Qed.

Lemma rev_app_spec (s t : string) : String.rev_app s t = String.rev s +:+ t.
Proof.
  unfold String.rev. revert t. induction s as [|x s IH]; intros t; simpl; [done|].
  rewrite (IH (String x t)), (IH (String x "")).
  by rewrite string_app_assoc.
Qed.

Lemma rev_cons (x : ascii) (s : string) :
  String.rev (String x s) = String.rev s +:+ String x "".
Proof. unfold String.rev at 1. simpl. apply rev_app_spec. Qed.

Lemma rev_app (a b : string) :
  String.rev (a +:+ b) = String.rev b +:+ String.rev a.
Proof.
  induction a as [|x a IH].
  - simpl. by rewrite string_app_empty_r.
  - rewrite string_app_cons, !rev_cons, IH. by rewrite string_app_assoc.
Qed.

Lemma rev_involutive (s : string) : String.rev (String.rev s) = s.
Proof.
  induction s as [|x s IH]; [done|].
  by rewrite rev_cons, rev_app, IH.
Qed.

(** [str_endswith] finds exactly the suffixes. *)
Lemma str_endswith_spec (s suffix : string) :
  str_endswith s suffix = true ↔ has_suffix s suffix.
Proof.
  unfold str_endswith, has_suffix. rewrite prefix_spec. split.
  - intros [rest Hrest]. exists (String.rev rest).
    by rewrite <-(rev_involutive s), Hrest, rev_app, rev_involutive.
  - intros [stem ->]. exists (String.rev stem). apply rev_app.
Qed.

(** In the model the pool holds the eligible files and no others. *)
Lemma collect_wav_files_spec (fs : file_system) (source_dirs : list Path)
    (pattern : option (string → bool)) (include_dirs exclude_dirs : list string)
    (f : Path) :
  f ∈ collect_wav_files fs source_dirs pattern include_dirs exclude_dirs
  ↔ eligible_file fs source_dirs pattern include_dirs exclude_dirs f.
Proof.
  unfold collect_wav_files, eligible_file. rewrite elem_of_flat_map. split.
  - intros (source_dir & Hsrc & Hf). apply elem_of_flat_map in Hf
      as ([[dirpath dirnames] filenames] & Hentry & Hf).
    unfold walk_source in Hentry.
    destruct (fs source_dir) as [top|] eqn:Hfs; [|by apply elem_of_nil in Hentry].
    apply os_walk_directories in Hentry as (subdirs & Hunder & ->).
    unfold visit_directory in Hf.
    destruct (include_rejects include_dirs dirpath) eqn:Hinc;
      [by apply elem_of_nil in Hf|].
    destruct (exclude_rejects exclude_dirs dirpath) eqn:Hexc;
      [by apply elem_of_nil in Hf|].
    apply elem_of_flat_map in Hf as ([filename st_size] & Hfile & Hf).
    apply visit_file_spec in Hf as (size & Hsize & -> & Hext & Hle & Hpat).
    simpl in *. subst st_size.
    exists source_dir, top, dirpath, subdirs, filenames, filename, size.
    split_and!; try done.
    + by apply str_endswith_spec.
    + apply include_accepts_spec in Hinc as [?|(incl & Hin & Hsub)]; [by left|].
      right. exists incl. split; [done|]. by apply str_in_spec.
    + intros excl Hin Hsub%str_in_spec.
      by rewrite (proj1 (exclude_accepts_spec _ _) Hexc excl Hin) in Hsub.
  - intros (source_dir & top & dirpath & subdirs & files & filename & size
            & Hsrc & Hfs & Hunder & Hfile & -> & Hext & Hle & Hpat & Hinc & Hexc).
    exists source_dir. split; [done|]. apply elem_of_flat_map.
    exists (dirpath, subdirs.*1, files). split.
    { unfold walk_source. rewrite Hfs. apply os_walk_directories. by exists subdirs. }
    unfold visit_directory.
    assert (include_rejects include_dirs dirpath = false) as ->.
    { apply include_accepts_spec. destruct Hinc as [?|(incl & Hin & Hsub)]; [by left|].
      right. exists incl. split; [done|]. by apply str_in_spec. }
    assert (exclude_rejects exclude_dirs dirpath = false) as ->.
    { apply exclude_accepts_spec. intros excl Hin.
      destruct (str_in (str_lower excl) (str_lower dirpath)) eqn:Hsub; [|done].
      destruct (Hexc excl Hin). by apply str_in_spec. }
    apply elem_of_flat_map. exists (filename, Some size). split; [done|].
    apply visit_file_spec. exists size. split_and!; try done.
    by apply str_endswith_spec.
Qed.

(** When [collect_wav_files] returns, no [stat] having raised anything but
    [FileNotFoundError], the pool it returns holds exactly the eligible
    files, for directory paths, file names and filter strings in the ASCII
    range: the files listed at or below a source directory whose name ends
    in [.wav] in any letter case, that [stat] finds with at most
    [MAX_FILE_SIZE_KB * 1024] bytes, whose name the pattern accepts, and
    whose directory path holds an include substring, if any is configured,
    and no exclude substring. *)
Theorem pool_holds_the_eligible_files (stat_raises : Path → bool)
    (fs : file_system) (source_dirs : list Path)
    (pattern : option (string → bool)) (include_dirs exclude_dirs : list string)
    (pool : list Path) :
  (∀ source_dir, source_dir ∈ source_dirs →
                 ascii_walk (walk_source fs source_dir) = true) →
  forallb is_ascii include_dirs = true →
  forallb is_ascii exclude_dirs = true →
  collect_wav_files_run stat_raises fs source_dirs pattern include_dirs exclude_dirs
  = Ok pool →
  ∀ f, f ∈ pool ↔ eligible_file fs source_dirs pattern include_dirs exclude_dirs f.
Proof.
  intros _ _ _ Hrun f. unfold collect_wav_files_run in Hrun.
  destruct (existsb stat_raises _); [done|]. injection Hrun as <-.
  apply collect_wav_files_spec.
Qed.

Lemma pool_holds_the_eligible_files_witness :
  eligible_file nested_fs ["/lib"] None ["kick"] [] "/lib/Kicks/k1.wav".
Proof.
  apply (pool_holds_the_eligible_files (λ _, false) nested_fs ["/lib"] None
           ["kick"] [] (collect_wav_files nested_fs ["/lib"] None ["kick"] [])).
  - intros source_dir ->%list_elem_of_singleton. reflexivity.
  - reflexivity.
  - reflexivity.
  - reflexivity.
  - apply list_elem_of_In. vm_compute. tauto.
Defined.

Lemma collect_wav_files_app fs (dirs1 dirs2 : list Path) pattern include_dirs exclude_dirs :
  collect_wav_files fs (dirs1 ++ dirs2) pattern include_dirs exclude_dirs
  = collect_wav_files fs dirs1 pattern include_dirs exclude_dirs
    ++ collect_wav_files fs dirs2 pattern include_dirs exclude_dirs.
Proof. unfold collect_wav_files. apply flat_map_app. Qed.

(** Source directories contribute one after the other, a directory that
    does not exist contributes nothing, and nothing is deduplicated: when a
    directory is listed together with a directory below it, the candidates
    of the lower directory are pooled twice, once inside the walk of the
    upper directory and once on their own. *)
Theorem sources_are_pooled_one_after_the_other (fs : file_system)
    (pattern : option (string → bool)) (include_dirs exclude_dirs : list string) :
  let pool := λ dirs, collect_wav_files fs dirs pattern include_dirs exclude_dirs in
  (∀ dirs1 dirs2, pool (dirs1 ++ dirs2) = pool dirs1 ++ pool dirs2) ∧
  (∀ d dirs, fs d = None → pool (d :: dirs) = pool dirs) ∧
  (∀ top d tree sub,
     fs top = Some tree → fs d = Some sub →
     (d, sub) ∈ directories_under top tree →
     ∃ before after,
       pool [top] = before ++ pool [d] ++ after ∧
       pool [top; d] = before ++ pool [d] ++ after ++ pool [d]).
Proof.
  intros pool. split_and!.
  - intros. apply collect_wav_files_app.
  - intros d dirs Hd. unfold pool, collect_wav_files, walk_source. simpl.
    by rewrite Hd.
  - intros top d tree sub Htop Hd Hin.
    destruct (os_walk_subtree tree top d sub Hin) as (before & after & Hwalk).
    set (visit := visit_directory pattern include_dirs exclude_dirs).
    assert (pool [top] = flat_map visit before ++ pool [d] ++ flat_map visit after)
      as Htop_pool.
    { unfold pool, collect_wav_files, walk_source. simpl.
      rewrite Htop, Hd, Hwalk, !app_nil_r. fold visit.
      by rewrite !flat_map_app. }
    exists (flat_map visit before), (flat_map visit after). split; [done|].
    change [top; d] with ([top] ++ [d]). unfold pool in *.
    rewrite collect_wav_files_app, Htop_pool. by rewrite <-!(assoc_L (++)).
Qed.

Lemma sources_are_pooled_one_after_the_other_witness :
  ∃ before after,
    collect_wav_files overlapping_fs
      ["/lib/DMD3 Kicks"; "/lib/DMD3 Kicks/arkicks"] None [] []
    = before ++ ["/lib/DMD3 Kicks/arkicks/k.wav"] ++ after
      ++ ["/lib/DMD3 Kicks/arkicks/k.wav"].
Proof.
  destruct (sources_are_pooled_one_after_the_other overlapping_fs None [] [])
    as (_ & _ & Htwice).
  destruct (Htwice "/lib/DMD3 Kicks" "/lib/DMD3 Kicks/arkicks"
                   (Dir [("arkicks", arkicks_tree)] []) arkicks_tree)
    as (before & after & _ & Heq); [done | done | |].
  - apply list_elem_of_In. vm_compute. tauto.
  - exists before, after. exact Heq.
Defined.

(** ** [build_sample_map] *)






(** ** What the materializer does to the disk *)

(** One chosen file changes the disk at its destination and nowhere else:
    a copy that succeeded leaves a complete copy there, normalized when the
    audio could be processed; after a copy that failed the destination is
    removed if the system allows it, and otherwise stays as the failed copy
    left it. *)
Lemma process_file_cases env pack_dir subfolder channels w file_path :
  let dest := dest_file_path pack_dir subfolder file_path in
  let w' := process_file env pack_dir subfolder channels w file_path in
  folders w' = folders w ∧
  ((copy_of env file_path = CopyOk ∧
    disk w' = <[dest := Stored file_path true
                          match audio_of env file_path with
                          | AudioOk => Some channels
                          | _ => None
                          end]> (disk w)) ∨
   (copy_of env file_path ≠ CopyOk ∧ unlink_of env dest = true ∧
    disk w' = delete dest (disk w)) ∨
   (copy_of env file_path = CopyFailsBefore ∧ unlink_of env dest = false ∧
    disk w' = disk w) ∨
   (copy_of env file_path = CopyFailsMidway ∧ unlink_of env dest = false ∧
    disk w' = <[dest := Stored file_path false None]> (disk w))).
Proof.
  intros dest w'. unfold w', process_file, shutil_copy2. fold dest.
  destruct (copy_of env file_path) eqn:Hcopy.
  - unfold convert_audio, convert_audio_try. simpl.
    rewrite lookup_insert_eq. simpl.
    destruct (audio_of env file_path); simpl;
      (split; [done|]); left; (split; [done|]); by rewrite ?insert_insert_eq.
  - simpl. unfold path_exists. simpl.
    destruct (disk w !! dest) as [s|] eqn:Hdest.
    + rewrite bool_decide_eq_true_2 by eauto.
      destruct (unlink_of env dest) eqn:Hunlink; simpl; (split; [done|]).
      * right. left. done.
      * right. right. left. done.
    + rewrite bool_decide_eq_false_2 by (by intros [? ?]). simpl.
      split; [done|]. destruct (unlink_of env dest) eqn:Hunlink.
      * right. left. split_and!; [done | done | by rewrite delete_id].
      * right. right. left. done.
  - simpl. unfold path_exists. simpl. rewrite lookup_insert_eq.
    rewrite bool_decide_eq_true_2 by eauto.
    destruct (unlink_of env dest) eqn:Hunlink; simpl; (split; [done|]).
    + right. left. split_and!; [done | done | by rewrite delete_insert_eq].
    + right. right. right. done.
Qed.

(** After a copy that fails, before or while writing, the destination is
    cleared when the system lets it be removed: nothing is left there, not
    even the copy of an earlier chosen file with the same name. When the
    removal is refused, the handler only prints, and the destination keeps
    what the failed copy left: the file that was there before, or the
    incomplete copy. No other path is touched. (The destination is taken not
    to be a directory.) *)
Theorem failed_copy_rollback env pack_dir subfolder channels w file_path :
  copy_of env file_path ≠ CopyOk →
  dest_file_path pack_dir subfolder file_path ∉ folders w →
  let dest := dest_file_path pack_dir subfolder file_path in
  let w' := process_file env pack_dir subfolder channels w file_path in
  (unlink_of env dest = true → disk w' !! dest = None) ∧
  (unlink_of env dest = false →
   disk w' !! dest = match copy_of env file_path with
                     | CopyFailsMidway => Some (Stored file_path false None)
                     | _ => disk w !! dest
                     end) ∧
  (∀ p, p ≠ dest → disk w' !! p = disk w !! p) ∧
  folders w' = folders w.
Proof.
  intros Hcopy _ dest w'.
  destruct (process_file_cases env pack_dir subfolder channels w file_path)
    as [Hfolders Hcases].
  fold dest w' in Hfolders, Hcases.
  destruct Hcases as [[? _]|[(_ & Hunlink & Hdisk)|[(Hc & Hunlink & Hdisk)
                                                  |(Hc & Hunlink & Hdisk)]]];
    [done|..]; rewrite Hdisk; split_and!; try done; try congruence.
  - intros _. apply lookup_delete_eq.
  - intros p Hp. by rewrite lookup_delete_ne.
  - intros _. by rewrite Hc.
  - intros _. rewrite Hc. apply lookup_insert_eq.
  - intros p Hp. by rewrite lookup_insert_ne.
Qed.

Lemma failed_copy_rollback_witness :
  disk (process_file broken_env "/out/Pack" "Kick" 1
          (process_file broken_env "/out/Pack" "Kick" 1 empty_world "/lib/a/k.wav")
          "/lib/b/k.wav")
       !! "/out/Pack/Kick/k.wav" = None ∧
  disk (process_file stubborn_env "/out/Pack" "Kick" 1
          (process_file stubborn_env "/out/Pack" "Kick" 1 empty_world "/lib/a/k.wav")
          "/lib/b/k.wav")
       !! "/out/Pack/Kick/k.wav" = Some (Stored "/lib/b/k.wav" false None).
Proof.
  split.
  - destruct (failed_copy_rollback broken_env "/out/Pack" "Kick" 1
                (process_file broken_env "/out/Pack" "Kick" 1 empty_world
                              "/lib/a/k.wav")
                "/lib/b/k.wav") as [Hgone _];
      [done | apply not_elem_of_empty |].
    by apply Hgone.
  - destruct (failed_copy_rollback stubborn_env "/out/Pack" "Kick" 1
                (process_file stubborn_env "/out/Pack" "Kick" 1 empty_world
                              "/lib/a/k.wav")
                "/lib/b/k.wav") as (_ & Hstays & _);
      [done | apply not_elem_of_empty |].
    by apply Hstays.
Defined.

Section copy_loop.
Context (env : environment) (pack_dir : Path).

(** The copy loop of one category, file after file. *)
Lemma copy_loop_effect subfolder channels (files : list Path) (w : world) :
  let w' := foldl (process_file env pack_dir subfolder channels) w files in
  folders w' = folders w ∧
  (∀ p, (∀ f, f ∈ files → p ≠ dest_file_path pack_dir subfolder f) →
        disk w' !! p = disk w !! p) ∧
  (size (disk w') ≤ size (disk w) + length files)%nat.
Proof.
  revert w. induction files as [|f files IH]; intros w; simpl.
  - split_and!; [done | done | lia].
  - destruct (IH (process_file env pack_dir subfolder channels w f))
      as (Hfolders & Hframe & Hsize).
    destruct (process_file_cases env pack_dir subfolder channels w f)
      as [Hfolders1 Hdisk1].
    split_and!.
    + by rewrite Hfolders.
    + intros p Hp. rewrite Hframe.
      * assert (p ≠ dest_file_path pack_dir subfolder f) as Hne
          by apply Hp, list_elem_of_here.
        destruct Hdisk1 as [[_ ->]|[(_ & _ & ->)|[(_ & _ & ->)|(_ & _ & ->)]]].
        -- by rewrite lookup_insert_ne.
        -- by rewrite lookup_delete_ne.
        -- done.
        -- by rewrite lookup_insert_ne.
      * intros f' Hf'. by apply Hp, list_elem_of_further.
    + etrans; [exact Hsize|].
      assert (size (disk (process_file env pack_dir subfolder channels w f))
              ≤ S (size (disk w)))%nat; [|lia].
      destruct Hdisk1 as [[_ ->]|[(_ & _ & ->)|[(_ & _ & ->)|(_ & _ & ->)]]].
      * rewrite map_size_insert. destruct (disk w !! _); simpl; lia.
      * rewrite map_size_delete. destruct (disk w !! _); simpl; lia.
      * lia.
      * rewrite map_size_insert. destruct (disk w !! _); simpl; lia.
Qed.

(** When every copy succeeds, each destination of a file processed so far
    holds a complete copy of a file processed so far that has this very
    destination. *)
Lemma copy_loop_copies subfolder channels (processed : string → Path → Prop)
    (files : list Path) (w : world) :
  (∀ f, f ∈ files → copy_of env f = CopyOk) →
  (∀ k f, processed k f →
          ∃ k' f', processed k' f' ∧
                   dest_file_path pack_dir k' f' = dest_file_path pack_dir k f ∧
                   holds_copy_of w (dest_file_path pack_dir k f) f') →
  let w' := foldl (process_file env pack_dir subfolder channels) w files in
  ∀ k f, processed k f ∨ (k = subfolder ∧ f ∈ files) →
         ∃ k' f', (processed k' f' ∨ (k' = subfolder ∧ f' ∈ files)) ∧
                  dest_file_path pack_dir k' f' = dest_file_path pack_dir k f ∧
                  holds_copy_of w' (dest_file_path pack_dir k f) f'.
Proof.
  revert processed w. induction files as [|f0 files IH]; intros processed w Hok Hinv;
    simpl.
  - intros k f [Hp|[_ ?%elem_of_nil]]; [|done].
    destruct (Hinv k f Hp) as (k' & f' & Hp' & Hdest & Hcopy). eauto 6.
  - set (w1 := process_file env pack_dir subfolder channels w f0).
    destruct (process_file_cases env pack_dir subfolder channels w f0)
      as [_ [[_ Hdisk]|[[Hfail _]|[[Hfail _]|[Hfail _]]]]];
      [|by rewrite (Hok f0 (list_elem_of_here _ _)) in Hfail..].
    fold w1 in Hdisk.
    intros k f Hkf.
    destruct (IH (λ k f, processed k f ∨ (k = subfolder ∧ f = f0)) w1) with
      (k := k) (f := f) as (k' & f' & Hkf' & Hdest & Hcopy).
    + intros f' Hf'. by apply Hok, list_elem_of_further.
    + intros k1 f1 Hkf1.
      destruct (decide (dest_file_path pack_dir k1 f1
                        = dest_file_path pack_dir subfolder f0)) as [Heq|Hne].
      * exists subfolder, f0. split_and!; [by right | done |].
        unfold holds_copy_of. rewrite Hdisk, Heq, lookup_insert_eq. eauto.
      * destruct Hkf1 as [Hp|[-> ->]]; [|done].
        destruct (Hinv k1 f1 Hp) as (k2 & f2 & Hp2 & Hdest2 & s & Hs & Hrest).
        exists k2, f2. split_and!; [by left | done |].
        unfold holds_copy_of. rewrite Hdisk, lookup_insert_ne by done. eauto.
    + destruct Hkf as [Hp|[-> [->|Hf]%elem_of_cons]]; auto.
    + exists k', f'. split_and!; [|done..].
      destruct Hkf' as [[Hp| [-> ->]] | [-> Hf']].
      * by left.
      * right. split; [done | apply list_elem_of_here].
      * right. split; [done | by apply list_elem_of_further].
Qed.
End copy_loop.

Lemma filled_folders_cons (k : string) (files : list Path) (plan : dict (list Path)) :
  filled_folders ((k, files) :: plan)
  = if decide (files = []) then filled_folders plan else k :: filled_folders plan.
Proof.
  unfold filled_folders, dict_keys. rewrite filter_cons. simpl.
  destruct (decide (files ≠ [])), (decide (files = [])); done.
Qed.

Lemma materialize_cons env pack_dir k files plan w :
  materialize env pack_dir ((k, files) :: plan) w
  = (w1 ← materialize_subfolder env pack_dir w (k, files);
     materialize env pack_dir plan w1).
Proof. done. Qed.

Lemma path_mkdir_ok env d w :
  can_mkdir env w d → path_mkdir env d w = Ok (mkdir d w).
Proof.
  intros [Hfree Hallowed]. unfold path_mkdir, path_exists.
  rewrite bool_decide_eq_false_2 by (rewrite Hfree; by intros [? ?]).
  by rewrite Hallowed.
Qed.

Lemma path_mkdir_cases env d w :
  path_mkdir env d w = Ok (mkdir d w) ∨ ∃ e, path_mkdir env d w = Raise e.
Proof.
  unfold path_mkdir. destruct (path_exists d w); [eauto|].
  destruct (mkdir_of env d); eauto.
Qed.

Lemma has_slash_app (a b : string) : has_slash (a +:+ "/" +:+ b) = true.
Proof.
  induction a as [|x a IH]; [done|].
  rewrite string_app_cons. simpl. rewrite IH. apply orb_true_r.
Qed.

(** The folder of a category whose name holds no slash is not the
    destination of any file. *)
Lemma folder_is_no_destination pack_dir k' k f :
  has_slash k' = false → path_join pack_dir k' ≠ dest_file_path pack_dir k f.
Proof.
  intros Hslash Heq. unfold dest_file_path, path_join in Heq.
  rewrite !string_app_assoc in Heq.
  apply (inj (String.app pack_dir)), (inj (String.app "/")) in Heq.
  rewrite Heq, has_slash_app in Hslash. done.
Qed.

Lemma configured_no_slash k :
  is_Some (dict_get SUBFOLDER_CONFIG k) → has_slash k = false.
Proof.
  intros Hk%dict_get_is_Some%list_elem_of_In. vm_compute in Hk.
  repeat (destruct Hk as [<-|Hk]; [reflexivity|]). done.
Qed.

(** The materializer on a plan whose categories with files have names
    without a slash, are all configured, and can all have their folder
    made: it returns, makes exactly the folders of the categories with
    files, writes no more files than the plan lists, and leaves every path
    that is not a destination of the plan as it was. *)
Lemma materialize_effect env pack_dir (plan : dict (list Path)) (w : world) :
  (∀ k, k ∈ filled_folders plan →
        is_Some (dict_get SUBFOLDER_CONFIG k) ∧
        can_mkdir env w (path_join pack_dir k)) →
  ∃ w', materialize env pack_dir plan w = Ok w' ∧
        folders w' = folders w ∪ list_to_set (path_join pack_dir <$> filled_folders plan) ∧
        (∀ p, (∀ k files f, (k, files) ∈ plan → f ∈ files →
                            p ≠ dest_file_path pack_dir k f) →
              disk w' !! p = disk w !! p) ∧
        Z.of_nat (size (disk w')) ≤ Z.of_nat (size (disk w)) + plan_total plan.
Proof.
  revert w. induction plan as [|[k files] plan IH]; intros w Hcfg.
  - exists w. split_and!; [done | | done | unfold plan_total; simpl; lia].
    simpl. by rewrite (right_id_L ∅ (∪)).
  - rewrite materialize_cons, filled_folders_cons, plan_total_cons.
    rewrite filled_folders_cons in Hcfg. unfold materialize_subfolder.
    destruct (decide (files = [])) as [->|Hne].
    + step_result. destruct (IH w Hcfg) as (w' & Hrun & Hfolders & Hframe & Hsize).
      exists w'. split_and!; [done | done | | unfold len; simpl; lia].
      intros p Hp. apply Hframe. intros k' files' f Hin Hf.
      apply (Hp k' files' f); [by apply list_elem_of_further | done].
    + destruct (Hcfg k) as [[config Hconfig] Hmkdir]; [apply list_elem_of_here|].
      rewrite (path_mkdir_ok _ _ _ Hmkdir). step_result.
      unfold dict_getitem. rewrite Hconfig. step_result.
      set (w1 := mkdir (path_join pack_dir k) w).
      destruct (copy_loop_effect env pack_dir k (default 2 config) files w1)
        as (Hfolders1 & Hframe1 & Hsize1).
      destruct (IH (foldl (process_file env pack_dir k (default 2 config)) w1 files))
        as (w' & Hrun & Hfolders & Hframe & Hsize).
      { intros k' Hk'.
        destruct (Hcfg k' (list_elem_of_further _ _ _ Hk')) as [Hcfg' [Hfree Hallowed]].
        split; [done|]. split; [|done].
        rewrite Hframe1; [done|]. intros f _.
        by apply folder_is_no_destination, configured_no_slash. }
      exists w'. split_and!; [done | | |].
      * rewrite Hfolders, Hfolders1. unfold w1, mkdir. cbn [folders].
        rewrite fmap_cons, list_to_set_cons.
        by rewrite (comm_L (∪) {[path_join pack_dir k]} (folders w)),
                   <-(assoc_L (∪)).
      * intros p Hp. rewrite Hframe.
        -- rewrite Hframe1; [done|]. intros f Hf.
           apply (Hp k files f); [apply list_elem_of_here | done].
        -- intros k' files' f Hin Hf.
           apply (Hp k' files' f); [by apply list_elem_of_further | done].
      * unfold len. simpl in Hsize1. lia.
Qed.

Lemma holds_copy_of_disk (w w' : world) p f :
  disk w' = disk w → holds_copy_of w p f → holds_copy_of w' p f.
Proof. unfold holds_copy_of. by intros ->. Qed.

Lemma materialize_copies env pack_dir (processed : string → Path → Prop)
    (plan : dict (list Path)) (w w' : world) :
  (∀ k files f, (k, files) ∈ plan → f ∈ files → copy_of env f = CopyOk) →
  (∀ k f, processed k f →
          ∃ k' f', processed k' f' ∧
                   dest_file_path pack_dir k' f' = dest_file_path pack_dir k f ∧
                   holds_copy_of w (dest_file_path pack_dir k f) f') →
  materialize env pack_dir plan w = Ok w' →
  ∀ k f, processed k f ∨ (∃ files, (k, files) ∈ plan ∧ f ∈ files) →
         ∃ k' f', (processed k' f' ∨ (∃ files', (k', files') ∈ plan ∧ f' ∈ files')) ∧
                  dest_file_path pack_dir k' f' = dest_file_path pack_dir k f ∧
                  holds_copy_of w' (dest_file_path pack_dir k f) f'.
Proof.
  revert processed w. induction plan as [|[k0 files0] plan IH];
    intros processed w Hok Hinv Hrun.
  - injection Hrun as <-. intros k f [Hp|(files & ?%elem_of_nil & _)]; [|done].
    destruct (Hinv k f Hp) as (k' & f' & Hp' & Hdest & Hcopy). eauto 6.
  - rewrite materialize_cons in Hrun. unfold materialize_subfolder in Hrun.
    assert (∀ k' files' f, (k', files') ∈ plan → f ∈ files' →
                            copy_of env f = CopyOk) as Hok'.
    { intros k' files' f Hin. apply (Hok k' files' f).
      by apply list_elem_of_further. }
    destruct (decide (files0 = [])) as [->|Hne].
    + cbn [mbind result_bind mret result_ret] in Hrun.
      intros k f Hkf.
      destruct (IH processed w Hok' Hinv Hrun k f) as (k' & f' & Hkf' & Hrest).
      * destruct Hkf as [?|(files & [[= -> ->]|Hin]%elem_of_cons & Hf)]; [by left | |].
        -- by apply elem_of_nil in Hf.
        -- right. eauto.
      * exists k', f'. split; [|done].
        destruct Hkf' as [?|(files' & Hin & Hf)]; [by left|].
        right. exists files'. split; [by apply list_elem_of_further | done].
    + destruct (path_mkdir_cases env (path_join pack_dir k0) w) as [Hmk|[e Hmk]];
        rewrite Hmk in Hrun; [|done].
      cbn [mbind result_bind mret result_ret] in Hrun.
      destruct (dict_getitem SUBFOLDER_CONFIG k0) as [config|]; [|done].
      cbn [mbind result_bind mret result_ret] in Hrun.
      set (w1 := mkdir (path_join pack_dir k0) w) in Hrun.
      pose proof (copy_loop_copies env pack_dir k0 (default 2 config) processed
                    files0 w1) as Hloop.
      cbv zeta in Hloop.
      intros k f Hkf.
      destruct (IH (λ k f, processed k f ∨ (k = k0 ∧ f ∈ files0)) _ Hok'
                  (Hloop (λ f Hf, Hok k0 files0 f (list_elem_of_here _ _) Hf)
                         Hinv)
                  Hrun k f) as (k' & f' & Hkf' & Hrest).
      * destruct Hkf as [?|(files & [[= -> ->]|Hin]%elem_of_cons & Hf)];
          [by left; left | by left; right | right; eauto].
      * exists k', f'. split; [|done].
        destruct Hkf' as [[?|[-> Hf]]|(files' & Hin & Hf)]; [by left | |].
        -- right. exists files0. split; [apply list_elem_of_here | done].
        -- right. exists files'. split; [by apply list_elem_of_further | done].
Qed.

(** When every copy succeeds, no export of the converted audio fails and
    no destination is a directory, then, if the materializer returns, every
    destination of a file of the plan holds a complete copy of a file of
    the plan that has this very destination: no later step deletes a
    completed copy, not even a failed decoding. So a file that shares its
    destination with no other file of the plan has a complete copy of its
    own; of files with one destination, as files of one category with equal
    names are, only one has. *)
Theorem every_copy_arrives env pack_dir (plan : dict (list Path)) (w w' : world) :
  (∀ k files f, (k, files) ∈ plan → f ∈ files →
                copy_of env f = CopyOk ∧ audio_of env f ≠ AudioExportFails) →
  (∀ k files f, (k, files) ∈ plan → f ∈ files →
                dest_file_path pack_dir k f ∉ folders w) →
  materialize env pack_dir plan w = Ok w' →
  ∀ k files f, (k, files) ∈ plan → f ∈ files →
    (∃ k' files' f',
       (k', files') ∈ plan ∧ f' ∈ files' ∧
       dest_file_path pack_dir k' f' = dest_file_path pack_dir k f ∧
       holds_copy_of w' (dest_file_path pack_dir k f) f') ∧
    ((∀ k' files' f',
        (k', files') ∈ plan → f' ∈ files' →
        dest_file_path pack_dir k' f' = dest_file_path pack_dir k f → f' = f) →
     holds_copy_of w' (dest_file_path pack_dir k f) f).
Proof.
  intros Hok _ Hrun k files f Hin Hf.
  destruct (materialize_copies env pack_dir (λ _ _, False) plan w w') with
    (k := k) (f := f) as (k' & f' & [[]|(files' & Hin' & Hf')] & Hdest & Hcopy).
  - intros k1 files1 f1 Hin1 Hf1. by destruct (Hok k1 files1 f1 Hin1 Hf1).
  - by intros k1 f1 [].
  - done.
  - right. eauto.
  - split; [by exists k', files', f'|].
    intros Honly. by rewrite (Honly k' files' f' Hin' Hf' Hdest) in Hcopy.
Qed.

Lemma every_copy_arrives_witness :
  ∃ w', materialize flaky_env "/out/Pack" flaky_plan empty_world = Ok w' ∧
        holds_copy_of w' "/out/Pack/Kick/bad.wav" "/lib/a/bad.wav".
Proof.
  eexists. split; [reflexivity|].
  refine (proj2 (every_copy_arrives flaky_env "/out/Pack" flaky_plan empty_world _
                   _ _ eq_refl "Kick"
                   ["/lib/a/k1.wav"; "/lib/a/bad.wav"; "/lib/a/k2.wav"]
                   "/lib/a/bad.wav" _ _) _).
  - intros k files f _ _. split; [reflexivity|].
    unfold flaky_env. cbn [audio_of]. by case_decide.
  - intros k files f _ _. apply not_elem_of_empty.
  - apply list_elem_of_here.
  - apply list_elem_of_further, list_elem_of_here.
  - intros k' files' f' [= -> ->]%list_elem_of_singleton Hf' Hdest.
    apply list_elem_of_In in Hf'. vm_compute in Hf'.
    destruct Hf' as [<-|[<-|[<-|[]]]]; [|done|]; vm_compute in Hdest; discriminate.
Defined.

(** A category with files that [SUBFOLDER_CONFIG] does not list stops the
    materializer: it raises at that category at the latest. *)
Lemma materialize_fails env pack_dir (plan : dict (list Path)) (w : world) :
  (∃ k, k ∈ filled_folders plan ∧ dict_get SUBFOLDER_CONFIG k = None) →
  ∃ e, materialize env pack_dir plan w = Raise e.
Proof.
  revert w. induction plan as [|[k files] plan IH]; intros w (k0 & Hin & Hnone).
  - by apply elem_of_nil in Hin.
  - rewrite materialize_cons. unfold materialize_subfolder.
    rewrite filled_folders_cons in Hin.
    destruct (decide (files = [])) as [->|Hne].
    + step_result. apply IH. eauto.
    + destruct (path_mkdir_cases env (path_join pack_dir k) w) as [->|[e ->]];
        [|by exists e].
      step_result. unfold dict_getitem.
      destruct (dict_get SUBFOLDER_CONFIG k) as [config|] eqn:Hconfig;
        [|by eexists].
      step_result. apply IH.
      apply elem_of_cons in Hin as [->|Hin]; [congruence | eauto].
Qed.

(** When the folders can be made, it is the unguarded lookup of the channel
    count that raises, with [KeyError]. *)
Lemma materialize_raises env pack_dir (plan : dict (list Path)) (w : world) :
  (∀ k, k ∈ filled_folders plan →
        has_slash k = false ∧ can_mkdir env w (path_join pack_dir k)) →
  (∃ k, k ∈ filled_folders plan ∧ dict_get SUBFOLDER_CONFIG k = None) →
  ∃ k, materialize env pack_dir plan w = Raise (KeyError k) ∧
       k ∈ filled_folders plan ∧ dict_get SUBFOLDER_CONFIG k = None.
Proof.
  revert w. induction plan as [|[k files] plan IH]; intros w Hmk (k0 & Hin & Hnone).
  - by apply elem_of_nil in Hin.
  - rewrite materialize_cons. unfold materialize_subfolder.
    rewrite filled_folders_cons in *.
    destruct (decide (files = [])) as [->|Hne].
    + step_result. apply IH; eauto.
    + destruct (Hmk k (list_elem_of_here _ _)) as [_ Hmkdir].
      rewrite (path_mkdir_ok _ _ _ Hmkdir). step_result.
      unfold dict_getitem.
      destruct (dict_get SUBFOLDER_CONFIG k) as [config|] eqn:Hconfig.
      * step_result.
        set (w1 := mkdir (path_join pack_dir k) w).
        destruct (copy_loop_effect env pack_dir k (default 2 config) files w1)
          as (_ & Hframe1 & _).
        destruct (IH (foldl (process_file env pack_dir k (default 2 config)) w1 files))
          as (k' & Hrun & Hk' & Hnone').
        { intros k' Hk'.
          destruct (Hmk k' (list_elem_of_further _ _ _ Hk')) as [Hslash [Hfree Hallowed]].
          split; [done|]. split; [|done].
          rewrite Hframe1; [done|]. intros f _.
          by apply folder_is_no_destination. }
        { apply elem_of_cons in Hin as [->|Hin]; [congruence | eauto]. }
        exists k'. split_and!; [done | by apply list_elem_of_further | done].
      * exists k. split_and!; [done | apply list_elem_of_here | done].
Qed.

(** ** [create_sample_pack] as a whole *)

Lemma build_plan_functional (sample_map : dict (list Path)) g st st' :
  build_plan sample_map g = Done st → build_plan sample_map g = Done st' →
  st' = st.
Proof. intros Hrun Hrun'. rewrite Hrun in Hrun'. by injection Hrun'. Qed.

Lemma plan_budget (sample_map : dict (list Path)) (g : rng_state) :
  ∃ st, build_plan sample_map g = Done st ∧
        plan_total (selected_files st) ≤ MAX_FILES_PER_PACK.
Proof.
  destruct (allocate_rule (λ _, True) MAX_FILES_PER_PACK sample_map
              (selected_subfolders sample_map) g)
    as (st & Hrun & [Hleft Hbudget Htotal _ _] & _);
    auto using MAX_FILES_PER_PACK_nonneg.
  exists st. split; [exact Hrun | lia].
Qed.

Lemma elem_of_filled_folders (plan : dict (list Path)) k :
  k ∈ filled_folders plan ↔ ∃ files, (k, files) ∈ plan ∧ files ≠ [].
Proof.
  unfold filled_folders, dict_keys. rewrite list_elem_of_fmap. split.
  - intros ([k' files] & -> & [Hne Hin]%list_elem_of_filter). by exists files.
  - intros (files & Hin & Hne). exists (k, files). split; [done|].
    by apply list_elem_of_filter.
Qed.

Lemma create_sample_pack_effect env pack_name (sample_map : dict (list Path))
    output_dir (g : rng_state) (w : world) :
  let pack_dir := path_join output_dir pack_name in
  NoDup (dict_keys sample_map) →
  can_mkdir env w pack_dir →
  (∀ k, k ∈ selected_subfolders sample_map →
        is_Some (dict_get SUBFOLDER_CONFIG k) ∧
        can_mkdir env w (path_join pack_dir k)) →
  ∃ w' created,
    create_sample_pack env pack_name sample_map output_dir g w = Done w' ∧
    folders w' = {[pack_dir]} ∪ folders w
                 ∪ list_to_set (path_join pack_dir <$> created) ∧
    (∀ k, k ∈ created → k ∈ selected_subfolders sample_map) ∧
    (length created ≤ MAX_FOLDERS_PER_PACK)%nat ∧
    Z.of_nat (size (disk w')) ≤ Z.of_nat (size (disk w)) + MAX_FILES_PER_PACK ∧
    (∀ p, (∀ k f, k ∈ selected_subfolders sample_map →
                  f ∈ default [] (dict_get sample_map k) →
                  p ≠ dest_file_path pack_dir k f) →
          disk w' !! p = disk w !! p).
Proof.
  intros pack_dir Hnd Hpack Hcfg.
  destruct (plan_slots sample_map g) as (st & Hrun & Hkeys & Hslots).
  destruct (plan_folders sample_map g Hnd) as (st1 & Hrun1 & Hadm & Hcount).
  rewrite (build_plan_functional _ _ _ _ Hrun Hrun1) in Hadm, Hcount.
  destruct (plan_budget sample_map g) as (st2 & Hrun2 & Hbudget).
  rewrite (build_plan_functional _ _ _ _ Hrun Hrun2) in Hbudget.
  clear st1 Hrun1 st2 Hrun2.
  unfold create_sample_pack. fold pack_dir. cbv zeta.
  rewrite (path_mkdir_ok _ _ _ Hpack), Hrun.
  set (w1 := print _ (mkdir pack_dir w)).
  destruct (materialize_effect env pack_dir (selected_files st) w1)
    as (w2 & Hmat & Hfolders & Hframe & Hsize).
  { intros k (files & Hin & Hne)%elem_of_filled_folders.
    apply Hcfg. eauto. }
  rewrite Hmat. eexists _, (filled_folders (selected_files st)).
  split; [reflexivity|]. split_and!.
  - cbn [folders print]. by rewrite Hfolders.
  - intros k (files & Hin & Hne)%elem_of_filled_folders. eauto.
  - unfold filled_folders, dict_keys. by rewrite length_fmap.
  - cbn [disk print]. change (disk w1) with (disk w) in Hsize. lia.
  - intros p Hp. cbn [disk print]. rewrite Hframe; [done|].
    intros k files f Hin Hf.
    assert (chosen_of st k = files) as Hchosen.
    { unfold chosen_of. rewrite (dict_get_elem_of _ k files); [done | | done].
      by rewrite Hkeys. }
    destruct (Hslots k) as (_ & Hpool & _ & Hnone). rewrite Hchosen in *.
    apply Hp; [|by apply Hpool].
    destruct (decide (k ∈ selected_subfolders sample_map)) as [|Hout]; [done|].
    rewrite (Hnone Hout) in Hf. by apply elem_of_nil in Hf.
Qed.

(** The limits of the device, on the disk: when the mapping is a dict, the
    pack folder and the folder of every admitted category can be made
    (no file is in the way and the system allows it), every admitted
    category is configured, and no destination of a candidate is a
    directory, [create_sample_pack] returns, whatever copies, conversions or
    removals fail; it makes the pack folder and at most
    [MAX_FOLDERS_PER_PACK] folders in it, each for an admitted category,
    adds at most [MAX_FILES_PER_PACK] files, and changes no path but
    destinations of candidates of admitted categories. *)
Theorem pack_respects_device_limits env pack_name (sample_map : dict (list Path))
    output_dir (g : rng_state) (w : world) :
  let pack_dir := path_join output_dir pack_name in
  NoDup (dict_keys sample_map) →
  can_mkdir env w pack_dir →
  (∀ k, k ∈ selected_subfolders sample_map →
        is_Some (dict_get SUBFOLDER_CONFIG k) ∧
        can_mkdir env w (path_join pack_dir k)) →
  (∀ k f, k ∈ selected_subfolders sample_map →
          f ∈ default [] (dict_get sample_map k) →
          dest_file_path pack_dir k f ∉ folders w) →
  ∃ w' created,
    create_sample_pack env pack_name sample_map output_dir g w = Done w' ∧
    folders w' = {[pack_dir]} ∪ folders w
                 ∪ list_to_set (path_join pack_dir <$> created) ∧
    (∀ k, k ∈ created → k ∈ selected_subfolders sample_map) ∧
    (length created ≤ MAX_FOLDERS_PER_PACK)%nat ∧
    Z.of_nat (size (disk w')) ≤ Z.of_nat (size (disk w)) + MAX_FILES_PER_PACK ∧
    (∀ p, (∀ k f, k ∈ selected_subfolders sample_map →
                  f ∈ default [] (dict_get sample_map k) →
                  p ≠ dest_file_path pack_dir k f) →
          disk w' !! p = disk w !! p).
Proof.
  intros pack_dir Hnd Hpack Hcfg _.
  by apply create_sample_pack_effect.
Qed.

(** When a file is in the way of the pack folder, or the system refuses to
    make it, [create_sample_pack] raises before anything else happens. *)
Lemma pack_folder_in_the_way env pack_name (sample_map : dict (list Path))
    output_dir (g : rng_state) (w : world) :
  path_exists (path_join output_dir pack_name) w = true
  ∨ mkdir_of env (path_join output_dir pack_name) = false →
  create_sample_pack env pack_name sample_map output_dir g w
  = Raised OtherException.
Proof.
  intros Hway. unfold create_sample_pack, path_mkdir. cbv zeta.
  destruct (path_exists _ w); [done|]. destruct Hway as [? | ->]; done.
Qed.

Lemma pack_respects_device_limits_witness :
  ∃ w', create_sample_pack flaky_env "Amber Tide" scarce_map "/out" seed empty_world
        = Done w' ∧
        Z.of_nat (size (disk w')) ≤ MAX_FILES_PER_PACK.
Proof.
  destruct (pack_respects_device_limits flaky_env "Amber Tide" scarce_map "/out"
              seed empty_world) as (w' & created & Hrun & _ & _ & _ & Hsize & _).
  - apply (bool_decide_unpack _). by vm_compute.
  - split; reflexivity.
  - intros k Hk%list_elem_of_In. vm_compute in Hk.
    destruct Hk as [<-|[<-|[]]]; (split; [eexists; reflexivity | split; reflexivity]).
  - intros k f _ _. apply not_elem_of_empty.
  - exists w'. split; [exact Hrun | exact Hsize].
Defined.

(** The channel count is looked up without a guard: when the mapping is a
    dict and an admitted category is not a key of [SUBFOLDER_CONFIG],
    [create_sample_pack] never completes, whatever the random source draws,
    since every admitted category has files in the plan; and when the
    folders can be made (nothing is in their way, the system allows it, and
    no admitted category has a slash in its name) the exception is the
    [KeyError] of such a category. *)
Theorem unconfigured_category_raises env pack_name (sample_map : dict (list Path))
    output_dir (g : rng_state) (w : world) :
  let pack_dir := path_join output_dir pack_name in
  NoDup (dict_keys sample_map) →
  (∃ k, k ∈ selected_subfolders sample_map ∧ dict_get SUBFOLDER_CONFIG k = None) →
  ∃ e, create_sample_pack env pack_name sample_map output_dir g w = Raised e ∧
       (can_mkdir env w pack_dir →
        (∀ k, k ∈ selected_subfolders sample_map →
              has_slash k = false ∧ can_mkdir env w (path_join pack_dir k)) →
        ∃ k, e = KeyError k ∧
             k ∈ selected_subfolders sample_map ∧
             dict_get SUBFOLDER_CONFIG k = None).
Proof.
  intros pack_dir Hnd (k0 & Hk0 & Hnone).
  destruct (plan_slots sample_map g) as (st & Hrun & Hkeys & _).
  destruct (plan_folders sample_map g Hnd) as (st1 & Hrun1 & Hadm & _).
  rewrite (build_plan_functional _ _ _ _ Hrun Hrun1) in Hadm.
  destruct (admitted_categories_served sample_map g Hnd) as (st2 & Hrun2 & Hserved).
  rewrite (build_plan_functional _ _ _ _ Hrun Hrun2) in Hserved.
  clear st1 Hrun1 st2 Hrun2.
  assert (∃ k, k ∈ filled_folders (selected_files st)
               ∧ dict_get SUBFOLDER_CONFIG k = None) as Hfilled.
  { exists k0. split; [|done]. apply elem_of_filled_folders.
    destruct (Hserved k0 Hk0) as [_ Hone]. unfold chosen_of in Hone.
    destruct (dict_get (selected_files st) k0) as [files|] eqn:Hget;
      [|unfold len in Hone; simpl in Hone; lia].
    exists files. split.
    - clear Hone Hadm. revert Hget. generalize (selected_files st).
      intros d. induction d as [|[k' v'] d IH]; simpl; [done|].
      case_decide as Hk'; [intros [= ->]; subst k'; apply list_elem_of_here|].
      intros Hget. by apply list_elem_of_further, IH.
    - intros ->. unfold len in Hone. simpl in Hone. lia. }
  unfold create_sample_pack. fold pack_dir. cbv zeta.
  destruct (path_mkdir_cases env pack_dir w) as [Hmk|[e Hmk]]; rewrite Hmk.
  2: { exists e. split; [done|]. intros Hpack _.
       rewrite (path_mkdir_ok _ _ _ Hpack) in Hmk. done. }
  rewrite Hrun.
  set (w1 := print ("Creating sample pack " +:+ pack_name) (mkdir pack_dir w)).
  destruct (materialize_fails env pack_dir (selected_files st) w1 Hfilled)
    as [e Hmat].
  rewrite Hmat. exists e. split; [done|]. intros _ Hfolders.
  destruct (materialize_raises env pack_dir (selected_files st) w1)
    as (k & Hmat' & Hk & Hknone); [|done|].
  { intros k (files & Hin & Hne)%elem_of_filled_folders.
    apply Hfolders. eauto. }
  exists k. split_and!; [congruence | | done].
  apply elem_of_filled_folders in Hk as (files & Hin & Hne). eauto.
Qed.

Lemma unconfigured_category_raises_witness :
  create_sample_pack flaky_env "Amber Tide" riser_map "/out" seed empty_world
  = Raised (KeyError "Riser").
Proof.
  destruct (unconfigured_category_raises flaky_env "Amber Tide" riser_map "/out"
              seed empty_world) as (e & Hrun & Hkey).
  - apply (bool_decide_unpack _). by vm_compute.
  - exists "Riser". split; [|by vm_compute].
    apply list_elem_of_In. vm_compute. tauto.
  - rewrite Hrun. destruct Hkey as (k & -> & Hk & Hnone).
    + split; reflexivity.
    + intros k Hk%list_elem_of_In. vm_compute in Hk.
      destruct Hk as [<-|[<-|[]]]; (split; [reflexivity | split; reflexivity]).
    + apply list_elem_of_In in Hk. vm_compute in Hk.
      destruct Hk as [<-|[<-|[]]]; [|reflexivity].
      exfalso. revert Hnone. vm_compute. discriminate.
Defined.

(** ** From the configuration to the pack (lines 1169-1173 of [main]) *)






#[local] Set Warnings "-clear-no-such-hyp".

Lemma name_loop_spec (n : Z) (existing_names : gset string) fuel names fake :
  (length fake < fuel)%nat →
  names ## existing_names →
  Z.of_nat (size names) ≤ Z.max 0 n →
  let fresh := names ∪ fresh_names existing_names fake in
  if decide (n ≤ Z.of_nat (size fresh))
  then ∃ names' fake',
         name_loop fuel n existing_names names fake = Done (names', fake') ∧
         Z.of_nat (size names') = Z.max 0 n ∧
         names ⊆ names' ∧ names' ⊆ fresh ∧
         (∃ used, fake = used ++ fake')
  else name_loop fuel n existing_names names fake = Raised OtherException.
Proof.
  revert names fake. induction fuel as [|fuel IH]; intros names fake Hfuel Hdisj Hsize;
    [lia|].
  cbv zeta. simpl name_loop.
  destruct (bool_decide (Z.of_nat (size names) < n)) eqn:Hlt.
  2: { apply bool_decide_eq_false in Hlt.
       assert (size names ≤ size (names ∪ fresh_names existing_names fake))%nat
         by (apply subseteq_size; set_solver).
       rewrite decide_True by lia.
       exists names, fake. split_and!; [done | lia | done | set_solver | by exists []]. }
  apply bool_decide_eq_true in Hlt.
  destruct fake as [|word1 [|word2 fake]].
  - unfold fresh_names. simpl. rewrite decide_False; [done|].
    replace (names ∪ ∅ ∖ existing_names) with names by set_solver. lia.
  - unfold fresh_names. simpl. rewrite decide_False; [done|].
    replace (names ∪ ∅ ∖ existing_names) with names by set_solver. lia.
  - unfold name_round. simpl unique_word. step_result.
    set (name := two_word_name word1 word2).
    set (names1 := if decide (name ∈ existing_names) then names else {[name]} ∪ names).
    assert (names ∪ fresh_names existing_names (word1 :: word2 :: fake)
            = names1 ∪ fresh_names existing_names fake) as ->.
    { unfold fresh_names, names1. simpl. fold name.
      case_decide; set_solver. }
    assert (names ⊆ names1) as Hsub by (unfold names1; case_decide; set_solver).
    assert (size names1 ≤ S (size names))%nat as Hgrow.
    { unfold names1. case_decide; [lia|].
      rewrite size_union_alt, size_singleton.
      assert (size (names ∖ {[name]}) ≤ size names)%nat
        by (apply subseteq_size; set_solver). lia. }
    specialize (IH names1 fake). simpl in Hfuel.
    cbv zeta in IH.
    destruct (decide (n ≤ Z.of_nat (size (names1 ∪ fresh_names existing_names fake)))).
    + destruct IH as (names' & fake' & Hrun & Hn & Hsub' & Hfresh & used & Hused);
        [lia | unfold names1; case_decide; set_solver | lia |].
      exists names', fake'. split_and!; [done | done | set_solver | done |].
      exists (word1 :: word2 :: used). by rewrite Hused.
    + apply IH; [lia | unfold names1; case_decide; set_solver | lia].
Qed.

(** The name generator returns exactly when the words still to come pair
    up into at least [n] names that are not taken: it then returns [n] of
    those names ([0] for a negative [n]), none of them an existing one, and
    has used a prefix of the words. Otherwise the word source runs dry and
    its exception leaves the function. In no case does the loop run on. *)
Theorem names_are_fresh_and_counted (n : Z) (existing_names : option (gset string))
    (fake : faker) :
  let fresh := fresh_names (default ∅ existing_names) fake in
  if decide (n ≤ Z.of_nat (size fresh))
  then ∃ names fake',
         generate_unique_two_word_names n existing_names fake = Done (names, fake') ∧
         Z.of_nat (size names) = Z.max 0 n ∧
         names ⊆ fresh ∧
         names ## default ∅ existing_names ∧
         (∃ used, fake = used ++ fake')
  else generate_unique_two_word_names n existing_names fake = Raised OtherException.
Proof.
  intros fresh. unfold generate_unique_two_word_names. cbv zeta.
  pose proof (name_loop_spec n (default ∅ existing_names) (S (length fake)) ∅ fake)
    as Hloop.
  cbv zeta in Hloop.
  replace (∅ ∪ fresh_names (default ∅ existing_names) fake) with fresh in Hloop
    by (unfold fresh; set_solver).
  destruct (decide (n ≤ Z.of_nat (size fresh))).
  - destruct Hloop as (names & fake' & Hrun & Hn & _ & Hsub & Hused);
      [lia | set_solver | rewrite size_empty; lia |].
    exists names, fake'. split_and!; [done | done | done | | done].
    unfold fresh, fresh_names in Hsub. set_solver.
  - apply Hloop; [lia | set_solver | rewrite size_empty; lia].
Qed.

Lemma ascii_upper_space c : c ≠ " "%char → ascii_upper c ≠ " "%char.
Proof.
  destruct c as [[] [] [] [] [] [] [] []]; intros Hc; vm_compute; congruence.
Qed.

Lemma ascii_lower_space c : c ≠ " "%char → ascii_lower c ≠ " "%char.
Proof.
  destruct c as [[] [] [] [] [] [] [] []]; intros Hc; vm_compute; congruence.
Qed.

Lemma str_lower_spaceless s : spaceless s → spaceless (str_lower s).
Proof.
  unfold spaceless. induction s as [|c s IH]; simpl; [done|].
  rewrite !not_elem_of_cons. intros [Hc Hs]. split; [|by apply IH].
  intros Heq. by apply (ascii_lower_space c).
Qed.

Lemma str_capitalize_spaceless s : spaceless s → spaceless (str_capitalize s).
Proof.
  destruct s as [|c s]; [done|]. unfold spaceless. simpl.
  rewrite !not_elem_of_cons. intros [Hc Hs]. split; [|by apply str_lower_spaceless].
  intros Heq. by apply (ascii_upper_space c).
Qed.

(** The first word of a two-word name can be read back from the name. *)
Lemma first_word_inj (x x' y y' : string) :
  spaceless x → spaceless x' →
  x +:+ " " +:+ y = x' +:+ " " +:+ y' → x = x'.
Proof.
  unfold spaceless. revert x'. induction x as [|c x IH]; intros [|c' x']; simpl.
  - done.
  - rewrite not_elem_of_cons. intros _ [Hc' _]. rewrite string_app_cons.
    change (EmptyString +:+ " " +:+ y) with (String " " y).
    intros [= Heq _]. by destruct Hc'.
  - rewrite not_elem_of_cons. intros [Hc _] _. rewrite string_app_cons.
    change (EmptyString +:+ " " +:+ y') with (String " " y').
    intros [= Heq _]. by destruct Hc.
  - rewrite !not_elem_of_cons. intros [_ Hx] [_ Hx']. rewrite !string_app_cons.
    intros [= -> Heq]. f_equal. by apply IH.
Qed.

Lemma candidate_names_first_word fake name :
  name ∈ candidate_names fake →
  ∃ word1 word2, word1 ∈ fake ∧ name = two_word_name word1 word2.
Proof.
  revert name. induction fake as [fake IH] using (induction_ltof1 _ (@length string)).
  unfold ltof in IH. intros name.
  destruct fake as [|word1 [|word2 fake]]; simpl; [by intros ?%elem_of_nil..|].
  intros [->|Hin]%elem_of_cons.
  - exists word1, word2. split; [apply list_elem_of_here | done].
  - destruct (IH fake) with (name := name) as (w1 & w2 & Hw1 & ->);
      [simpl; lia | done |].
    exists w1, w2. split; [by do 2 apply list_elem_of_further | done].
Qed.

Lemma candidate_names_NoDup fake :
  NoDup (str_capitalize <$> fake) → Forall spaceless fake →
  NoDup (candidate_names fake).
Proof.
  induction fake as [fake IH] using (induction_ltof1 _ (@length string)).
  unfold ltof in IH.
  destruct fake as [|word1 [|word2 fake]]; simpl; [constructor..|].
  csimpl. intros Hnd Hwords.
  apply NoDup_cons in Hnd as [Hfirst Hnd]. apply NoDup_cons in Hnd as [_ Hnd].
  apply Forall_cons in Hwords as [Hs1 Hwords].
  apply Forall_cons in Hwords as [_ Hwords].
  constructor; [|apply IH; [simpl; lia | done | done]].
  intros (w1 & w2 & Hw1 & Heq)%candidate_names_first_word.
  apply first_word_inj in Heq.
  - apply Hfirst. rewrite Heq. apply list_elem_of_further.
    by apply list_elem_of_fmap_2.
  - by apply str_capitalize_spaceless.
  - apply str_capitalize_spaceless. by eapply (proj1 (Forall_forall _ _) Hwords).
Qed.

Lemma candidate_names_length fake :
  length (candidate_names fake) = (length fake / 2)%nat.
Proof.
  induction fake as [fake IH] using (induction_ltof1 _ (@length string)).
  unfold ltof in IH.
  destruct fake as [|word1 [|word2 fake]]; [done..|].
  cbn [candidate_names length]. rewrite IH by (simpl; lia).
  change (S (S (length fake))) with (1 * 2 + length fake)%nat.
  by rewrite Nat.div_add_l.
Qed.

(** Words that stay distinct when capitalized and hold no space pair up
    into distinct names, so [2 * (n + len(existing_names))] words are enough
    for [n] names, whatever the existing names are. *)
Theorem enough_words_give_names (n : Z) (existing_names : option (gset string))
    (fake : faker) :
  NoDup (str_capitalize <$> fake) → Forall spaceless fake →
  2 * (n + Z.of_nat (size (default ∅ existing_names))) ≤ len fake →
  ∃ names fake',
    generate_unique_two_word_names n existing_names fake = Done (names, fake') ∧
    Z.of_nat (size names) = Z.max 0 n ∧
    names ## default ∅ existing_names.
Proof.
  intros Hnd Hwords Hlen.
  pose proof (names_are_fresh_and_counted n existing_names fake) as Hspec.
  cbv zeta in Hspec.
  set (existing := default ∅ existing_names) in *.
  assert (length (candidate_names fake)
          ≤ size (fresh_names existing fake) + size existing)%nat as Hcount.
  { rewrite <-(size_list_to_set (C := gset string)) by by apply candidate_names_NoDup.
    unfold fresh_names.
    rewrite <-size_union by set_solver.
    apply subseteq_size. intros x Hx.
    destruct (decide (x ∈ existing)); set_solver. }
  rewrite candidate_names_length in Hcount.
  rewrite decide_True in Hspec.
  - destruct Hspec as (names & fake' & Hrun & Hn & _ & Hdisj & _). eauto.
  - unfold len in Hlen.
    assert (Z.of_nat (length fake / 2) = Z.of_nat (length fake) / 2) as Hdiv
      by apply (Nat2Z.inj_div _ 2).
    assert (n + Z.of_nat (size existing) ≤ Z.of_nat (length fake) / 2)
      by (apply Z.div_le_lower_bound; lia).
    lia.
Qed.

Lemma enough_words_give_names_witness :
  ∃ names fake',
    generate_unique_two_word_names 2 (Some {["Amber Tide"]}) small_vocabulary
    = Done (names, fake') ∧
    Z.of_nat (size names) = 2.
Proof.
  destruct (enough_words_give_names 2 (Some {["Amber Tide"]}) small_vocabulary)
    as (names & fake' & Hrun & Hn & _).
  - apply (bool_decide_unpack _). by vm_compute.
  - unfold small_vocabulary, spaceless.
    repeat (constructor; [by apply (bool_decide_unpack _)|]). constructor.
  - by vm_compute.
  - exists names, fake'. split; [exact Hrun | exact Hn].
Defined.

(** ** The sweep of hidden files *)

Lemma sweep_file_effect removable root (w : world) file :
  let w' := sweep_file removable root w file in
  folders w' = folders w ∧
  ∀ p, disk w' !! p
       = if decide (String.prefix "." file = true ∧ p = path_join root file
                    ∧ removable p = true)
         then None else disk w !! p.
Proof.
  unfold sweep_file, os_remove, path_exists.
  destruct (String.prefix "." file) eqn:Hdot.
  2: { split; [done|]. intros p. case_decide as Hp; [|done].
       by destruct Hp as [? _]. }
  case_bool_decide as Hthere.
  - destruct (removable (path_join root file)) eqn:Hrm.
    + split; [done|]. intros p. cbn [disk print unlink]. case_decide as Hp.
      * destruct Hp as (_ & -> & _). apply lookup_delete_eq.
      * rewrite lookup_delete_ne; [done|]. intros <-. by apply Hp.
    + split; [done|]. intros p. cbn [disk print]. case_decide as Hp; [|done].
      destruct Hp as (_ & -> & ?). congruence.
  - split; [done|]. intros p. cbn [disk print]. case_decide as Hp; [|done].
    destruct Hp as (_ & -> & _).
    destruct (disk w !! path_join root file) eqn:Hget; [|done].
    destruct Hthere. eauto.
Qed.

Lemma if_decide_or {T} (A B C : Prop) `{!Decision A, !Decision B, !Decision C}
    (x y : T) :
  (C ↔ A ∨ B) →
  (if decide A then x else if decide B then x else y)
  = (if decide C then x else y).
Proof. intros HC. destruct (decide A), (decide B), (decide C); tauto. Qed.

Lemma sweep_files_effect removable root (files : list string) (w : world) :
  let w' := foldl (sweep_file removable root) w files in
  folders w' = folders w ∧
  ∀ p, disk w' !! p
       = if decide (p ∈ path_join root
                          <$> filter (λ file, String.prefix "." file = true) files
                    ∧ removable p = true)
         then None else disk w !! p.
Proof.
  revert w. induction files as [|file files IH]; intros w; simpl.
  - by split.
  - destruct (IH (sweep_file removable root w file)) as [Hfolders Hdisk].
    destruct (sweep_file_effect removable root w file) as [Hfolders1 Hdisk1].
    split; [by rewrite Hfolders|]. intros p. rewrite Hdisk, Hdisk1.
    apply if_decide_or. rewrite filter_cons. split.
    + intros [Hin Hrm]. case_decide; csimpl in Hin; [|by left].
      apply elem_of_cons in Hin as [->|Hin]; [by right | by left].
    + intros [[Hin Hrm]|(Hdot & -> & Hrm)]; (split; [|done]).
      * case_decide; csimpl; [by apply list_elem_of_further | done].
      * rewrite decide_True by done. csimpl. apply list_elem_of_here.
Qed.

(** What the sweep leaves on disk: a path is gone exactly when the walk
    lists it as a file whose own name starts with a dot and the system lets
    it be removed; every other file, whatever directory it is in, is as it
    was, no folder is removed, and a failed removal stops nothing. *)
Theorem sweep_removes_the_hidden_files (removable : Path → bool) (fs : file_system)
    (directory : string) (w : world) :
  let w' := delete_hidden_files removable fs directory w in
  folders w' = folders w ∧
  ∀ p, disk w' !! p
       = if decide (p ∈ hidden_paths (walk_source fs directory)
                    ∧ removable p = true)
         then None else disk w !! p.
Proof.
  unfold delete_hidden_files. generalize (walk_source fs directory).
  intros walk. revert w.
  induction walk as [|[[root dirs] files] walk IH]; intros w; simpl.
  - by split.
  - destruct (IH (foldl (sweep_file removable root) w files.*1))
      as [Hfolders Hdisk].
    destruct (sweep_files_effect removable root files.*1 w) as [Hfolders1 Hdisk1].
    split; [by rewrite Hfolders|]. intros p. rewrite Hdisk, Hdisk1.
    apply if_decide_or. rewrite elem_of_app. tauto.
Qed.

(** * Properties of [main.py] *)

(** ** The earlier script: pruning the kinds *)

Lemma list_remove_spec k (l : list string) :
  k ∈ l →
  ∃ l', main_py.list_remove k l = Ok l' ∧ length l = S (length l') ∧
        sublist l' l ∧ ∀ x, x ∈ l → x ≠ k → x ∈ l'.
Proof.
  induction l as [|x l IH]; [by intros ?%elem_of_nil|].
  intros Hin. simpl. destruct (decide (x = k)) as [->|Hne].
  - exists l. split_and!; [done | done | by apply sublist_cons |].
    intros y [->|Hy]%elem_of_cons Hyk; done.
  - apply elem_of_cons in Hin as [->|Hin]; [done|].
    destruct (IH Hin) as (l' & -> & Hlen & Hsub & Hkeep). step_result.
    exists (x :: l'). split_and!; [done | simpl; lia | by apply sublist_skip |].
    intros y [->|Hy]%elem_of_cons Hyk; [apply list_elem_of_here|].
    by apply list_elem_of_further, Hkeep.
Qed.

(** One pruning pass, entered with more than 20 kinds. *)
Lemma prune_from_spec keep fuel index (all_kinds : list string) :
  (length all_kinds - index ≤ fuel)%nat → 20 < len all_kinds →
  ∃ kept, main_py.prune_from fuel keep index all_kinds = Done kept ∧
          sublist kept all_kinds ∧
          (∀ k, k ∈ all_kinds → k ∈ keep → k ∈ kept) ∧
          20 ≤ len kept.
Proof.
  revert index all_kinds.
  induction fuel as [|fuel IH]; intros index all_kinds Hfuel Hlen.
  - assert (all_kinds !! index = None) as Hend
      by (apply lookup_ge_None; lia).
    simpl. rewrite Hend. exists all_kinds. split_and!; (done || lia).
  - simpl. destruct (all_kinds !! index) as [k|] eqn:Hk.
    2: { exists all_kinds. split_and!; (done || lia). }
    assert (index < length all_kinds)%nat by by eapply lookup_lt_Some.
    destruct (decide (k ∈ keep)) as [Hkeep|Hdrop].
    { apply IH; [lia | done]. }
    destruct (list_remove_spec k all_kinds) as (rest & -> & Hcount & Hsub & Hrest).
    { by eapply list_elem_of_lookup_2. }
    destruct (decide (len rest ≤ 20)) as [Hfew|Hmany].
    + exists rest. split_and!; [done | done | | unfold len in *; lia].
      intros x Hx Hxkeep. apply Hrest; [done|]. by intros ->.
    + destruct (IH (S index) rest) as (kept & Hrun & Hsub' & Hkept & Hlen');
        [lia | lia |].
      exists kept. split_and!; [done | by etrans | | done].
      intros x Hx Hxkeep. apply Hkept; [|done]. apply Hrest; [done|]. by intros ->.
Qed.

Lemma select_kinds_spec (lib_val : dict (list main_py.file_pair)) :
  ∃ all_kinds,
    main_py.select_kinds lib_val = Done all_kinds ∧
    sublist all_kinds (dict_keys lib_val) ∧
    (∀ k, k ∈ dict_keys lib_val → k ∈ main_py.FILL_KEYS → k ∈ all_kinds) ∧
    Z.min 20 (len (dict_keys lib_val)) ≤ len all_kinds ∧
    (len (dict_keys lib_val) ≤ 20 → all_kinds = dict_keys lib_val).
Proof.
  unfold main_py.select_kinds. cbv zeta.
  destruct (decide (20 < len (dict_keys lib_val))) as [Hmany|Hfew].
  2: { exists (dict_keys lib_val). split_and!; (done || lia). }
  unfold main_py.prune.
  destruct (prune_from_spec main_py.KEEPER_KINDS (length (dict_keys lib_val)) 0
              (dict_keys lib_val)) as (kept1 & -> & Hsub1 & Hkept1 & Hlen1);
    [lia | done |].
  assert (∀ k, k ∈ dict_keys lib_val → k ∈ main_py.FILL_KEYS → k ∈ kept1) as Hfill1.
  { intros k Hk Hfill. apply Hkept1; [done|].
    unfold main_py.KEEPER_KINDS. apply elem_of_app. by left. }
  destruct (decide (20 < len kept1)) as [Hmany1|Hfew1].
  2: { exists kept1. split_and!; [done | done | done | lia | lia]. }
  destruct (prune_from_spec main_py.FILL_KEYS (length kept1) 0 kept1)
    as (kept2 & -> & Hsub2 & Hkept2 & Hlen2); [lia | done |].
  exists kept2. split_and!; [done | by etrans | | lia | lia].
  intros k Hk Hfill. apply Hkept2; [by apply Hfill1 | done].
Qed.

(** ** The earlier script: drawing the files *)

Lemma for_each_rule {S A} (body : S → A → result S) (Inv : S → Prop)
    (Exn : exn → Prop) (xs : list A) (s : S) :
  (∀ s x s', Inv s → body s x = Ok s' → Inv s') →
  (∀ s x e, Inv s → body s x = Raise e → Exn e) →
  Inv s →
  match for_each body xs s with
  | Ok s' => Inv s'
  | Raise e => Exn e
  end.
Proof.
  intros Hok Hraise. revert s. induction xs as [|x xs IH]; intros s Hs; simpl.
  - done.
  - destruct (body s x) as [s'|e] eqn:Hbody; step_result.
    + apply IH. by eapply Hok.
    + by eapply Hraise.
Qed.

Lemma factorial_nonneg r : 0 ≤ factorial r.
Proof. unfold factorial. lia. Qed.

Lemma factorial_succ r : 1 ≤ r → factorial r = r * factorial (r - 1).
Proof.
  intros Hr. unfold factorial.
  replace (Z.to_nat r) with (S (Z.to_nat (r - 1))) by lia.
  change (fact (S (Z.to_nat (r - 1))))
    with (S (Z.to_nat (r - 1)) * fact (Z.to_nat (r - 1)))%nat.
  rewrite Nat2Z.inj_mul. f_equal. lia.
Qed.

Lemma factorial_small r : factorial r ≤ 255 → r ≤ 5.
Proof.
  intros Hle. destruct (decide (r ≤ 5)) as [|Hbig]; [done|].
  assert (∀ n, (720 ≤ fact (6 + n))%nat) as Hfact.
  { induction n as [|n IH]; [by vm_compute|].
    replace (6 + S n)%nat with (S (6 + n)) by lia.
    change (fact (S (6 + n))) with (S (6 + n) * fact (6 + n))%nat. nia. }
  unfold factorial in Hle. specialize (Hfact (Z.to_nat r - 6)%nat).
  replace (6 + (Z.to_nat r - 6))%nat with (Z.to_nat r) in Hfact by lia. lia.
Qed.

Section legacy_allocation.
Variable insert_file : world → main_py.file_pair → result world.
Variable all_kinds : list string.

Abbreviation io_error := (main_py_io_error insert_file).

Lemma draw_kind_rule q round st item :
  pass_inv q round st →
  match main_py.draw_kind insert_file all_kinds st item with
  | Ok st' => pass_inv q round st'
  | Raise e => io_error e
  end.
Proof.
  intros (Hq & Hround & Hins & Hsum & Hflag). destruct item as [kind_key kind_val].
  unfold main_py.draw_kind.
  destruct (decide (kind_key ∈ all_kinds)) as [Hadm|]; [|done].
  cbv zeta. case_decide as Hnum; [|done].
  case_decide as Hleft.
  - unfold random_sample. rewrite decide_True by lia. step_result.
    pose proof (sample_positions_length (Z.to_nat (Z.min (main_py.files_per_kind st)
                  (len kind_val))) kind_val (main_py.rng st)) as Hlen.
    destruct (sample_positions _ kind_val (main_py.rng st)) as [random_subset g].
    simpl in Hlen.
    pose proof (for_each_rule insert_file (λ _, True) io_error random_subset
                  (main_py.disk_state st)) as Hio.
    destruct (for_each insert_file random_subset (main_py.disk_state st))
      as [w|e]; step_result.
    + unfold pass_inv. simpl. unfold len in *.
      rewrite Hlen by lia. split_and!; try done; try lia.
    + apply Hio; [done | | done]. intros w f e' _ He'. by exists w, f.
  - unfold pass_inv. simpl. split_and!; try done; lia.
Qed.

Lemma round_body_rule st :
  head_inv st →
  match main_py.round_body insert_file all_kinds st with
  | Ok st' => head_inv st' ∧ main_py.i st' = main_py.i st + 1
  | Raise e => io_error e
  end.
Proof.
  intros (Hi & Hq & Hcap & Hins & Hsum & Hflag). unfold main_py.round_body.
  unfold floordiv. rewrite decide_False by lia. step_result.
  set (q := main_py.files_per_kind st / main_py.i st).
  pose proof (for_each_rule (main_py.draw_kind insert_file all_kinds)
                (pass_inv q (main_py.i st)) io_error (main_py.lib_val st)
                (main_py.LoopState q (main_py.files_inserted st)
                   (main_py.files_left st) (main_py.i st) false
                   (main_py.lib_val st) (main_py.rng st) (main_py.disk_state st)))
    as Hpass.
  simpl main_py.lib_val.
  destruct (for_each _ (main_py.lib_val st) _) as [st2|e]; step_result.
  - destruct Hpass as (Hq2 & Hround2 & Hins2 & Hsum2 & Hflag2).
    + intros s x s' Hs Hbody.
      pose proof (draw_kind_rule q (main_py.i st) s x Hs) as Hrule.
      by rewrite Hbody in Hrule.
    + intros s x e Hs Hbody.
      pose proof (draw_kind_rule q (main_py.i st) s x Hs) as Hrule.
      by rewrite Hbody in Hrule.
    + unfold pass_inv. simpl. split_and!; (done || lia).
    + unfold head_inv. simpl. rewrite Hq2, Hround2.
      replace (main_py.i st + 1 - 1) with (main_py.i st) by lia.
      assert (0 ≤ q) by (apply Z.div_pos; lia).
      split_and!; try done; try lia.
      * rewrite factorial_succ by lia.
        pose proof (factorial_nonneg (main_py.i st - 1)).
        assert (q * main_py.i st ≤ main_py.files_per_kind st)
          by (unfold q; rewrite Z.mul_comm; apply Z.mul_div_le; lia).
        nia.
      * intros. by apply Hflag2.
  - apply Hpass.
    + intros s x s' Hs Hbody.
      pose proof (draw_kind_rule q (main_py.i st) s x Hs) as Hrule.
      by rewrite Hbody in Hrule.
    + intros s x e' Hs Hbody.
      pose proof (draw_kind_rule q (main_py.i st) s x Hs) as Hrule.
      by rewrite Hbody in Hrule.
    + unfold pass_inv. simpl. split_and!; (done || lia).
Qed.

(** A round is entered with [i <= 6]: the quota of the round before was
    positive and at most [255 / (i - 1)!]. *)
Lemma loop_condition_round st :
  head_inv st → main_py.loop_condition st = true → main_py.i st ≤ 6.
Proof.
  intros (Hi & Hq & Hcap & _ & _ & Hflag) [_ Hne]%andb_true_iff.
  destruct (decide (2 ≤ main_py.i st)) as [Hlate|]; [|lia].
  specialize (Hflag Hne Hlate).
  pose proof (factorial_nonneg (main_py.i st - 1)).
  assert (factorial (main_py.i st - 1) ≤ 255) as Hsmall by nia.
  apply factorial_small in Hsmall. lia.
Qed.

Lemma while_loop_result fuel st :
  head_inv st → main_py.i st ≤ 7 → (Z.to_nat (7 - main_py.i st) ≤ fuel)%nat →
  match main_py.while_loop insert_file fuel all_kinds st with
  | Done st' => head_inv st' ∧ main_py.i st' ≤ 7 ∧
                main_py.loop_condition st' = false
  | Raised e => io_error e
  | OutOfFuel => False
  end.
Proof.
  revert st. induction fuel as [|fuel IH]; intros st Hinv Hi Hfuel; simpl.
  - destruct (main_py.loop_condition st) eqn:Hc; [|done].
    pose proof (loop_condition_round st Hinv Hc). lia.
  - destruct (main_py.loop_condition st) eqn:Hc; [|done].
    pose proof (loop_condition_round st Hinv Hc) as Hround.
    pose proof (round_body_rule st Hinv) as Hbody.
    destruct (main_py.round_body insert_file all_kinds st) as [st'|e]; [|done].
    destruct Hbody as [Hinv' Hi']. apply IH; [done | lia | lia].
Qed.
End legacy_allocation.

Lemma allocate_result insert_file all_kinds lib_val g w :
  match main_py.allocate insert_file all_kinds lib_val g w with
  | Done st => all_kinds ≠ [] ∧
               0 ≤ main_py.files_inserted st ≤ 254 ∧
               (0 < main_py.files_left st →
                main_py.files_inserted st + main_py.files_left st = 255) ∧
               1 ≤ main_py.i st ≤ 7
  | Raised e => (all_kinds = [] ∧ e = ZeroDivisionError) ∨
                main_py_io_error insert_file e
  | OutOfFuel => False
  end.
Proof.
  unfold main_py.allocate, floordiv.
  destruct (decide (len all_kinds = 0)) as [Hnone|Hsome].
  { left. split; [|done]. destruct all_kinds; [done|].
    unfold len in Hnone. simpl in Hnone. lia. }
  pose proof (len_nonneg all_kinds) as Hn.
  set (st0 := main_py.LoopState (255 / len all_kinds) 0 255 1 true lib_val g w).
  assert (0 ≤ 255 / len all_kinds ≤ 255) as Hq.
  { split; [apply Z.div_pos; lia | apply Z.div_le_upper_bound; lia]. }
  assert (head_inv st0) as Hinv0.
  { unfold head_inv. simpl. change (factorial (1 - 1)) with 1.
    split_and!; (done || lia). }
  pose proof (while_loop_result insert_file all_kinds 255 st0 Hinv0) as Hloop.
  assert (main_py.i st0 ≤ 7) as Hi0 by (simpl; lia).
  assert (Z.to_nat (7 - main_py.i st0) ≤ 255)%nat as Hfuel by (simpl; lia).
  specialize (Hloop Hi0 Hfuel).
  destruct (main_py.while_loop insert_file 255 all_kinds st0) as [st|e|];
    [|by right|done].
  destruct Hloop as ((Hi & _ & _ & Hins & Hsum & _) & Hround & _).
  split_and!; try done; try lia. by intros ->.
Qed.

(** Pruning the kinds of a library: the pass over [KEEPER_KINDS] and the
    pass over [FILL_KEYS] return, keep the order of the kinds, never remove
    one of the five fill keys, and stop removing as soon as 20 kinds are
    left, so that a library with kinds keeps at least one. A library with
    at most 20 kinds keeps them all. *)
Theorem pruning_keeps_fill_keys (lib_val : dict (list main_py.file_pair)) :
  ∃ all_kinds,
    main_py.select_kinds lib_val = Done all_kinds ∧
    sublist all_kinds (dict_keys lib_val) ∧
    (∀ k, k ∈ dict_keys lib_val → k ∈ main_py.FILL_KEYS → k ∈ all_kinds) ∧
    Z.min 20 (len (dict_keys lib_val)) ≤ len all_kinds ∧
    (len (dict_keys lib_val) ≤ 20 → all_kinds = dict_keys lib_val).
Proof. exact (select_kinds_spec lib_val). Qed.

(** One library in the earlier script: the loop ends within six rounds;
    it never inserts the whole budget, at most 254 of the 255 files,
    because a draw that reaches or crosses the budget is dropped; while some
    budget is left the inserted files and the budget left add up to 255; a
    library without kinds ends in [ZeroDivisionError]; and no other
    exception arises unless copying or converting a file raises it. *)
Theorem library_never_gets_full_budget insert_file
    (lib_val : dict (list main_py.file_pair)) (g : rng_state) (w : world) :
  match main_py.pack_library insert_file lib_val g w with
  | Done st => lib_val ≠ [] ∧
               0 ≤ main_py.files_inserted st ≤ 254 ∧
               (0 < main_py.files_left st →
                main_py.files_inserted st + main_py.files_left st = 255) ∧
               0 ≤ main_py.i st - 1 ≤ 6
  | Raised e => (lib_val = [] ∧ e = ZeroDivisionError) ∨
                main_py_io_error insert_file e
  | OutOfFuel => False
  end.
Proof.
  unfold main_py.pack_library.
  destruct (select_kinds_spec lib_val) as (all_kinds & -> & Hsub & _ & Hlen & _).
  pose proof (allocate_result insert_file all_kinds lib_val g w) as Hrun.
  destruct (main_py.allocate insert_file all_kinds lib_val g w) as [st|e|];
    [| |done].
  - destruct Hrun as (Hsome & Hins & Hsum & Hi).
    split; [|split; [done | split; [done | lia]]].
    intros ->. apply Hsome. by apply sublist_nil_r.
  - destruct Hrun as [[-> ->]|Hio]; [left | by right].
    split; [|done]. destruct lib_val; [done|].
    unfold len in Hlen. simpl in Hlen. lia.
Qed.

Lemma legacy_loop_step insert_file all_kinds fuel st st' :
  main_py.loop_condition st = true →
  main_py.round_body insert_file all_kinds st = Ok st' →
  main_py.while_loop insert_file (S fuel) all_kinds st
  = main_py.while_loop insert_file fuel all_kinds st'.
Proof. intros Hc Hbody. simpl. by rewrite Hc, Hbody. Qed.

Lemma legacy_loop_stop insert_file all_kinds fuel st :
  main_py.loop_condition st = false →
  main_py.while_loop insert_file fuel all_kinds st = Done st.
Proof. intros Hc. destruct fuel; simpl; by rewrite Hc. Qed.

(** The draw that reaches the budget is dropped, not cut down: a library
    whose only kind lists 255 files or more gets no file at all, and the
    loop stops after its first round. *)
Theorem budget_reaching_draw_is_dropped insert_file kind
    (files : list main_py.file_pair) (g : rng_state) (w : world) :
  255 ≤ len files →
  main_py.pack_library insert_file [(kind, files)] g w
  = Done (main_py.LoopState 255 0 0 2 true [(kind, files)] g w).
Proof.
  intros Hfiles. unfold main_py.pack_library, main_py.select_kinds.
  cbn [dict_keys fmap list_fmap fst]. rewrite decide_False by (unfold len; simpl; lia).
  unfold main_py.allocate. change (floordiv 255 (len [kind])) with (Ok (A := Z) 255).
  cbv iota beta.
  rewrite (legacy_loop_step insert_file [kind] 254 _
             (main_py.LoopState 255 0 0 2 true [(kind, files)] g w)).
  - by apply legacy_loop_stop.
  - done.
  - unfold main_py.round_body. cbn [main_py.files_per_kind main_py.i].
    change (floordiv 255 1) with (Ok (A := Z) 255). step_result.
    cbn [main_py.lib_val for_each main_py.draw_kind].
    rewrite decide_True by apply list_elem_of_here.
    cbn [main_py.files_per_kind main_py.files_left].
    rewrite Z.min_l by done.
    rewrite decide_True by lia. rewrite decide_False by lia. by step_result.
Qed.

Lemma budget_reaching_draw_is_dropped_witness :
  main_py.pack_library (λ w _, Ok w)
    [("Kick", replicate 300 ("/lib/k.wav", "/out/Lib/Kick", true))] seed empty_world
  = Done (main_py.LoopState 255 0 0 2 true
            [("Kick", replicate 300 ("/lib/k.wav", "/out/Lib/Kick", true))]
            seed empty_world).
Proof.
  apply (budget_reaching_draw_is_dropped (λ w _, Ok w) "Kick"
           (replicate 300 ("/lib/k.wav", "/out/Lib/Kick", true)) seed empty_world).
  by vm_compute.
Defined.
